(** * Alfred socket front-end: per-socket connection state and handlers

    Shallow embedding of [configureWebSocketServices] (the routerlicious
    "alfred" lambda): the per-socket maps, the connect pipeline with its
    expiration timer, the [submitOp] handler with its message sanitizer,
    and the protocol-version negotiator.

    The states [reachable] are those of the events [connect_document] and
    [submitOp].  The handlers of [submitSignal], [get_clients], [ping] and
    [disconnect], the error listener of the orderer connection and the
    callback of the expiration timer are embedded after them; [alive]
    follows a socket through all its events up to [disconnect].

    Conventions of the embedding.
    - JavaScript values that arrive on the wire are trees ([jsval]); an
      object is a finite map from property names to values, a property that
      is missing reads as [JUndefined].
    - A JavaScript [Map<string, _>] is a [gmap string _].
    - Every call to a collaborator (rate limiter, token library, tenant
      manager, client registry, orderer manager, clock, random source) is
      answered by a field of an environment record, one record per event.
    - Handlers thread the socket state explicitly and return the list of
      outward effects in the order in which the code performs them.
      A rejected promise or a thrown exception keeps the state written so
      far: nothing is rolled back.
    - The timers that the handlers create with [setTimeout] are kept with
      the socket state, each under its handle with the time at which it
      fires; [setTimeout] and [clearTimeout] are those of Node.js.
    - Logging and telemetry (logger, Lumberjack, connect metrics) are not
      effects of the model. *)

From stdpp Require Import gmap strings list fin_maps.
From Stdlib Require Import ZArith Ascii String.

Set Warnings "-register-all,-clear-no-such-hyp".


Local Open Scope string_scope.
Local Open Scope Z_scope.

(** ** JavaScript values *)

Inductive jsval : Type :=
| JUndefined
| JNull
| JBool (b : bool)
| JNum (n : Z)
| JStr (s : string)
| JArr (l : list jsval)
| JObj (o : gmap string jsval).

(** An object of the wire protocol. *)
Abbreviation jsobj := (gmap string jsval).

(** Property read [o.k] on an object. *)
Definition js_get (o : jsobj) (k : string) : jsval :=
  default JUndefined (o !! k).

(** Property read [v.k] on a value known to be neither [null] nor
    [undefined]: primitives and arrays have no such data property. *)
Definition prop (v : jsval) (k : string) : jsval :=
  match v with
  | JObj o => js_get o k
  | _ => JUndefined
  end.

(** JavaScript truthiness.  Numbers are carried as integers: only whether
    a number is zero is ever inspected. *)
Definition truthy (v : jsval) : bool :=
  match v with
  | JUndefined | JNull => false
  | JBool b => b
  | JNum n => negb (n =? 0)
  | JStr s => negb (String.eqb s EmptyString)
  | JArr _ | JObj _ => true
  end.

Definition is_array (v : jsval) : bool :=
  match v with JArr _ => true | _ => false end.

(** Strict equality of a value with a string constant. *)
Definition js_is_str (v : jsval) (s : string) : bool :=
  match v with JStr s' => String.eqb s' s | _ => false end.

(** ** Results of code that may throw *)

Inductive exn : Type :=
| TypeError (what : string).

Inductive result (A : Type) : Type :=
| Ok (a : A)
| Throw (e : exn).
Arguments Ok {A} a.
Arguments Throw {A} e.

(** ** Message sanitizer *)

Definition whitelist : list string :=
  ["clientSequenceNumber"; "contents"; "metadata";
   "referenceSequenceNumber"; "traces"; "type"].

(** The span pushed by trace sampling. *)
Definition trace_span (now : Z) : jsval :=
  JObj (<["action" := JStr "start"]>
        (<["service" := JStr "alfred"]>
         (<["timestamp" := JNum now]> ∅))).

(** [arr.push(x)]: defined on arrays; on any other truthy value decoded
    from the wire [push] is not a function and the call throws. *)
Definition js_push (arr x : jsval) : result jsval :=
  match arr with
  | JArr l => Ok (JArr (l ++ [x]))
  | _ => Throw (TypeError "message.operation.traces.push is not a function")
  end.

(** The first statement of [sanitizeMessage].  [rnd] is the value of
    [getRandomInt(100)], [now] the value of [Date.now()].  The result is
    the inbound message after the in-place update. *)
Definition traceSampling (rnd now : Z) (message : jsobj) : result jsobj :=
  let operation := js_get message "operation" in
  if truthy operation && truthy (prop operation "traces") && (rnd =? 0) then
    match js_push (prop operation "traces") (trace_span now) with
    | Throw e => Throw e
    | Ok traces' =>
        match operation with
        | JObj op =>
            Ok (<["operation" := JObj (<["traces" := traces']> op)]> message)
        | _ => Ok message
        end
    end
  else Ok message.

(** The object literal built by [sanitizeMessage]: six own properties,
    each read from the inbound message. *)
Definition sanitizedMessage (message : jsobj) : jsobj :=
  <["clientSequenceNumber" := js_get message "clientSequenceNumber"]>
  (<["contents" := js_get message "contents"]>
   (<["metadata" := js_get message "metadata"]>
    (<["referenceSequenceNumber" := js_get message "referenceSequenceNumber"]>
     (<["traces" := js_get message "traces"]>
      (<["type" := js_get message "type"]> ∅))))).

(** [sanitizeMessage]: the inbound message as left by trace sampling,
    and the sanitized message. *)
Definition sanitizeMessage (rnd now : Z) (message : jsobj)
  : result (jsobj * jsobj) :=
  match traceSampling rnd now message with
  | Throw e => Throw e
  | Ok message' => Ok (message', sanitizedMessage message')
  end.

(** ** Protocol-version negotiator *)

Definition protocolVersions : list string :=
  ["^0.4.0"; "^0.3.0"; "^0.2.0"; "^0.1.0"].

(** *** The semver package on caret ranges

    [semver.intersects] belongs to the npm package [semver], which is not
    part of the repository.  The negotiator below takes it as a parameter;
    [caret_intersects] is its behaviour on the fragment the server list is
    written in: caret ranges [^M.m.p] with plain decimal components, none
    of them, nor the incremented one, above [Number.MAX_SAFE_INTEGER].  On
    that fragment [^M.m.p] denotes the half-open interval from [M.m.p] to
    the next increment of the leftmost non-zero component, and two ranges
    intersect when the intervals overlap.  On every other string the
    instance throws.  That is the package's answer for a string that is
    not a range and for a component beyond [Number.MAX_SAFE_INTEGER]; it
    is not its answer for the ranges of other forms ([1.x], [>=1.2.3],
    ranges with spaces or a [v]), about which the instance says nothing:
    it is to be used on caret ranges only. *)

Definition MAX_SAFE_INTEGER : N := 9007199254740991.

Definition semver_version : Type := (N * N * N)%type.

Definition digit_of (c : ascii) : option N :=
  let n := N_of_ascii c in
  if ((48 <=? n) && (n <=? 57))%N then Some (n - 48)%N else None.

Fixpoint parse_digits (s : string) (acc : N) : option N :=
  match s with
  | EmptyString => Some acc
  | String c s' =>
      match digit_of c with
      | Some d => parse_digits s' (10 * acc + d)%N
      | None => None
      end
  end.

(** A numeric component: non-empty, digits only, no leading zero. *)
Definition parse_component (s : string) : option N :=
  match s with
  | EmptyString => None
  | String "0" (String _ _) => None
  | _ => parse_digits s 0%N
  end.

Fixpoint split_dots (s : string) (cur : string) : list string :=
  match s with
  | EmptyString => [cur]
  | String c s' =>
      if Ascii.eqb c "."%char then cur :: split_dots s' EmptyString
      else split_dots s' (cur ++ String c EmptyString)
  end.

Definition parse_caret (s : string) : option semver_version :=
  match s with
  | String "^" rest =>
      match split_dots rest EmptyString with
      | [a; b; c] =>
          match parse_component a, parse_component b, parse_component c with
          | Some ma, Some mi, Some pa => Some (ma, mi, pa)
          | _, _, _ => None
          end
      | _ => None
      end
  | _ => None
  end.

Definition caret_upper (v : semver_version) : semver_version :=
  let '(ma, mi, pa) := v in
  if (0 <? ma)%N then (ma + 1, 0, 0)%N
  else if (0 <? mi)%N then (0, mi + 1, 0)%N
  else (0, 0, pa + 1)%N.

Definition version_ltb (a b : semver_version) : bool :=
  let '(a1, a2, a3) := a in
  let '(b1, b2, b3) := b in
  ((a1 <? b1) || ((a1 =? b1) && ((a2 <? b2) || ((a2 =? b2) && (a3 <? b3)))))%N.

(** The components the package accepts in a version. *)
Definition safe_version (v : semver_version) : bool :=
  let '(ma, mi, pa) := v in
  ((ma <=? MAX_SAFE_INTEGER) && (mi <=? MAX_SAFE_INTEGER)
   && (pa <=? MAX_SAFE_INTEGER))%N.

Definition safe_caret (v : semver_version) : bool :=
  safe_version v && safe_version (caret_upper v).

Definition caret_intersects (r1 r2 : string) : result bool :=
  match parse_caret r1, parse_caret r2 with
  | Some a, Some b =>
      if safe_caret a && safe_caret b
      then Ok (version_ltb a (caret_upper b) && version_ltb b (caret_upper a))
      else Throw (TypeError "Invalid SemVer Range")
  | _, _ => Throw (TypeError "Invalid SemVer Range")
  end.

Section Negotiator.

(** [semver.intersects(protocolVersion, connectVersion)]. *)
Variable intersects : string -> string -> result bool.

(** The inner loop of [selectProtocolVersion] for one client range. *)
Fixpoint firstIntersecting (servers : list string) (connectVersion : string)
  : result (option string) :=
  match servers with
  | [] => Ok None
  | protocolVersion :: servers' =>
      match intersects protocolVersion connectVersion with
      | Throw e => Throw e
      | Ok true => Ok (Some protocolVersion)
      | Ok false => firstIntersecting servers' connectVersion
      end
  end.

(** [selectProtocolVersion]: the outer loop runs over the client's
    ranges; [Ok None] is [undefined]. *)
Fixpoint selectProtocolVersion (connectVersions : list string)
  : result (option string) :=
  match connectVersions with
  | [] => Ok None
  | connectVersion :: connectVersions' =>
      match firstIntersecting protocolVersions connectVersion with
      | Throw e => Throw e
      | Ok (Some protocolVersion) => Ok (Some protocolVersion)
      | Ok None => selectProtocolVersion connectVersions'
      end
  end.

(** [meets p c]: the call [intersects p c] returns [true]. *)
Definition meets (p c : string) : bool :=
  match intersects p c with Ok true => true | _ => false end.

(** The negotiation rule in the words of the specification: the first
    element of the server list that intersects any client range. *)
Definition firstServerMatchingAny (connectVersions : list string)
  : option string :=
  List.find (fun p => existsb (meets p) connectVersions) protocolVersions.

End Negotiator.

(** ** Data model *)

(** Modelled from the spec: the scope tokens of [ScopeType] (declared in
    the protocol-definitions package).  The
    specification names the three scopes [DocRead], [DocWrite] and
    [SummaryWrite]; the strings are the tokens of the wire contract. *)
Definition ScopeType_DocRead : string := "doc:read".
Definition ScopeType_DocWrite : string := "doc:write".
Definition ScopeType_SummaryWrite : string := "summary:write".

(** Modelled from the spec: the scope helpers [canWrite] and
    [canSummarize] of the services-client package: a scope list grants
    [DocWrite], respectively [SummaryWrite], when it contains it. *)
Definition canWrite (scopes : list string) : bool :=
  bool_decide (ScopeType_DocWrite ∈ scopes).
Definition canSummarize (scopes : list string) : bool :=
  bool_decide (ScopeType_SummaryWrite ∈ scopes).

(** Modelled from the spec: [MessageType.RoundTrip], the message type of
    the round-trip latency probe (protocol-definitions package). *)
Definition MessageType_RoundTrip : string := "tripComplete".

Definition summarizerClientType : string := "summarizer".

Record IRoom : Type := {
  room_tenantId : string;
  room_documentId : string;
}.

Definition getRoomId (room : IRoom) : string :=
  room_tenantId room ++ "/" ++ room_documentId room.

Definition getSocketConnectThrottleId (tenantId : string) : string :=
  tenantId ++ "_OpenSocketConn".

Definition getSubmitOpThrottleId (clientId tenantId : string) : string :=
  clientId ++ "_" ++ tenantId ++ "_SubmitOp".

(** Token claims, as returned by [validateTokenClaims]. *)
Record ITokenClaims : Type := {
  claims_documentId : string;
  claims_scopes : list string;
  claims_tenantId : string;
  claims_user : jsval;
  claims_iat : Z;
  claims_exp : Z;
}.

Record IServiceConfiguration : Type := {
  blockSize : Z;
  maxMessageSize : Z;
  summary : jsval;
}.

Record IOrdererConnection : Type := {
  conn_tenantId : string;
  conn_documentId : string;
  conn_maxMessageSize : Z;
  conn_serviceConfiguration : IServiceConfiguration;
}.

(** The [connect_document] request. [connect_token], [connect_client] and
    [connect_versions] are [None] when the property is absent. *)
Record IConnect : Type := {
  connect_tenantId : string;
  connect_id : string;
  connect_token : option string;
  connect_client : option jsobj;
  connect_versions : option (list string);
  connect_mode : string;
}.

Record IConnected : Type := {
  connected_claims : ITokenClaims;
  connected_clientId : string;
  connected_existing : bool;
  connected_maxMessageSize : Z;
  connected_mode : string;
  connected_serviceConfiguration : IServiceConfiguration;
  connected_initialClients : list jsval;
  connected_initialMessages : list jsval;
  connected_initialSignals : list jsval;
  connected_supportedVersions : list string;
  connected_version : string;
  connected_timestamp : Z;
}.

Record IConnectedClient : Type := {
  connection : IConnected;
  details : jsobj;
  connectVersions : list string;
}.

Record ThrottlingError : Type := {
  throttle_code : Z;
  throttle_message : string;
  throttle_retryAfter : Z;
}.

(** What a rejected [connectDocument] promise carries: an object with a
    code and a message (written in place, or a [NetworkError] or
    [ThrottlingError] of a collaborator), or an exception of another kind. *)
Inductive rejection : Type :=
| RejectWith (code : Z) (message : string) (retryAfter : option Z)
| RejectThrown (e : exn).

Inductive NackErrorType : Type :=
| ThrottlingErrorType
| InvalidScopeError
| BadRequestError.

(** Modelled from the spec: the nack built by [createNackMessage]
    (utils module), by its shape
    [{code, type, message, retryAfter?}]. *)
Record INack : Type := {
  nack_code : Z;
  nack_type : NackErrorType;
  nack_message : string;
  nack_retryAfter : option Z;
}.

Definition createNackMessage (code : Z) (type : NackErrorType)
    (message : string) (retryAfter : option Z) : INack :=
  {| nack_code := code; nack_type := type;
     nack_message := message; nack_retryAfter := retryAfter |}.

(** Modelled from the spec: the room signals built by
    [createRoomJoinMessage] and [createRoomLeaveMessage] (utils module):
    a join carries the clientId and the client descriptor, a leave the
    clientId. *)
Inductive payload : Type :=
| PConnected (c : IConnected)
| PConnectError (e : rejection)
| PNack (target : string) (nacks : list INack)
| PRoomJoin (clientId : string) (client : jsobj)
| PRoomLeave (clientId : string).

(** Calls made on the socket and on the collaborators. *)
Inductive effect : Type :=
| SocketJoin (channel : string)
| SocketEmit (event : string) (p : payload)
| SocketEmitToRoom (room : string) (event : string) (p : payload)
| SocketDisconnect
| AddClient (tenantId documentId clientId : string) (client : jsobj)
| RemoveClient (tenantId documentId clientId : string)
| OrdererConnect (tenantId documentId clientId : string) (client : jsobj)
| ConnectionConnect (clientId : string)
| ConnectionDisconnect (clientId : string)
| ConnectionOrder (clientId : string) (messages : list jsobj)
| WriteLatencyMetric (name : string) (traces : jsval).

(** ** Per-socket state *)

(** The three maps and the variable [expirationTimer] of the connection
    handler, together with the timers of the runtime that the handlers of
    this socket have created.  A timer is named by its handle, the number
    of timers created before it on the socket: the handle stands for
    the [Timeout] object that [setTimeout] returns.
    - [expirationTimer] is [None] when the variable is undefined, and
      [Some handle] when it holds a timer, armed or not.
    - [timers] has the armed timers: [timers !! handle = Some t] when the
      timer [handle] is due to fire at time [t] (milliseconds); a timer
      that was cleared or that has fired is not in it.
    - [timersCreated] counts the calls to [setTimeout]. *)
Record socket_state : Type := {
  connectionsMap : gmap string IOrdererConnection;
  roomMap : gmap string IRoom;
  scopeMap : gmap string (list string);
  expirationTimer : option nat;
  timers : gmap nat Z;
  timersCreated : nat;
}.

Definition initial_state : socket_state :=
  {| connectionsMap := ∅; roomMap := ∅; scopeMap := ∅;
     expirationTimer := None; timers := ∅; timersCreated := 0 |}.

Definition set_connectionsMap (clientId : string) (c : IOrdererConnection)
    (st : socket_state) : socket_state :=
  {| connectionsMap := <[clientId := c]> (connectionsMap st);
     roomMap := roomMap st; scopeMap := scopeMap st;
     expirationTimer := expirationTimer st;
     timers := timers st; timersCreated := timersCreated st |}.

Definition set_roomMap (clientId : string) (room : IRoom)
    (st : socket_state) : socket_state :=
  {| connectionsMap := connectionsMap st;
     roomMap := <[clientId := room]> (roomMap st); scopeMap := scopeMap st;
     expirationTimer := expirationTimer st;
     timers := timers st; timersCreated := timersCreated st |}.

Definition set_scopeMap (clientId : string) (scopes : list string)
    (st : socket_state) : socket_state :=
  {| connectionsMap := connectionsMap st; roomMap := roomMap st;
     scopeMap := <[clientId := scopes]> (scopeMap st);
     expirationTimer := expirationTimer st;
     timers := timers st; timersCreated := timersCreated st |}.

Definition set_expirationTimer (timer : option nat)
    (st : socket_state) : socket_state :=
  {| connectionsMap := connectionsMap st; roomMap := roomMap st;
     scopeMap := scopeMap st; expirationTimer := timer;
     timers := timers st; timersCreated := timersCreated st |}.

(** *** The timers of the runtime

    [setTimeout] and [clearTimeout] belong to Node.js, not to the
    repository.  A delay that is not between 1 and [TIMEOUT_MAX]
    (2^31 - 1) milliseconds is replaced by 1 millisecond; delays are
    whole numbers of milliseconds here. *)

Definition TIMEOUT_MAX : Z := 2147483647.

Definition setTimeout_delay (after : Z) : Z :=
  if (1 <=? after) && (after <=? TIMEOUT_MAX) then after else 1.

(** [setTimeout(callback, after)] at time [now]: a new timer is armed; its
    handle is returned. *)
Definition setTimeout (now after : Z) (st : socket_state)
  : nat * socket_state :=
  (timersCreated st,
   {| connectionsMap := connectionsMap st; roomMap := roomMap st;
      scopeMap := scopeMap st; expirationTimer := expirationTimer st;
      timers := <[timersCreated st := now + setTimeout_delay after]> (timers st);
      timersCreated := S (timersCreated st) |}).

(** [clearTimeout(handle)]: the timer is disarmed; nothing happens when it
    has fired or was cleared before. *)
Definition clearTimeout (handle : nat) (st : socket_state) : socket_state :=
  {| connectionsMap := connectionsMap st; roomMap := roomMap st;
     scopeMap := scopeMap st; expirationTimer := expirationTimer st;
     timers := delete handle (timers st);
     timersCreated := timersCreated st |}.

Definition clearExpirationTimer (st : socket_state) : socket_state :=
  match expirationTimer st with
  | Some handle => set_expirationTimer None (clearTimeout handle st)
  | None => st
  end.

(** [setExpirationTimer], called at time [now]. *)
Definition setExpirationTimer (now mSecUntilExpiration : Z)
    (st : socket_state) : socket_state :=
  let '(handle, st') :=
    setTimeout now mSecUntilExpiration (clearExpirationTimer st) in
  set_expirationTimer (Some handle) st'.

Arguments clearExpirationTimer : simpl never.
Arguments setExpirationTimer : simpl never.

(** ** Configuration and collaborators *)

Record config : Type := {
  maxNumberOfClientsPerDocument : Z;
  maxTokenLifetimeSec : Z;
  isTokenExpiryEnabled : bool;
  DefaultServiceConfiguration : IServiceConfiguration;
}.

(** Outcome of [throttler.incrementCount(id)]: it returns, throws a
    [ThrottlingError], or throws something else. *)
Inductive incr_outcome : Type :=
| IncrOk
| IncrThrottled (e : ThrottlingError)
| IncrFault (error : jsval).

Definition IThrottler : Type := string -> incr_outcome.

(** The error thrown by [tenantManager.verifyToken]: what
    [err?.response?.status] and [err?.response?.data] read. *)
Record verify_failure : Type := {
  response_status : option Z;
  response_data : option string;
}.

Record IOrderer : Type := {
  orderer_connect : string -> jsobj -> option IOrdererConnection;
}.

(** Answers of the collaborators during one [connect_document] event.
    [None] and [false] stand for a rejected promise. *)
Record connect_env : Type := {
  connectThrottler : option IThrottler;
  validateTokenClaims : string -> string -> string -> rejection + ITokenClaims;
  verifyToken : string -> string -> option verify_failure;
  generateClientId : string;
  socket_join : string -> bool;
  Date_now : Z;
  getClients : string -> string -> option (list jsval);
  addClient : string -> string -> string -> jsobj -> bool;
  expiry_now : Z;
  validateTokenClaimsExpiration : ITokenClaims -> Z -> Z -> rejection + Z;
  getOrderer : string -> string -> option IOrderer;
}.

(** Modelled from the spec: [validateTokenClaimsExpiration] of the token
    library (services-client package): the token's expiration must lie
    within [maxTokenLifetimeSec] of its issuance, and the result is the
    remaining lifetime in milliseconds at time [now]; an over-long or an
    expired token is refused.  A token whose expiration or issuance time
    is missing or zero is refused as over-long tokens are: claims without
    these times read as 0 here. *)
Definition tokenlib_validateTokenClaimsExpiration
    (claims : ITokenClaims) (maxTokenLifetimeSec now : Z) : rejection + Z :=
  if (claims_exp claims =? 0) || (claims_iat claims =? 0)
     || (maxTokenLifetimeSec <? claims_exp claims - claims_iat claims)
  then inl (RejectWith 403 "Invalid token expiry" None)
  else
    let lifeTimeMSec := claims_exp claims * 1000 - now in
    if lifeTimeMSec <? 0 then inl (RejectWith 401 "Expired token" None)
    else inr lifeTimeMSec.

(** [checkThrottle]: a [ThrottlingError] when the limiter reports that the
    limit is exceeded, nothing when there is no limiter, when the
    increment succeeds, or when the limiter itself fails. *)
Definition checkThrottle (throttler : option IThrottler) (throttleId : string)
  : option ThrottlingError :=
  match throttler with
  | None => None
  | Some t =>
      match t throttleId with
      | IncrThrottled e => Some e
      | IncrOk | IncrFault _ => None
      end
  end.

Definition hasWriteAccess (scopes : list string) : bool :=
  canWrite scopes || canSummarize scopes.

Definition isWriter (scopes : list string) (mode : string) : bool :=
  if hasWriteAccess scopes then String.eqb mode "write" else false.

(** ** The connect pipeline *)

(** The step of [connectDocument] at which a request is rejected.  The tag
    is bookkeeping of the model: the socket only sees the rejection. *)
Inductive connect_stage : Type :=
| AtThrottle
| AtTokenPresence
| AtTokenValidation
| AtTenantVerification
| AtRoomJoin
| AtProtocolNegotiation
| AtClientList
| AtQuota
| AtRegistryAdd
| AtExpiration
| AtOrdererAttach.

(** A computation of the pipeline: it reads and writes the socket state,
    performs effects, and either rejects or returns.  The state and the
    effects of a rejected computation are kept. *)
Definition connectM (A : Type) : Type :=
  socket_state -> socket_state * list effect * (connect_stage * rejection + A).

#[global] Instance connectM_ret : MRet connectM :=
  fun A a st => (st, [], inr a).

#[global] Instance connectM_bind : MBind connectM :=
  fun A B f m st =>
    match m st with
    | (st', effs, inl e) => (st', effs, inl e)
    | (st', effs, inr a) =>
        match f a st' with
        | (st'', effs', r) => (st'', (effs ++ effs')%list, r)
        end
    end.

Definition reject {A : Type} (stage : connect_stage) (e : rejection)
  : connectM A :=
  fun st => (st, [], inl (stage, e)).

Definition perform (e : effect) : connectM unit :=
  fun st => (st, [e], inr tt).

Definition modify (f : socket_state -> socket_state) : connectM unit :=
  fun st => (f st, [], inr tt).

(** [handleServerError]: the rejection of an internal fault. *)
Definition handleServerError {A : Type} (stage : connect_stage) : connectM A :=
  reject stage (RejectWith 500 "Failed to connect client to document." None).

Definition reject_throttled (e : ThrottlingError) : rejection :=
  RejectWith (throttle_code e) (throttle_message e)
             (Some (throttle_retryAfter e)).

(** [v?.k] *)
Definition opt_prop (v : jsval) (k : string) : jsval :=
  match v with
  | JUndefined | JNull => JUndefined
  | _ => prop v k
  end.

Definition double_quote : string := String (ascii_of_nat 34) EmptyString.

(** A digit of the lowercase hexadecimal notation. *)
Definition hex_digit (n : N) : ascii :=
  if (n <? 10)%N then ascii_of_N (48 + n) else ascii_of_N (87 + n).

(** What [JSON.stringify] writes for one character of a string: the
    double quote and the backslash are escaped by a backslash; backspace,
    tab, line feed, form feed and carriage return are written in their
    short forms; every other character below U+0020 is written as
    [\u00XX]; every other character is copied.  Strings are carried in
    UTF-8 here, so a character beyond U+007F is a sequence of bytes, each
    copied; a string with an unpaired surrogate has no such form. *)
Definition json_escape_char (c : ascii) : string :=
  let n := N_of_ascii c in
  if (n =? 34)%N then String (ascii_of_nat 92) double_quote
  else if (n =? 92)%N then String (ascii_of_nat 92) (String (ascii_of_nat 92) EmptyString)
  else if (n =? 8)%N then String (ascii_of_nat 92) "b"
  else if (n =? 9)%N then String (ascii_of_nat 92) "t"
  else if (n =? 10)%N then String (ascii_of_nat 92) "n"
  else if (n =? 12)%N then String (ascii_of_nat 92) "f"
  else if (n =? 13)%N then String (ascii_of_nat 92) "r"
  else if (n <? 32)%N
  then String (ascii_of_nat 92)
         ("u00" ++ String (hex_digit (n / 16))
                     (String (hex_digit (n mod 16)) EmptyString))
  else String c EmptyString.

Fixpoint json_escape (s : string) : string :=
  match s with
  | EmptyString => EmptyString
  | String c s' => json_escape_char c ++ json_escape s'
  end.

(** [JSON.stringify] of an array of strings. *)
Definition JSON_stringify (l : list string) : string :=
  "[" ++ String.concat "," ((fun s => double_quote ++ json_escape s ++ double_quote) <$> l) ++ "]".

(** The client descriptor of the request: [message.client ? message.client : {}]. *)
Definition requestClient (message : IConnect) : jsobj :=
  default ∅ (connect_client message).

(** [messageClient.details?.type === summarizerClientType] *)
Definition isSummarizer (messageClient : jsobj) : bool :=
  js_is_str (opt_prop (js_get messageClient "details") "type")
            summarizerClientType.

(** The value given to [messageClient.scopes]: the scopes of the claims,
    without [SummaryWrite] for clients that are not summarizers. *)
Definition clientScopes (claims : ITokenClaims) (messageClient : jsobj)
  : list string :=
  if isSummarizer messageClient then claims_scopes claims
  else filter (fun scope => scope ≠ ScopeType_SummaryWrite)
              (claims_scopes claims).

(** [messageClient] after the assignments to [user], [scopes] and
    [timestamp]. *)
Definition stampClient (claims : ITokenClaims) (connectedTimestamp : Z)
    (messageClient : jsobj) : jsobj :=
  <["timestamp" := JNum connectedTimestamp]>
  (<["scopes" := JArr (JStr <$> clientScopes claims messageClient)]>
   (<["user" := claims_user claims]> messageClient)).

(** [message.versions ? message.versions : ["^0.1.0"]]: an array, empty
    or not, is truthy. *)
Definition requestVersions (message : IConnect) : list string :=
  match connect_versions message with
  | Some versions => versions
  | None => ["^0.1.0"]
  end.

Definition claimsRoom (claims : ITokenClaims) : IRoom :=
  {| room_tenantId := claims_tenantId claims;
     room_documentId := claims_documentId claims |}.

Section Connect.

Variable intersects : string -> string -> result bool.
Variable cfg : config.
Variable env : connect_env.

Definition connectDocument (message : IConnect) : connectM IConnectedClient :=
  let throttleError :=
    checkThrottle (connectThrottler env)
                  (getSocketConnectThrottleId (connect_tenantId message)) in
  _ ← match throttleError with
      | Some e => reject AtThrottle (reject_throttled e)
      | None => mret tt
      end;
  token ← match connect_token message with
          | Some token =>
              if String.eqb token EmptyString
              then reject AtTokenPresence
                     (RejectWith 403 "Must provide an authorization token" None)
              else mret token
          | None =>
              reject AtTokenPresence
                (RejectWith 403 "Must provide an authorization token" None)
          end;
  (* Validate token signature and claims *)
  claims ← match validateTokenClaims env token (connect_id message)
                                     (connect_tenantId message) with
           | inl e => reject AtTokenValidation e
           | inr claims => mret claims
           end;
  _ ← match verifyToken env (claims_tenantId claims) token with
      | Some err =>
          reject AtTenantVerification
            (RejectWith (default 401 (response_status err))
                        (default "Invalid token" (response_data err)) None)
      | None => mret tt
      end;
  let clientId := generateClientId env in
  let room := claimsRoom claims in
  (* Subscribe to channels. *)
  _ ← perform (SocketJoin (getRoomId room));
  _ ← perform (SocketJoin ("client#" ++ clientId));
  _ ← (if socket_join env (getRoomId room)
          && socket_join env ("client#" ++ clientId)
       then mret tt else handleServerError AtRoomJoin);
  let connectedTimestamp := Date_now env in
  (* Do not give SummaryWrite scope to clients that are not summarizers *)
  let scopes := clientScopes claims (requestClient message) in
  let messageClient :=
    stampClient claims connectedTimestamp (requestClient message) in
  (* Cache the scopes. *)
  _ ← modify (set_scopeMap clientId scopes);
  (* Join the room to receive signals. *)
  _ ← modify (set_roomMap clientId room);
  let connectVersions := requestVersions message in
  version ← match selectProtocolVersion intersects connectVersions with
            | Throw e => reject AtProtocolNegotiation (RejectThrown e)
            | Ok None =>
                reject AtProtocolNegotiation
                  (RejectWith 400
                     ("Unsupported client protocol. " ++
                      "Server: " ++ String.concat "," protocolVersions ++ ". " ++
                      "Client: " ++ JSON_stringify connectVersions) None)
            | Ok (Some version) => mret version
            end;
  clients ← match getClients env (claims_tenantId claims)
                             (claims_documentId claims) with
            | None => handleServerError AtClientList
            | Some clients => mret clients
            end;
  _ ← (if maxNumberOfClientsPerDocument cfg <? Z.of_nat (List.length clients)
       then reject AtQuota
              (RejectWith 429 "Too Many Clients Connected to Document"
                          (Some (5 * 60)))
       else mret tt);
  _ ← perform (AddClient (claims_tenantId claims) (claims_documentId claims)
                         clientId messageClient);
  _ ← (if addClient env (claims_tenantId claims) (claims_documentId claims)
                    clientId messageClient
       then mret tt else handleServerError AtRegistryAdd);
  _ ← (if isTokenExpiryEnabled cfg then
         match validateTokenClaimsExpiration env claims
                 (maxTokenLifetimeSec cfg) (expiry_now env) with
         | inl e => reject AtExpiration e
         | inr lifeTimeMSec =>
             modify (setExpirationTimer (expiry_now env) lifeTimeMSec)
         end
       else mret tt);
  connectedMessage ←
    (if isWriter scopes (connect_mode message) then
       orderer ← match getOrderer env (claims_tenantId claims)
                                  (claims_documentId claims) with
                 | None => handleServerError AtOrdererAttach
                 | Some orderer => mret orderer
                 end;
       _ ← perform (OrdererConnect (claims_tenantId claims)
                      (claims_documentId claims) clientId messageClient);
       connection ← match orderer_connect orderer clientId messageClient with
                    | None => handleServerError AtOrdererAttach
                    | Some connection => mret connection
                    end;
       _ ← perform (ConnectionConnect clientId);
       _ ← modify (set_connectionsMap clientId connection);
       mret {| connected_claims := claims;
               connected_clientId := clientId;
               connected_existing := true;
               connected_maxMessageSize := conn_maxMessageSize connection;
               connected_mode := "write";
               connected_serviceConfiguration :=
                 {| blockSize := blockSize (conn_serviceConfiguration connection);
                    maxMessageSize := maxMessageSize (conn_serviceConfiguration connection);
                    summary := summary (conn_serviceConfiguration connection) |};
               connected_initialClients := clients;
               connected_initialMessages := [];
               connected_initialSignals := [];
               connected_supportedVersions := protocolVersions;
               connected_version := version;
               connected_timestamp := connectedTimestamp |}
     else
       mret {| connected_claims := claims;
               connected_clientId := clientId;
               connected_existing := true;
               connected_maxMessageSize := 1024;
               connected_mode := "read";
               connected_serviceConfiguration :=
                 {| blockSize := blockSize (DefaultServiceConfiguration cfg);
                    maxMessageSize := maxMessageSize (DefaultServiceConfiguration cfg);
                    summary := summary (DefaultServiceConfiguration cfg) |};
               connected_initialClients := clients;
               connected_initialMessages := [];
               connected_initialSignals := [];
               connected_supportedVersions := protocolVersions;
               connected_version := version;
               connected_timestamp := connectedTimestamp |});
  mret {| connection := connectedMessage;
          connectVersions := connectVersions;
          details := messageClient |}.

(** The [connect_document] handler: run the pipeline, then answer on the
    socket. *)
Definition on_connect_document (connectionMessage : IConnect)
    (st : socket_state) : socket_state * list effect :=
  match connectDocument connectionMessage st with
  | (st', effs, inr message) =>
      (st',
       (effs
        ++ [SocketEmit "connect_document_success"
                       (PConnected (connection message))]
        ++ match roomMap st' !! connected_clientId (connection message) with
           | Some room =>
               [SocketEmitToRoom (getRoomId room) "signal"
                  (PRoomJoin (connected_clientId (connection message))
                             (details message))]
           | None => []
           end)%list)
  | (st', effs, inl (_, error)) =>
      (st',
       (effs ++ [SocketEmit "connect_document_error" (PConnectError error)])%list)
  end.

End Connect.

(** ** The submitOp handler *)

(** An element of [messageBatches]: one message or an array of them. *)
Inductive messageBatch : Type :=
| Single (message : jsobj)
| Several (messages : list jsobj).

(** [Array.isArray(messageBatch) ? messageBatch : [messageBatch]] *)
Definition batch_messages (b : messageBatch) : list jsobj :=
  match b with
  | Single message => [message]
  | Several messages => messages
  end.

(** Answers of the collaborators during one [submitOp] event.  The random
    draw and the clock reading are given per batch and per position among
    the messages of the batch that survive the filter. *)
Record submit_env : Type := {
  submitOpThrottler : option IThrottler;
  getRandomInt : nat -> nat -> Z;
  op_now : nat -> nat -> Z;
}.

Definition isRoundTrip (message : jsobj) : bool :=
  js_is_str (js_get message "type") MessageType_RoundTrip.

(** The callback of [messages.filter]: the calls it makes to the metric
    sink, and the messages it keeps. *)
Fixpoint filterRoundTrip (messages : list jsobj) : list effect * list jsobj :=
  match messages with
  | [] => ([], [])
  | message :: rest =>
      let '(effs, kept) := filterRoundTrip rest in
      if isRoundTrip message then
        if truthy (js_get message "traces") then
          (WriteLatencyMetric "latency" (js_get message "traces") :: effs, kept)
        else (effs, kept)
      else (effs, message :: kept)
  end.

Section SubmitOp.

Variable env : submit_env.

(** [.map((message) => sanitizeMessage(message))] on the kept messages
    of batch [i], from position [j] on. *)
Fixpoint sanitizeAll (i j : nat) (messages : list jsobj)
  : result (list jsobj) :=
  match messages with
  | [] => Ok []
  | message :: rest =>
      match sanitizeMessage (getRandomInt env i j) (op_now env i j) message with
      | Throw e => Throw e
      | Ok (_, sanitized) =>
          match sanitizeAll i (S j) rest with
          | Throw e => Throw e
          | Ok l => Ok (sanitized :: l)
          end
      end
  end.

(** The body of [messageBatches.forEach] for batch [i]. *)
Definition orderBatch (clientId : string) (i : nat) (b : messageBatch)
  : list effect * result unit :=
  let '(metrics, kept) := filterRoundTrip (batch_messages b) in
  match sanitizeAll i 0 kept with
  | Throw e => (metrics, Throw e)
  | Ok sanitized =>
      if (0 <? List.length sanitized)%nat
      then ((metrics ++ [ConnectionOrder clientId sanitized])%list, Ok tt)
      else (metrics, Ok tt)
  end.

(** [messageBatches.forEach]: an exception ends the loop. *)
Fixpoint orderBatches (clientId : string) (i : nat)
    (messageBatches : list messageBatch) : list effect * result unit :=
  match messageBatches with
  | [] => ([], Ok tt)
  | b :: rest =>
      match orderBatch clientId i b with
      | (effs, Throw e) => (effs, Throw e)
      | (effs, Ok _) =>
          let '(effs', r) := orderBatches clientId (S i) rest in
          ((effs ++ effs')%list, r)
      end
  end.

(** The [submitOp] handler.  It does not write the socket state. *)
Definition submitOp (clientId : string) (messageBatches : list messageBatch)
    (st : socket_state) : list effect * result unit :=
  (* Verify the user has an orderer connection. *)
  match connectionsMap st !! clientId with
  | None =>
      let nackMessage :=
        if match scopeMap st !! clientId with
           | Some clientScope => hasWriteAccess clientScope
           | None => false
           end
        then createNackMessage 400 BadRequestError "Readonly client" None
        else if bool_decide (is_Some (roomMap st !! clientId))
        then createNackMessage 403 InvalidScopeError "Invalid scope" None
        else createNackMessage 400 BadRequestError "Nonexistent client" None in
      ([SocketEmit "nack" (PNack EmptyString [nackMessage])], Ok tt)
  | Some connection =>
      match checkThrottle (submitOpThrottler env)
              (getSubmitOpThrottleId clientId (conn_tenantId connection)) with
      | Some throttleError =>
          ([SocketEmit "nack"
              (PNack EmptyString
                 [createNackMessage (throttle_code throttleError)
                    ThrottlingErrorType (throttle_message throttleError)
                    (Some (throttle_retryAfter throttleError))])],
           Ok tt)
      | None => orderBatches clientId 0 messageBatches
      end
  end.

End SubmitOp.

(** ** Events of a socket *)

(** The events of the model: [connect_document] and [submitOp], each with
    the answers of the collaborators during the event. *)
Inductive socket_event : Type :=
| OnConnectDocument (env : connect_env) (message : IConnect)
| OnSubmitOp (env : submit_env) (clientId : string)
             (messageBatches : list messageBatch).

Definition dispatch (intersects : string -> string -> result bool)
    (cfg : config) (ev : socket_event) (st : socket_state)
  : socket_state * list effect :=
  match ev with
  | OnConnectDocument env message =>
      on_connect_document intersects cfg env message st
  | OnSubmitOp env clientId messageBatches =>
      (st, fst (submitOp env clientId messageBatches st))
  end.

(** The states a socket goes through: the state at [connection], and the
    state after each event. *)
Inductive reachable (intersects : string -> string -> result bool)
    (cfg : config) : socket_state -> Prop :=
| reachable_initial : reachable intersects cfg initial_state
| reachable_dispatch (ev : socket_event) (st : socket_state) :
    reachable intersects cfg st ->
    reachable intersects cfg (fst (dispatch intersects cfg ev st)).

(** ** The handlers of signals, presence and disconnect *)

(** What these handlers send to a room. *)
Inductive broadcast : Type :=
| BSignal (clientId : string) (content : jsval)
| BPong (clientId : string)
| BConnectedClients (clients : list jsval).

(** Calls made by these handlers: the calls of [effect], and the room
    broadcasts of a signal, a pong or a client list. *)
Inductive room_effect : Type :=
| Direct (e : effect)
| EmitToRoom (room : string) (event : string) (b : broadcast).

(** The nack of the handlers below for a clientId that is not in
    [roomMap]. *)
Definition nonexistentClient : room_effect :=
  Direct (SocketEmit "nack"
            (PNack EmptyString
               [createNackMessage 400 BadRequestError "Nonexistent client" None])).

(** [Array.isArray(contentBatche) ? contentBatche : [contentBatche]] *)
Definition batch_contents (contentBatche : jsval) : list jsval :=
  match contentBatche with
  | JArr contents => contents
  | _ => [contentBatche]
  end.

(** The loop [for (const content of contents)] of [submitSignal]. *)
Fixpoint signalContents (clientId : string) (room : IRoom)
    (contents : list jsval) : list room_effect :=
  match contents with
  | [] => []
  | content :: rest =>
      EmitToRoom (getRoomId room) "signal" (BSignal clientId content)
      :: signalContents clientId room rest
  end.

(** [contentBatches.forEach] of [submitSignal]. *)
Fixpoint signalBatches (clientId : string) (room : IRoom)
    (contentBatches : list jsval) : list room_effect :=
  match contentBatches with
  | [] => []
  | contentBatche :: rest =>
      (signalContents clientId room (batch_contents contentBatche)
       ++ signalBatches clientId room rest)%list
  end.

(** The [submitSignal] handler. *)
Definition submitSignal (clientId : string) (contentBatches : list jsval)
    (st : socket_state) : list room_effect :=
  (* Verify the user has subscription to the room. *)
  match roomMap st !! clientId with
  | None => [nonexistentClient]
  | Some room => signalBatches clientId room contentBatches
  end.

(** The [get_clients] handler.  [getClients] answers
    [clientManager.getClients]; when it fails the promise is rejected and,
    the handler having no rejection callback, nothing is sent. *)
Definition get_clients (getClients : string -> string -> option (list jsval))
    (clientId : string) (st : socket_state) : list room_effect :=
  match roomMap st !! clientId with
  | None => [nonexistentClient]
  | Some room =>
      match getClients (room_tenantId room) (room_documentId room) with
      | Some clients =>
          [EmitToRoom (getRoomId room) "connected_clients"
                      (BConnectedClients clients)]
      | None => []
      end
  end.

(** The [ping] handler. *)
Definition ping (clientId : string) (st : socket_state) : list room_effect :=
  match roomMap st !! clientId with
  | None => [nonexistentClient]
  | Some room => [EmitToRoom (getRoomId room) "pong" (BPong clientId)]
  end.

(** The first loop of the [disconnect] handler, over the entries of
    [connectionsMap]. *)
Fixpoint disconnectConnections (connections : list (string * IOrdererConnection))
  : list effect :=
  match connections with
  | [] => []
  | (clientId, _) :: rest =>
      ConnectionDisconnect clientId :: disconnectConnections rest
  end.

(** The second loop of the [disconnect] handler, over the entries of
    [roomMap]. *)
Fixpoint leaveRooms (rooms : list (string * IRoom)) : list effect :=
  match rooms with
  | [] => []
  | (clientId, room) :: rest =>
      RemoveClient (room_tenantId room) (room_documentId room) clientId
      :: SocketEmitToRoom (getRoomId room) "signal" (PRoomLeave clientId)
      :: leaveRooms rest
  end.

(** The [disconnect] handler.  A JavaScript [Map] is iterated in the order
    in which its keys were first inserted, which the maps of
    [socket_state] do not record: the handler is given the two
    enumerations, [connections] of [connectionsMap] and [rooms] of
    [roomMap] (see [enumerates]). *)
Definition on_disconnect (connections : list (string * IOrdererConnection))
    (rooms : list (string * IRoom)) (st : socket_state)
  : socket_state * list effect :=
  (clearExpirationTimer st,
   (disconnectConnections connections ++ leaveRooms rooms)%list).

(** [entries] lists the entries of the map [m], each once, in some
    order. *)
Definition enumerates {V : Type} (entries : list (string * V))
    (m : gmap string V) : Prop :=
  entries ≡ₚ map_to_list m.

(** The listener installed on the orderer connection by [connectDocument]:
    on ["error"] the timer is cleared and the socket disconnected. *)
Definition on_connection_error (st : socket_state)
  : socket_state * list effect :=
  (clearExpirationTimer st, [SocketDisconnect]).

(** The timer [handle] is due: when it is armed it fires, and its
    callback, the one given to [setTimeout] by [setExpirationTimer],
    disconnects the socket.  The variable [expirationTimer] is left as it
    is. *)
Definition on_expiration (handle : nat) (st : socket_state)
  : socket_state * list effect :=
  match timers st !! handle with
  | Some _ => (clearTimeout handle st, [SocketDisconnect])
  | None => (st, [])
  end.

(** ** The life of a socket *)

(** The events of a socket before its [disconnect].  The error of an
    orderer connection is an event of every state here, also of states in
    which no listener is installed, and a timer may fire at any moment
    while it is armed: [alive] has the runs of the code and more. *)
Inductive lifetime_event : Type :=
| EvConnectDocument (env : connect_env) (message : IConnect)
| EvSubmitOp (env : submit_env) (clientId : string)
             (messageBatches : list messageBatch)
| EvSubmitSignal (clientId : string) (contentBatches : list jsval)
| EvGetClients (getClients : string -> string -> option (list jsval))
               (clientId : string)
| EvPing (clientId : string)
| EvConnectionError
| EvExpiration (handle : nat).

(** The state after an event. *)
Definition after_event (intersects : string -> string -> result bool)
    (cfg : config) (ev : lifetime_event) (st : socket_state) : socket_state :=
  match ev with
  | EvConnectDocument env message =>
      fst (on_connect_document intersects cfg env message st)
  | EvConnectionError => fst (on_connection_error st)
  | EvExpiration handle => fst (on_expiration handle st)
  | EvSubmitOp _ _ _ | EvSubmitSignal _ _ | EvGetClients _ _ | EvPing _ => st
  end.

Inductive alive (intersects : string -> string -> result bool)
    (cfg : config) : socket_state -> Prop :=
| alive_initial : alive intersects cfg initial_state
| alive_after (ev : lifetime_event) (st : socket_state) :
    alive intersects cfg st ->
    alive intersects cfg (after_event intersects cfg ev st).

(** The collaborators of a connect event without the connect limiter. *)
Definition without_connectThrottler (env : connect_env) : connect_env :=
  {| connectThrottler := None;
     validateTokenClaims := validateTokenClaims env;
     verifyToken := verifyToken env;
     generateClientId := generateClientId env;
     socket_join := socket_join env;
     Date_now := Date_now env;
     getClients := getClients env;
     addClient := addClient env;
     expiry_now := expiry_now env;
     validateTokenClaimsExpiration := validateTokenClaimsExpiration env;
     getOrderer := getOrderer env |}.

(** The collaborators of a [submitOp] event without the limiter. *)
Definition without_submitOpThrottler (env : submit_env) : submit_env :=
  {| submitOpThrottler := None;
     getRandomInt := getRandomInt env;
     op_now := op_now env |}.

(** The timer is re-armed by a run rejected at this step. *)
Definition rearms_timer (cfg : config) (stage : connect_stage) : bool :=
  match stage with
  | AtOrdererAttach => isTokenExpiryEnabled cfg
  | _ => false
  end.

(** The state after a sequence of events. *)
Fixpoint after_events (intersects : string -> string -> result bool)
    (cfg : config) (evs : list lifetime_event) (st : socket_state)
  : socket_state :=
  match evs with
  | [] => st
  | ev :: rest =>
      after_events intersects cfg rest (after_event intersects cfg ev st)
  end.

(** The event does not mint [clientId]. *)
Definition mints_other (clientId : string) (ev : lifetime_event) : Prop :=
  match ev with
  | EvConnectDocument env _ => generateClientId env ≠ clientId
  | _ => True
  end.

(** What the handlers rely on: a client with an orderer connection is a
    room member, [roomMap] and [scopeMap] have the same keys, and no timer
    is armed on a server without token expiry. *)
Definition socket_invariant (cfg : config) (st : socket_state) : Prop :=
  dom (connectionsMap st) ⊆ dom (roomMap st)
  ∧ dom (roomMap st) = dom (scopeMap st)
  ∧ (isTokenExpiryEnabled cfg = false → expirationTimer st = None).

(** The nack [Nonexistent client] as [submitOp] sends it. *)
Definition nonexistentClientNack : effect :=
  SocketEmit "nack"
    (PNack EmptyString
       [createNackMessage 400 BadRequestError "Nonexistent client" None]).

(** Steps after the writes to [scopeMap] and [roomMap] and before the
    call to [clientManager.addClient]. *)
Definition member_not_registered (stage : connect_stage) : bool :=
  match stage with
  | AtProtocolNegotiation | AtClientList | AtQuota => true
  | _ => false
  end.

(** At most one timer is armed on the socket, the one that the variable
    [expirationTimer] holds, and the variable holds a timer that was
    created. *)
Definition single_timer (st : socket_state) : Prop :=
  (∀ handle t, timers st !! handle = Some t → expirationTimer st = Some handle)
  ∧ (∀ handle, expirationTimer st = Some handle →
               (handle < timersCreated st)%nat).

(** No [/] in a string. *)
Fixpoint slash_free (s : string) : bool :=
  match s with
  | EmptyString => true
  | String c s' => negb (Ascii.eqb c "/"%char) && slash_free s'
  end.

Definition is_remove (x : effect) : bool :=
  match x with RemoveClient _ _ _ => true | _ => false end.

Definition is_leave (x : effect) : bool :=
  match x with SocketEmitToRoom _ _ (PRoomLeave _) => true | _ => false end.

Definition is_connection_disconnect (x : effect) : bool :=
  match x with ConnectionDisconnect _ => true | _ => false end.

(** Internal faults of the connect pipeline. *)
Definition internal_fault (stage : connect_stage) : bool :=
  match stage with
  | AtRoomJoin | AtClientList | AtRegistryAdd | AtOrdererAttach => true
  | _ => false
  end.

(** The calls of an accepted write connection, in the order in which
    [connectDocument] makes them. *)
Definition writerCalls (claims : ITokenClaims) (clientId : string)
    (messageClient : jsobj) : list effect :=
  [SocketJoin (getRoomId (claimsRoom claims));
   SocketJoin ("client#" ++ clientId);
   AddClient (claims_tenantId claims) (claims_documentId claims)
             clientId messageClient;
   OrdererConnect (claims_tenantId claims) (claims_documentId claims)
                  clientId messageClient;
   ConnectionConnect clientId].

(** Steps that precede the first call on the socket: up to the
    verification of the token by the tenant manager. *)
Definition before_token_verified (stage : connect_stage) : bool :=
  match stage with
  | AtThrottle | AtTokenPresence | AtTokenValidation
  | AtTenantVerification => true
  | _ => false
  end.

(** ** Sample configuration, collaborators and requests

    Concrete values on which the statements below are evaluated. *)

Definition sample_serviceConfiguration : IServiceConfiguration :=
  {| blockSize := 65436; maxMessageSize := 16384; summary := JNull |}.

Definition sample_cfg (maxClients : Z) (expiry : bool) : config :=
  {| maxNumberOfClientsPerDocument := maxClients;
     maxTokenLifetimeSec := 3600;
     isTokenExpiryEnabled := expiry;
     DefaultServiceConfiguration := sample_serviceConfiguration |}.

(** Claims for document [d] of tenant [t], issued at [iat] seconds and
    expiring at [exp] seconds. *)
Definition sample_claims (scopes : list string) (iat exp : Z) : ITokenClaims :=
  {| claims_documentId := "d"; claims_scopes := scopes;
     claims_tenantId := "t"; claims_user := JObj {[ "id" := JStr "u" ]};
     claims_iat := iat; claims_exp := exp |}.

Definition sample_connection : IOrdererConnection :=
  {| conn_tenantId := "t"; conn_documentId := "d";
     conn_maxMessageSize := 16384;
     conn_serviceConfiguration := sample_serviceConfiguration |}.

(** Collaborators that accept the token for [claims], mint [clientId],
    report [clients] as connected, read the clock as [now], and answer the
    registry add with [add_ok]. *)
Definition sample_env (clientId : string) (claims : ITokenClaims)
    (clients : list jsval) (now : Z) (add_ok : bool) : connect_env :=
  {| connectThrottler := None;
     validateTokenClaims := fun token documentId tenantId =>
       if String.eqb documentId (claims_documentId claims)
          && String.eqb tenantId (claims_tenantId claims)
       then inr claims
       else inl (RejectWith 403 "DocumentId or TenantId in token claims does not match request." None);
     verifyToken := fun _ _ => None;
     generateClientId := clientId;
     socket_join := fun _ => true;
     Date_now := now;
     getClients := fun _ _ => Some clients;
     addClient := fun _ _ _ _ => add_ok;
     expiry_now := now;
     validateTokenClaimsExpiration := tokenlib_validateTokenClaimsExpiration;
     getOrderer := fun _ _ =>
       Some {| orderer_connect := fun _ _ => Some sample_connection |} |}.

(** The same collaborators with an orderer manager that is down, and
    with a connect limiter that answers every key with [outcome]. *)
Definition sample_env_orderer_down (clientId : string) (claims : ITokenClaims)
    (clients : list jsval) (now : Z) : connect_env :=
  let env := sample_env clientId claims clients now true in
  {| connectThrottler := connectThrottler env;
     validateTokenClaims := validateTokenClaims env;
     verifyToken := verifyToken env;
     generateClientId := generateClientId env;
     socket_join := socket_join env;
     Date_now := Date_now env;
     getClients := getClients env;
     addClient := addClient env;
     expiry_now := expiry_now env;
     validateTokenClaimsExpiration := validateTokenClaimsExpiration env;
     getOrderer := fun _ _ => None |}.

Definition sample_env_limited (outcome : incr_outcome) (clientId : string)
    (claims : ITokenClaims) (clients : list jsval) (now : Z) : connect_env :=
  let env := sample_env clientId claims clients now true in
  {| connectThrottler := Some (fun _ => outcome);
     validateTokenClaims := validateTokenClaims env;
     verifyToken := verifyToken env;
     generateClientId := generateClientId env;
     socket_join := socket_join env;
     Date_now := Date_now env;
     getClients := getClients env;
     addClient := addClient env;
     expiry_now := expiry_now env;
     validateTokenClaimsExpiration := validateTokenClaimsExpiration env;
     getOrderer := getOrderer env |}.

Definition sample_connect (client : option jsobj)
    (versions : option (list string)) (mode : string) : IConnect :=
  {| connect_tenantId := "t"; connect_id := "d"; connect_token := Some "jwt";
     connect_client := client; connect_versions := versions;
     connect_mode := mode |}.

(** A client descriptor of type [container]. *)
Definition sample_client : jsobj :=
  {[ "details" := JObj {[ "type" := JStr "container" ]} ]}.

Definition sample_signal_client (clientId : string) : jsval :=
  JObj {[ "clientId" := JStr clientId ]}.

(** A socket with one writer [w] and one reader [r] of document [t/d]. *)
Definition sample_state : socket_state :=
  {| connectionsMap := {[ "w" := sample_connection ]};
     roomMap := {[ "w" := {| room_tenantId := "t"; room_documentId := "d" |};
                   "r" := {| room_tenantId := "t"; room_documentId := "d" |} ]};
     scopeMap := {[ "w" := [ScopeType_DocRead; ScopeType_DocWrite];
                    "r" := [ScopeType_DocRead] ]};
     expirationTimer := None; timers := ∅; timersCreated := 0 |}.

Definition sample_op (type : string) : jsobj :=
  {[ "type" := JStr type; "clientSequenceNumber" := JNum 1;
     "referenceSequenceNumber" := JNum 0; "contents" := JStr "x";
     "secret" := JStr "y" ]}.

(** A limiter that lets everything through, and one that refuses. *)
Definition sample_submit_env (throttled : bool) (rnd : Z) : submit_env :=
  {| submitOpThrottler :=
       Some (fun _ =>
               if throttled
               then IncrThrottled {| throttle_code := 429;
                                     throttle_message := "Too many requests";
                                     throttle_retryAfter := 10 |}
               else IncrOk);
     getRandomInt := fun _ _ => rnd;
     op_now := fun _ _ => 1000 |}.

(** ** Vocabulary of the statements *)

(** Steps that precede the writes to [scopeMap] and [roomMap]. *)
Definition before_room_commit (stage : connect_stage) : bool :=
  match stage with
  | AtThrottle | AtTokenPresence | AtTokenValidation
  | AtTenantVerification | AtRoomJoin => true
  | _ => false
  end.

(** Calls that emit on the socket or to a room. *)
Definition is_emit (x : effect) : bool :=
  match x with
  | SocketEmit _ _ | SocketEmitToRoom _ _ _ => true
  | _ => false
  end.

(** Key sets of [roomMap] and [scopeMap] agree. *)
Definition maps_aligned (st : socket_state) : Prop :=
  dom (roomMap st) = dom (scopeMap st).

(** Messages of a batch that are not round-trip probes. *)
Definition keptMessages (messages : list jsobj) : list jsobj :=
  List.filter (fun message => negb (isRoundTrip message)) messages.

(** One call to the metric sink per round-trip probe that carries
    (truthy) traces, in the order of the batch. *)
Definition roundTripMetrics (messages : list jsobj) : list effect :=
  flat_map (fun message =>
              if isRoundTrip message && truthy (js_get message "traces")
              then [WriteLatencyMetric "latency" (js_get message "traces")]
              else []) messages.

(** The call to [connection.order] a batch gives rise to, if any. *)
Definition batchOrder (clientId : string) (b : messageBatch) : list effect :=
  match keptMessages (batch_messages b) with
  | [] => []
  | kept => [ConnectionOrder clientId (sanitizedMessage <$> kept)]
  end.

Definition is_metric (x : effect) : bool :=
  match x with WriteLatencyMetric _ _ => true | _ => false end.

Definition is_order (x : effect) : bool :=
  match x with ConnectionOrder _ _ => true | _ => false end.

(** The nack of a client without orderer connection, by the decision
    table of the specification: by membership in [roomMap] and by the
    write capability of the scopes recorded for the client. *)
Definition nack_decision_table (st : socket_state) (clientId : string) : INack :=
  match roomMap st !! clientId with
  | Some _ =>
      if match scopeMap st !! clientId with
         | Some scopes => hasWriteAccess scopes
         | None => false
         end
      then createNackMessage 400 BadRequestError "Readonly client" None
      else createNackMessage 403 InvalidScopeError "Invalid scope" None
  | None => createNackMessage 400 BadRequestError "Nonexistent client" None
  end.

(** * Properties *)

(** ** Sanitizer *)

Ltac whitelist_case k key :=
  destruct (decide (k = key)) as [->|?];
  [ rewrite ?lookup_insert_eq, ?bool_decide_eq_true_2
      by (unfold whitelist; set_solver);
    rewrite ?lookup_insert_ne by done; by rewrite ?lookup_insert_eq
  | rewrite lookup_insert_ne by done ].

Lemma sanitizedMessage_lookup (message : jsobj) (k : string) :
  sanitizedMessage message !! k
  = if bool_decide (k ∈ whitelist) then Some (js_get message k) else None.
Proof.
  unfold sanitizedMessage.
  whitelist_case k "clientSequenceNumber".
  whitelist_case k "contents".
  whitelist_case k "metadata".
  whitelist_case k "referenceSequenceNumber".
  whitelist_case k "traces".
  whitelist_case k "type".
  rewrite lookup_empty, bool_decide_eq_false_2; [done|].
  unfold whitelist. set_solver.
Qed.

Lemma js_get_insert_ne (o : jsobj) (k k' : string) (v : jsval) :
  k ≠ k' → js_get (<[k := v]> o) k' = js_get o k'.
Proof. intros. unfold js_get. by rewrite lookup_insert_ne. Qed.

(** Trace sampling writes the [operation] property only. *)
Lemma traceSampling_frame rnd now (message message' : jsobj) (k : string) :
  traceSampling rnd now message = Ok message' →
  k ≠ "operation" → message' !! k = message !! k.
Proof.
  unfold traceSampling. intros H Hk.
  destruct (_ && _ && _); [|by simplify_eq].
  destruct (js_push _ _); [|done].
  destruct (js_get message "operation"); simplify_eq; try done.
  by rewrite lookup_insert_ne.
Qed.

Lemma sanitizedMessage_sampled rnd now (message message' : jsobj) :
  traceSampling rnd now message = Ok message' →
  sanitizedMessage message' = sanitizedMessage message.
Proof.
  intros H. unfold sanitizedMessage, js_get.
  by rewrite !(traceSampling_frame _ _ _ _ _ H).
Qed.

Lemma sanitizeMessage_Ok rnd now (message message' sanitized : jsobj) :
  sanitizeMessage rnd now message = Ok (message', sanitized) →
  sanitized = sanitizedMessage message.
Proof.
  unfold sanitizeMessage. destruct (traceSampling _ _ _) eqn:H; [|done].
  intros ?; simplify_eq. by eapply sanitizedMessage_sampled.
Qed.

(** ** Negotiator *)

Section NegotiatorFacts.

Variable intersects : string -> string -> result bool.

Lemma firstIntersecting_find (servers : list string) (c : string) :
  (∀ p, p ∈ servers → ∃ b, intersects p c = Ok b) →
  firstIntersecting intersects servers c
  = Ok (List.find (fun p => meets intersects p c) servers).
Proof.
  induction servers as [|p servers IH]; intros Hvalid; [done|].
  simpl. unfold meets at 1.
  destruct (Hvalid p) as [b Hb]; [set_solver|]. rewrite Hb.
  destruct b; [done|]. apply IH. intros; apply Hvalid. set_solver.
Qed.

Lemma find_none_meets (servers : list string) (c : string) :
  List.find (fun p => meets intersects p c) servers = None →
  ∀ p, p ∈ servers → meets intersects p c = false.
Proof.
  intros H p Hp. apply list_elem_of_In in Hp.
  by apply (find_none _ _ H).
Qed.

(** C2, as the code has it.  For every client list of valid ranges (on
    which [intersects] does not throw) with at least one intersection,
    [selectProtocolVersion] returns the first element of the server
    list that intersects the first client range, in the client's order,
    that intersects any server range. *)
Theorem selectProtocolVersion_first_client_match (clients : list string) :
  (∀ p c, p ∈ protocolVersions → c ∈ clients → ∃ b, intersects p c = Ok b) →
  (∃ p c, p ∈ protocolVersions ∧ c ∈ clients ∧ meets intersects p c = true) →
  ∃ pre c post p,
    clients = (pre ++ c :: post)%list
    ∧ (∀ c' p', c' ∈ pre → p' ∈ protocolVersions →
                meets intersects p' c' = false)
    ∧ List.find (fun p => meets intersects p c) protocolVersions = Some p
    ∧ selectProtocolVersion intersects clients = Ok (Some p).
Proof.
  induction clients as [|c clients IH]; intros Hvalid (p & c0 & Hp & Hc0 & Hm).
  { by apply elem_of_nil in Hc0. }
  destruct (List.find (fun p => meets intersects p c) protocolVersions)
    as [q|] eqn:Hfind.
  - exists [], c, clients, q. split; [done|]. split; [|split; [done|]].
    + intros c' p' Hc'. by apply elem_of_nil in Hc'.
    + cbn [selectProtocolVersion].
      rewrite firstIntersecting_find, Hfind; [done|].
      intros; apply Hvalid; [done|]. apply elem_of_cons; by left.
  - destruct IH as (pre & c1 & post & q & -> & Hpre & Hq & Hsel).
    + intros; apply Hvalid; [done|]. apply elem_of_cons; by right.
    + exists p, c0. split; [done|]. split; [|done].
      apply elem_of_cons in Hc0 as [->|?]; [|done].
      by rewrite (find_none_meets _ _ Hfind p Hp) in Hm.
    + exists (c :: pre), c1, post, q. split; [done|].
      split; [|split; [done|]].
      * intros c' p' Hc' Hp'. apply elem_of_cons in Hc' as [->|?].
        -- by apply (find_none_meets _ _ Hfind).
        -- by apply Hpre.
      * cbn [selectProtocolVersion].
        rewrite firstIntersecting_find, Hfind; [done|].
        intros; apply Hvalid; [done|]. apply elem_of_cons; by left.
Qed.

End NegotiatorFacts.

(** C2, witness: the client list [^0.3.0, ^0.4.0]. *)
Lemma selectProtocolVersion_first_client_match_witness :
  ∃ pre c post p,
    ["^0.3.0"; "^0.4.0"] = (pre ++ c :: post)%list
    ∧ (∀ c' p', c' ∈ pre → p' ∈ protocolVersions →
                meets caret_intersects p' c' = false)
    ∧ List.find (fun p => meets caret_intersects p c) protocolVersions = Some p
    ∧ selectProtocolVersion caret_intersects ["^0.3.0"; "^0.4.0"] = Ok (Some p).
Proof.
  apply (selectProtocolVersion_first_client_match caret_intersects).
  - intros p c Hp Hc. unfold protocolVersions in Hp.
    repeat (apply elem_of_cons in Hp as [->|Hp]);
      repeat (apply elem_of_cons in Hc as [->|Hc]);
      try (by apply elem_of_nil in Hp); try (by apply elem_of_nil in Hc);
      vm_compute; eauto.
  - exists "^0.4.0", "^0.4.0". split; [|split].
    + unfold protocolVersions. set_solver.
    + set_solver.
    + vm_compute. reflexivity.
Defined.

(** C2, counterexample.  The client list [^0.1.0, ^0.4.0] has an
    intersection; the first server range that intersects any client range
    is [^0.4.0], and the negotiator returns [^0.1.0]. *)
Lemma negotiation_follows_client_order :
  firstServerMatchingAny caret_intersects ["^0.1.0"; "^0.4.0"] = Some "^0.4.0"
  ∧ selectProtocolVersion caret_intersects ["^0.1.0"; "^0.4.0"]
    = Ok (Some "^0.1.0")
  ∧ ¬ (∀ clients p,
         firstServerMatchingAny caret_intersects clients = Some p →
         selectProtocolVersion caret_intersects clients = Ok (Some p)).
Proof.
  split; [vm_compute; reflexivity|].
  split; [vm_compute; reflexivity|].
  intros H. specialize (H ["^0.1.0"; "^0.4.0"] "^0.4.0").
  assert (Hsel : selectProtocolVersion caret_intersects ["^0.1.0"; "^0.4.0"]
                 = Ok (Some "^0.1.0")) by (vm_compute; reflexivity).
  rewrite Hsel in H.
  assert (Hspec : firstServerMatchingAny caret_intersects ["^0.1.0"; "^0.4.0"]
                  = Some "^0.4.0") by (vm_compute; reflexivity).
  specialize (H Hspec). discriminate H.
Qed.

(** ** The expiration timer *)

(** Clearing and arming the timer leave the three maps alone. *)
Lemma clearExpirationTimer_maps (st : socket_state) :
  connectionsMap (clearExpirationTimer st) = connectionsMap st
  ∧ roomMap (clearExpirationTimer st) = roomMap st
  ∧ scopeMap (clearExpirationTimer st) = scopeMap st.
Proof. unfold clearExpirationTimer. by destruct (expirationTimer st). Qed.

Lemma clearExpirationTimer_connectionsMap (st : socket_state) :
  connectionsMap (clearExpirationTimer st) = connectionsMap st.
Proof. apply clearExpirationTimer_maps. Qed.

Lemma clearExpirationTimer_roomMap (st : socket_state) :
  roomMap (clearExpirationTimer st) = roomMap st.
Proof. apply clearExpirationTimer_maps. Qed.

Lemma clearExpirationTimer_scopeMap (st : socket_state) :
  scopeMap (clearExpirationTimer st) = scopeMap st.
Proof. apply clearExpirationTimer_maps. Qed.

Lemma clearExpirationTimer_expirationTimer (st : socket_state) :
  expirationTimer (clearExpirationTimer st) = None.
Proof.
  unfold clearExpirationTimer. by destruct (expirationTimer st) eqn:H.
Qed.

Lemma clearExpirationTimer_timersCreated (st : socket_state) :
  timersCreated (clearExpirationTimer st) = timersCreated st.
Proof. unfold clearExpirationTimer. by destruct (expirationTimer st). Qed.

(** The timers left armed by [clearExpirationTimer]: all but the one the
    variable holds. *)
Lemma clearExpirationTimer_timers (st : socket_state) :
  timers (clearExpirationTimer st)
  = match expirationTimer st with
    | Some handle => delete handle (timers st)
    | None => timers st
    end.
Proof. unfold clearExpirationTimer. by destruct (expirationTimer st). Qed.

Lemma setExpirationTimer_connectionsMap (now ms : Z) (st : socket_state) :
  connectionsMap (setExpirationTimer now ms st) = connectionsMap st.
Proof. unfold setExpirationTimer. cbn. apply clearExpirationTimer_maps. Qed.

Lemma setExpirationTimer_roomMap (now ms : Z) (st : socket_state) :
  roomMap (setExpirationTimer now ms st) = roomMap st.
Proof. unfold setExpirationTimer. cbn. apply clearExpirationTimer_maps. Qed.

Lemma setExpirationTimer_scopeMap (now ms : Z) (st : socket_state) :
  scopeMap (setExpirationTimer now ms st) = scopeMap st.
Proof. unfold setExpirationTimer. cbn. apply clearExpirationTimer_maps. Qed.

(** After [setExpirationTimer] the variable holds a new timer, armed for
    the delay the runtime makes of [ms]; the timer the variable held is
    disarmed, and no other timer is touched. *)
Lemma setExpirationTimer_expirationTimer (now ms : Z) (st : socket_state) :
  expirationTimer (setExpirationTimer now ms st) = Some (timersCreated st).
Proof.
  unfold setExpirationTimer. cbn.
  by rewrite clearExpirationTimer_timersCreated.
Qed.

Lemma setExpirationTimer_timers (now ms : Z) (st : socket_state) :
  timers (setExpirationTimer now ms st)
  = <[timersCreated st := now + setTimeout_delay ms]>
      match expirationTimer st with
      | Some handle => delete handle (timers st)
      | None => timers st
      end.
Proof.
  unfold setExpirationTimer. cbn.
  by rewrite clearExpirationTimer_timersCreated, clearExpirationTimer_timers.
Qed.

Lemma setExpirationTimer_timersCreated (now ms : Z) (st : socket_state) :
  timersCreated (setExpirationTimer now ms st) = S (timersCreated st).
Proof.
  unfold setExpirationTimer. cbn.
  by rewrite clearExpirationTimer_timersCreated.
Qed.

Create Rewrite HintDb timer_frame.

#[global] Hint Rewrite
  clearExpirationTimer_connectionsMap clearExpirationTimer_roomMap
  clearExpirationTimer_scopeMap clearExpirationTimer_expirationTimer
  setExpirationTimer_connectionsMap setExpirationTimer_roomMap
  setExpirationTimer_scopeMap setExpirationTimer_expirationTimer
  clearExpirationTimer_timers clearExpirationTimer_timersCreated
  setExpirationTimer_timers setExpirationTimer_timersCreated
  : timer_frame.

(** ** Connect pipeline *)

Lemma bind_inv {A B : Type} (m : connectM A) (f : A → connectM B)
    (st st' : socket_state) (effs : list effect)
    (r : connect_stage * rejection + B) :
  (m ≫= f) st = (st', effs, r) →
  (∃ e, m st = (st', effs, inl e) ∧ r = inl e)
  ∨ (∃ st1 effs1 a effs2,
       m st = (st1, effs1, inr a) ∧ f a st1 = (st', effs2, r)
       ∧ effs = (effs1 ++ effs2)%list).
Proof.
  unfold mbind, connectM_bind.
  destruct (m st) as [[st1 effs1] [e|a]].
  - intros ?; simplify_eq. left; eauto.
  - destruct (f a st1) as [[st2 effs2] r2] eqn:Hf.
    intros ?; simplify_eq. right. by exists st1, effs1, a, effs2.
Qed.

Ltac destruct_innermost H :=
  match type of H with
  | context [match ?x with _ => _ end] =>
      lazymatch x with
      | context [match _ with _ => _ end] => fail
      | _ => destruct x eqn:?
      end
  end.

(** Case analysis on the outcome of one primitive step. *)
Ltac step_outcome H :=
  cbv beta in H;
  repeat destruct_innermost H;
  unfold handleServerError in H;
  unfold reject, perform, modify, mret, connectM_ret in H;
  simplify_eq.

(** One step of the pipeline: either it rejects (first goal) or the
    pipeline goes on (second goal). *)
Ltac connect_step H tac :=
  let Hm := fresh "Hstep" in
  apply bind_inv in H as [(? & Hm & ?) | (? & ? & ? & ? & Hm & H & ?)];
  [ simplify_eq; step_outcome Hm; tac
  | simplify_eq; step_outcome Hm ].

(** The last step of the pipeline, [mret] of the result. *)
Ltac connect_done H :=
  unfold mret, connectM_ret in H; simplify_eq.

Ltac reject_facts :=
  cbn; autorewrite with timer_frame; cbn; split; [done|]; split; [by repeat constructor|]; split;
  [ first [ done | eexists _, _; split; [eassumption|done] ]
  | split;
    [ first [ done
            | intros _; split; [done|]; eexists _, _, _;
              split; [reflexivity|]; split; [eassumption|];
              split; [eassumption|]; by apply Z.ltb_lt ]
    | first [ done | intros _ ? ?; congruence ] ] ].

Section ConnectFacts.

Variable intersects : string -> string -> result bool.
Variable cfg : config.
Variable env : connect_env.

(** What a rejected pipeline leaves behind. *)
Lemma connectDocument_reject (message : IConnect) (st st' : socket_state)
    (effs : list effect) (stage : connect_stage) (e : rejection) :
  connectDocument intersects cfg env message st = (st', effs, inl (stage, e)) →
  connectionsMap st' = connectionsMap st
  ∧ Forall (fun x => is_emit x = false) effs
  ∧ (if before_room_commit stage
     then roomMap st' = roomMap st ∧ scopeMap st' = scopeMap st
          ∧ expirationTimer st' = expirationTimer st
     else ∃ token claims,
         validateTokenClaims env token (connect_id message)
                             (connect_tenantId message) = inr claims
         ∧ scopeMap st'
           = <[generateClientId env
               := clientScopes claims (requestClient message)]> (scopeMap st)
         ∧ roomMap st'
           = <[generateClientId env := claimsRoom claims]> (roomMap st))
  ∧ (stage = AtQuota →
     e = RejectWith 429 "Too Many Clients Connected to Document" (Some 300)
     ∧ ∃ token claims clients,
         connect_token message = Some token
         ∧ validateTokenClaims env token (connect_id message)
                               (connect_tenantId message) = inr claims
         ∧ getClients env (claims_tenantId claims) (claims_documentId claims)
           = Some clients
         ∧ maxNumberOfClientsPerDocument cfg < Z.of_nat (List.length clients))
  ∧ (stage = AtProtocolNegotiation →
     ∀ version, selectProtocolVersion intersects (requestVersions message)
                ≠ Ok (Some version)).
Proof.
  intros H. unfold connectDocument in H. cbv zeta in H.
  do 15 (connect_step H reject_facts).
  all: apply bind_inv in H as [(? & Hw & ?) | (? & ? & ? & ? & Hw & H & ?)];
    simplify_eq.
  all: destruct (isWriter _ _); [|connect_done Hw].
  all: do 5 (connect_step Hw reject_facts).
  all: connect_done Hw.
Qed.
(** What an accepted pipeline has done. *)
Lemma connectDocument_accept (message : IConnect) (st st' : socket_state)
    (effs : list effect) (m : IConnectedClient) :
  connectDocument intersects cfg env message st = (st', effs, inr m) →
  ∃ token claims version clients,
    validateTokenClaims env token (connect_id message)
                        (connect_tenantId message) = inr claims
    ∧ selectProtocolVersion intersects (requestVersions message)
      = Ok (Some version)
    ∧ getClients env (claims_tenantId claims) (claims_documentId claims)
      = Some clients
    ∧ Z.of_nat (List.length clients) ≤ maxNumberOfClientsPerDocument cfg
    ∧ connected_claims (connection m) = claims
    ∧ connected_clientId (connection m) = generateClientId env
    ∧ connected_version (connection m) = version
    ∧ connected_initialClients (connection m) = clients
    ∧ details m = stampClient claims (Date_now env) (requestClient message)
    ∧ scopeMap st'
      = <[generateClientId env
          := clientScopes claims (requestClient message)]> (scopeMap st)
    ∧ roomMap st'
      = <[generateClientId env := claimsRoom claims]> (roomMap st)
    ∧ (if isWriter (clientScopes claims (requestClient message))
                   (connect_mode message)
       then ∃ c,
           connectionsMap st'
           = <[generateClientId env := c]> (connectionsMap st)
           ∧ connected_mode (connection m) = "write"
           ∧ effs = [SocketJoin (getRoomId (claimsRoom claims));
                     SocketJoin ("client#" ++ generateClientId env);
                     AddClient (claims_tenantId claims)
                       (claims_documentId claims) (generateClientId env)
                       (details m);
                     OrdererConnect (claims_tenantId claims)
                       (claims_documentId claims) (generateClientId env)
                       (details m);
                     ConnectionConnect (generateClientId env)]
       else connectionsMap st' = connectionsMap st
            ∧ connected_mode (connection m) = "read"
            ∧ effs = [SocketJoin (getRoomId (claimsRoom claims));
                      SocketJoin ("client#" ++ generateClientId env);
                      AddClient (claims_tenantId claims)
                        (claims_documentId claims) (generateClientId env)
                        (details m)])
    ∧ (if isTokenExpiryEnabled cfg
       then ∃ lifeTimeMSec,
           validateTokenClaimsExpiration env claims
             (maxTokenLifetimeSec cfg) (expiry_now env) = inr lifeTimeMSec
           ∧ expirationTimer st' = Some (timersCreated st)
           ∧ timers st'
             = <[timersCreated st
                 := expiry_now env + setTimeout_delay lifeTimeMSec]>
                 match expirationTimer st with
                 | Some handle => delete handle (timers st)
                 | None => timers st
                 end
       else expirationTimer st' = expirationTimer st
            ∧ timers st' = timers st).
Proof.
  intros H. unfold connectDocument in H. cbv zeta in H.
  do 15 (connect_step H idtac).
  all: apply bind_inv in H as [(? & Hw & ?) | (? & ? & ? & ? & Hw & H & ?)];
    simplify_eq.
  all: connect_done H.
  all: destruct (isWriter _ _) eqn:Hwriter;
    [ do 5 (connect_step Hw idtac) | ]; connect_done Hw.
  all: eexists _, _, _, _; cbn; autorewrite with timer_frame; cbn.
  all: rewrite ?Hwriter.
  all: match goal with Hx : isTokenExpiryEnabled cfg = _ |- _ => rewrite ?Hx end.
  all: split_and!; try eassumption; try done; try (by apply Z.ltb_ge).
  all: eauto.
Qed.

End ConnectFacts.

Lemma js_is_str_false (v : jsval) (s : string) :
  v ≠ JStr s → js_is_str v s = false.
Proof.
  intros Hv. destruct v; try done. simpl.
  apply String.eqb_neq. congruence.
Qed.

Lemma not_in_filter_ne (x : string) (l : list string) :
  x ∉ filter (fun y => y ≠ x) l.
Proof. intros Hx. apply list_elem_of_filter in Hx as [Hx _]. by apply Hx. Qed.

(** The remaining lifetime computed by the token library, counted from
    the moment it is computed, ends at the token's expiration. *)
Lemma tokenlib_deadline (claims : ITokenClaims) (maxLifetime now life : Z) :
  tokenlib_validateTokenClaimsExpiration claims maxLifetime now = inr life →
  now + life = claims_exp claims * 1000.
Proof.
  unfold tokenlib_validateTokenClaimsExpiration.
  repeat case_match; intros ?; simplify_eq. lia.
Qed.

Lemma initial_state_aligned : maps_aligned initial_state.
Proof. unfold maps_aligned. simpl. by rewrite !dom_empty_L. Qed.

Section ConnectClaims.

Variable intersects : string -> string -> result bool.
Variable cfg : config.
Variable env : connect_env.

(** The connect handler keeps the key sets of [roomMap] and [scopeMap]
    equal, whatever its outcome. *)
Lemma on_connect_document_aligned (message : IConnect) (st : socket_state) :
  maps_aligned st →
  maps_aligned (fst (on_connect_document intersects cfg env message st)).
Proof.
  unfold maps_aligned, on_connect_document. intros Hst.
  destruct (connectDocument intersects cfg env message st)
    as [[st' effs] [[stage e]|m]] eqn:H; simpl.
  - apply connectDocument_reject in H as (_ & _ & H & _).
    destruct (before_room_commit stage).
    + destruct H as (-> & -> & _). done.
    + destruct H as (? & ? & _ & -> & ->). rewrite !dom_insert_L. congruence.
  - apply connectDocument_accept in H
      as (? & ? & ? & ? & _ & _ & _ & _ & _ & _ & _ & _ & _ & -> & -> & _).
    rewrite !dom_insert_L. congruence.
Qed.

(** C4, as the code has it.  A [connect_document] that gets as far as
    the quota step is rejected there with [{429, "Too Many Clients
    Connected to Document", retryAfter: 300}] when the client registry
    reports more clients than [maxNumberOfClientsPerDocument], so with a
    limit of two when it reports three or more; when the registry reports
    no more clients than the limit, the request is not rejected at the
    quota step. *)
Theorem quota_rejects_above_limit (message : IConnect) (st : socket_state)
    (token : string) (claims : ITokenClaims) (version : string)
    (clients : list jsval) :
  checkThrottle (connectThrottler env)
    (getSocketConnectThrottleId (connect_tenantId message)) = None →
  connect_token message = Some token →
  token ≠ EmptyString →
  validateTokenClaims env token (connect_id message)
                      (connect_tenantId message) = inr claims →
  verifyToken env (claims_tenantId claims) token = None →
  socket_join env (getRoomId (claimsRoom claims)) = true →
  socket_join env ("client#" ++ generateClientId env) = true →
  selectProtocolVersion intersects (requestVersions message)
  = Ok (Some version) →
  getClients env (claims_tenantId claims) (claims_documentId claims)
  = Some clients →
  (maxNumberOfClientsPerDocument cfg < Z.of_nat (List.length clients) →
   connectDocument intersects cfg env message st
   = (set_roomMap (generateClientId env) (claimsRoom claims)
        (set_scopeMap (generateClientId env)
           (clientScopes claims (requestClient message)) st),
      [SocketJoin (getRoomId (claimsRoom claims));
       SocketJoin ("client#" ++ generateClientId env)],
      inl (AtQuota,
           RejectWith 429 "Too Many Clients Connected to Document" (Some 300)))
   ∧ snd (on_connect_document intersects cfg env message st)
     = [SocketJoin (getRoomId (claimsRoom claims));
        SocketJoin ("client#" ++ generateClientId env);
        SocketEmit "connect_document_error"
          (PConnectError
             (RejectWith 429 "Too Many Clients Connected to Document"
                         (Some 300)))])
  ∧ (Z.of_nat (List.length clients) ≤ maxNumberOfClientsPerDocument cfg →
     ∀ st' effs stage e,
       connectDocument intersects cfg env message st
       = (st', effs, inl (stage, e)) →
       stage ≠ AtQuota).
Proof.
  intros Hthrottle Htoken Hne Hclaims Hverify Hjoin1 Hjoin2 Hversion Hclients.
  split.
  - intros Hquota.
    apply String.eqb_neq in Hne. apply Z.ltb_lt in Hquota.
    assert (Hrun : connectDocument intersects cfg env message st
      = (set_roomMap (generateClientId env) (claimsRoom claims)
         (set_scopeMap (generateClientId env)
            (clientScopes claims (requestClient message)) st),
       [SocketJoin (getRoomId (claimsRoom claims));
        SocketJoin ("client#" ++ generateClientId env)],
       inl (AtQuota,
            RejectWith 429 "Too Many Clients Connected to Document" (Some 300)))).
    { unfold connectDocument.
      unfold mbind, connectM_bind, mret, connectM_ret, handleServerError.
      unfold reject, perform, modify.
      rewrite Hthrottle, Htoken, Hne, Hclaims, Hverify, Hjoin1, Hjoin2.
      cbn -[getRoomId String.append].
      rewrite Hversion, Hclients, Hquota. done. }
    split; [done|]. unfold on_connect_document. by rewrite Hrun.
  - intros Hquota st' effs stage e H ->.
    apply connectDocument_reject in H as (_ & _ & _ & H & _).
    destruct (H eq_refl) as (_ & token' & claims' & clients' & Htoken'
                             & Hclaims' & Hclients' & Hmore).
    rewrite Htoken in Htoken'. injection Htoken' as <-.
    rewrite Hclaims in Hclaims'. injection Hclaims' as <-.
    rewrite Hclients in Hclients'. injection Hclients' as <-. lia.
Qed.

(** C6.  For every accepted [connect_document] whose client descriptor
    has a [details.type] other than [summarizer] (or none), the scopes
    stored in [scopeMap] for the new clientId are the scopes of the
    claims without [SummaryWrite]; the descriptor handed to the client
    registry is registered once, for that clientId, and carries the same
    scopes. *)
Theorem summary_write_stripped (message : IConnect) (st st' : socket_state)
    (effs : list effect) (m : IConnectedClient) :
  connectDocument intersects cfg env message st = (st', effs, inr m) →
  opt_prop (js_get (requestClient message) "details") "type"
  ≠ JStr summarizerClientType →
  ∃ scopes,
    scopeMap st' !! (connected_clientId (connection m)) = Some scopes
    ∧ (ScopeType_SummaryWrite ∉ scopes)
    ∧ scopes = filter (fun scope => scope ≠ ScopeType_SummaryWrite)
                      (claims_scopes (connected_claims (connection m)))
    ∧ (∃ tenantId documentId,
         List.filter (fun x => match x with AddClient _ _ _ _ => true
                                       | _ => false end) effs
         = [AddClient tenantId documentId
              (connected_clientId (connection m)) (details m)])
    ∧ details m !! "scopes" = Some (JArr (JStr <$> scopes)).
Proof.
  intros H Htype.
  apply connectDocument_accept in H
    as (token & claims & version & clients & _ & _ & _ & _ & Hclaims & Hid
        & _ & _ & Hdetails & Hscope & _ & Hw & _).
  assert (Hscopes : clientScopes claims (requestClient message)
                    = filter (fun scope => scope ≠ ScopeType_SummaryWrite)
                             (claims_scopes claims)).
  { unfold clientScopes, isSummarizer. by rewrite js_is_str_false. }
  exists (clientScopes claims (requestClient message)).
  split; [|split; [|split; [|split]]].
  - rewrite Hscope, Hid. apply lookup_insert_eq.
  - rewrite Hscopes. apply not_in_filter_ne.
  - by rewrite Hclaims.
  - exists (claims_tenantId claims), (claims_documentId claims). rewrite Hid.
    destruct (isWriter _ _).
    + destruct Hw as (c & _ & _ & ->). done.
    + destruct Hw as (_ & _ & ->). done.
  - rewrite Hdetails. unfold stampClient.
    rewrite lookup_insert_ne by done. by rewrite lookup_insert_eq.
Qed.

(** Only accepted writers enter [connectionsMap], and they are in
    [roomMap]. *)
Lemma on_connect_document_writers (message : IConnect) (st : socket_state) :
  dom (connectionsMap st) ⊆ dom (roomMap st) →
  dom (connectionsMap (fst (on_connect_document intersects cfg env message st)))
  ⊆ dom (roomMap (fst (on_connect_document intersects cfg env message st))).
Proof.
  unfold on_connect_document. intros Hst.
  destruct (connectDocument intersects cfg env message st)
    as [[st' effs] [[stage e]|m]] eqn:H; simpl.
  - apply connectDocument_reject in H as (-> & _ & H & _).
    destruct (before_room_commit stage).
    + by destruct H as (-> & _).
    + destruct H as (? & ? & _ & _ & ->). rewrite dom_insert_L. set_solver.
  - apply connectDocument_accept in H
      as (? & ? & ? & ? & _ & _ & _ & _ & _ & _ & _ & _ & _ & _ & -> & Hw & _).
    destruct (isWriter _ _).
    + destruct Hw as (c & -> & _). rewrite !dom_insert_L. set_solver.
    + destruct Hw as (-> & _). rewrite dom_insert_L. set_solver.
Qed.

End ConnectClaims.

(** The invariants of the per-socket maps hold in every state a socket
    goes through: every client with an orderer connection is a room
    member, and [roomMap] and [scopeMap] have the same keys. *)
Lemma reachable_invariants (intersects : string -> string -> result bool)
    (cfg : config) (st : socket_state) :
  reachable intersects cfg st →
  dom (connectionsMap st) ⊆ dom (roomMap st) ∧ maps_aligned st.
Proof.
  induction 1 as [|ev st Hst [IHw IHa]].
  - split; [|apply initial_state_aligned]. simpl. by rewrite dom_empty_L.
  - destruct ev as [env message|env clientId batches]; simpl; [|done].
    split.
    + by apply on_connect_document_writers.
    + by apply on_connect_document_aligned.
Qed.

(** C3, as the code has it.  A [connect_document] request without a
    [versions] property is handled exactly as the same request offering
    [["^0.1.0"]]: negotiation selects [^0.1.0], the request is not
    rejected at the negotiation step, and an accepted request is answered
    with version [^0.1.0].  The same request with an empty [versions]
    list is not defaulted: negotiation selects nothing and the request is
    never accepted. *)
Theorem absent_versions_default (cfg : config) (env : connect_env)
    (tenantId id : string) (token : option string) (client : option jsobj)
    (mode : string) (st : socket_state) :
  let request := fun versions =>
    {| connect_tenantId := tenantId; connect_id := id;
       connect_token := token; connect_client := client;
       connect_versions := versions; connect_mode := mode |} in
  on_connect_document caret_intersects cfg env (request None) st
  = on_connect_document caret_intersects cfg env (request (Some ["^0.1.0"])) st
  ∧ selectProtocolVersion caret_intersects (requestVersions (request None))
    = Ok (Some "^0.1.0")
  ∧ (∀ st' effs stage e,
       connectDocument caret_intersects cfg env (request None) st
       = (st', effs, inl (stage, e)) →
       stage ≠ AtProtocolNegotiation)
  ∧ (∀ st' effs m,
       connectDocument caret_intersects cfg env (request None) st
       = (st', effs, inr m) →
       connected_version (connection m) = "^0.1.0")
  ∧ selectProtocolVersion caret_intersects (requestVersions (request (Some [])))
    = Ok None
  ∧ (∀ st' effs m,
       connectDocument caret_intersects cfg env (request (Some [])) st
       ≠ (st', effs, inr m)).
Proof.
  intros request.
  assert (Hsel : selectProtocolVersion caret_intersects
                   (requestVersions (request None))
                 = Ok (Some "^0.1.0")) by (vm_compute; reflexivity).
  split; [done|]. split; [done|]. split; [|split; [|split; [done|]]].
  - intros st' effs stage e H ->.
    apply connectDocument_reject in H as (_ & _ & _ & _ & H).
    by apply (H eq_refl "^0.1.0").
  - intros st' effs m H.
    apply connectDocument_accept in H
      as (? & ? & version & ? & _ & Hv & _ & _ & _ & _ & -> & _).
    rewrite Hsel in Hv. by simplify_eq.
  - intros st' effs m H.
    apply connectDocument_accept in H as (? & ? & version & ? & _ & Hv & _).
    discriminate Hv.
Qed.

(** ** The submitOp handler *)

Lemma filterRoundTrip_spec (messages : list jsobj) :
  filterRoundTrip messages = (roundTripMetrics messages, keptMessages messages).
Proof.
  induction messages as [|message rest IH]; [done|].
  cbn [filterRoundTrip]. rewrite IH.
  unfold roundTripMetrics, keptMessages. cbn [flat_map List.filter].
  destruct (isRoundTrip message); cbn; [|done].
  by destruct (truthy _).
Qed.

Lemma elem_of_roundTripMetrics (x : effect) (messages : list jsobj) :
  x ∈ roundTripMetrics messages →
  ∃ message, message ∈ messages
             ∧ isRoundTrip message = true
             ∧ truthy (js_get message "traces") = true
             ∧ x = WriteLatencyMetric "latency" (js_get message "traces").
Proof.
  unfold roundTripMetrics. intros Hx.
  apply list_elem_of_In, in_flat_map in Hx as (message & Hm & Hx).
  exists message. apply list_elem_of_In in Hm.
  destruct (isRoundTrip message), (truthy (js_get message "traces"));
    cbn in Hx; try done.
  by destruct Hx as [<-|[]].
Qed.

Lemma elem_of_batchOrder (x : effect) (clientId : string) (b : messageBatch) :
  x ∈ batchOrder clientId b →
  x = ConnectionOrder clientId
        (sanitizedMessage <$> keptMessages (batch_messages b))
  ∧ keptMessages (batch_messages b) ≠ [].
Proof.
  unfold batchOrder. destruct (keptMessages (batch_messages b)) eqn:Hk.
  - intros Hx. by apply elem_of_nil in Hx.
  - intros Hx. apply list_elem_of_singleton in Hx. done.
Qed.

Lemma elem_of_keptMessages (message : jsobj) (messages : list jsobj) :
  message ∈ keptMessages messages →
  message ∈ messages ∧ isRoundTrip message = false.
Proof.
  unfold keptMessages. intros H.
  apply list_elem_of_In, filter_In in H as [H1 H2].
  split; [by apply list_elem_of_In|]. by apply negb_true_iff.
Qed.

Lemma sanitizedMessage_type (message : jsobj) :
  isRoundTrip (sanitizedMessage message) = isRoundTrip message.
Proof.
  unfold isRoundTrip, js_get at 1. rewrite sanitizedMessage_lookup.
  rewrite bool_decide_eq_true_2; [done|]. unfold whitelist. set_solver.
Qed.

Lemma filter_metric_roundTripMetrics (messages : list jsobj) :
  List.filter is_metric (roundTripMetrics messages) = roundTripMetrics messages.
Proof.
  unfold roundTripMetrics.
  induction messages as [|message rest IH]; [done|]. cbn [flat_map].
  rewrite List.filter_app, IH. f_equal. by destruct (_ && _).
Qed.

Lemma filter_metric_batchOrder (clientId : string) (b : messageBatch) :
  List.filter is_metric (batchOrder clientId b) = [].
Proof. unfold batchOrder. by destruct (keptMessages _). Qed.

Lemma filter_order_roundTripMetrics (messages : list jsobj) :
  List.filter is_order (roundTripMetrics messages) = [].
Proof.
  unfold roundTripMetrics.
  induction messages as [|message rest IH]; [done|]. cbn [flat_map].
  rewrite List.filter_app, IH. by destruct (_ && _).
Qed.

Lemma filter_order_batchOrder (clientId : string) (b : messageBatch) :
  List.filter is_order (batchOrder clientId b) = batchOrder clientId b.
Proof. unfold batchOrder. by destruct (keptMessages _). Qed.

Lemma filter_flat_map {A B : Type} (p : B → bool) (f g : A → list B)
    (l : list A) :
  (∀ a, List.filter p (f a) = g a) →
  List.filter p (flat_map f l) = flat_map g l.
Proof.
  intros Hfg. induction l as [|a l IH]; [done|]. cbn [flat_map].
  by rewrite List.filter_app, Hfg, IH.
Qed.

Section SubmitFacts.

Variable env : submit_env.

Lemma sanitizeAll_Ok (i j : nat) (messages sanitized : list jsobj) :
  sanitizeAll env i j messages = Ok sanitized →
  sanitized = sanitizedMessage <$> messages.
Proof.
  revert j sanitized.
  induction messages as [|message rest IH]; intros j sanitized; cbn.
  { by intros [= <-]. }
  destruct (sanitizeMessage _ _ _) as [[m' s]|] eqn:Hs; [|done].
  destruct (sanitizeAll env i (S j) rest) as [l|] eqn:Hrest; [|done].
  intros [= <-]. apply sanitizeMessage_Ok in Hs as ->.
  by rewrite (IH _ _ Hrest).
Qed.

(** One batch: the filter always runs to its end; the order call is
    made when the sanitizer does not throw. *)
Lemma orderBatch_spec (clientId : string) (i : nat) (b : messageBatch) :
  orderBatch env clientId i b
  = ((roundTripMetrics (batch_messages b) ++ batchOrder clientId b)%list, Ok tt)
  ∨ ∃ e, orderBatch env clientId i b
         = (roundTripMetrics (batch_messages b), Throw e).
Proof.
  unfold orderBatch, batchOrder. rewrite filterRoundTrip_spec.
  destruct (sanitizeAll env i 0 (keptMessages (batch_messages b)))
    as [sanitized|e] eqn:Hs; [|right; eauto].
  left. apply sanitizeAll_Ok in Hs as ->.
  destruct (keptMessages (batch_messages b)); cbn; [|done].
  by rewrite app_nil_r.
Qed.

(** A completed loop has performed, batch after batch, the metric calls
    of the batch and then its order call. *)
Lemma orderBatches_complete (clientId : string) (i : nat)
    (batches : list messageBatch) (effs : list effect) :
  orderBatches env clientId i batches = (effs, Ok tt) →
  effs = flat_map (fun b => (roundTripMetrics (batch_messages b)
                             ++ batchOrder clientId b)%list) batches.
Proof.
  revert i effs. induction batches as [|b rest IH]; intros i effs; cbn.
  { by intros [= <-]. }
  destruct (orderBatch_spec clientId i b) as [->|[e ->]]; [|done].
  destruct (orderBatches env clientId (S i) rest) as [effs' r] eqn:Hrest.
  intros [= <- ->]. by rewrite (IH _ _ Hrest).
Qed.

(** Whether or not the loop completes, each of its effects is a metric
    call or the order call of one of the batches. *)
Lemma orderBatches_effects (clientId : string) (i : nat)
    (batches : list messageBatch) (effs : list effect) (r : result unit)
    (x : effect) :
  orderBatches env clientId i batches = (effs, r) →
  x ∈ effs →
  ∃ b, b ∈ batches
       ∧ (x ∈ roundTripMetrics (batch_messages b) ∨ x ∈ batchOrder clientId b).
Proof.
  revert i effs r. induction batches as [|b rest IH]; intros i effs r; cbn.
  { intros [= <- <-] Hx. by apply elem_of_nil in Hx. }
  destruct (orderBatch_spec clientId i b) as [->|[e ->]].
  - destruct (orderBatches env clientId (S i) rest) as [effs' r'] eqn:Hrest.
    intros [= <- <-] Hx.
    apply elem_of_app in Hx as [Hx|Hx].
    + exists b. split; [apply elem_of_cons; by left|].
      by apply elem_of_app in Hx.
    + destruct (IH _ _ _ Hrest Hx) as (b' & ? & ?).
      exists b'. split; [apply elem_of_cons; by right|done].
  - intros [= <- <-] Hx. exists b. split; [apply elem_of_cons; by left|].
    by left.
Qed.

(** The calls to the metric sink are those of the batches the loop has
    reached: all batches when the loop completes, the batches up to the
    one in which the sanitizer throws otherwise. *)
Lemma orderBatches_metrics (clientId : string) (i : nat)
    (batches : list messageBatch) (effs : list effect) (r : result unit) :
  orderBatches env clientId i batches = (effs, r) →
  ∃ reached rest,
    batches = (reached ++ rest)%list
    ∧ (r = Ok tt → rest = [])
    ∧ List.filter is_metric effs
      = flat_map (fun b => roundTripMetrics (batch_messages b)) reached.
Proof.
  revert i effs r. induction batches as [|b batches IH]; intros i effs r; cbn.
  { intros [= <- <-]. by exists [], []. }
  destruct (orderBatch_spec clientId i b) as [->|[e ->]].
  - destruct (orderBatches env clientId (S i) batches) as [effs' r'] eqn:Hrest.
    intros [= <- <-].
    destruct (IH _ _ _ Hrest) as (reached & rest & -> & Hrest' & Hmetrics).
    exists (b :: reached), rest. split; [done|]. split; [done|].
    cbn [flat_map]. rewrite !List.filter_app, Hmetrics.
    by rewrite filter_metric_roundTripMetrics, filter_metric_batchOrder,
      app_nil_r.
  - intros [= <- <-]. exists [b], batches. split; [done|]. split; [done|].
    cbn [flat_map]. by rewrite filter_metric_roundTripMetrics, app_nil_r.
Qed.

(** The order calls are those of the batches the loop has completed: all
    batches when the loop completes, the batches before the one in which
    the sanitizer throws otherwise. *)
Lemma orderBatches_orders (clientId : string) (i : nat)
    (batches : list messageBatch) (effs : list effect) (r : result unit) :
  orderBatches env clientId i batches = (effs, r) →
  ∃ completed rest,
    batches = (completed ++ rest)%list
    ∧ (r = Ok tt → rest = [])
    ∧ List.filter is_order effs = flat_map (batchOrder clientId) completed.
Proof.
  revert i effs r. induction batches as [|b batches IH]; intros i effs r; cbn.
  { intros [= <- <-]. by exists [], []. }
  destruct (orderBatch_spec clientId i b) as [->|[e ->]].
  - destruct (orderBatches env clientId (S i) batches) as [effs' r'] eqn:Hrest.
    intros [= <- <-].
    destruct (IH _ _ _ Hrest) as (completed & rest & -> & Hrest' & Horders).
    exists (b :: completed), rest. split; [done|]. split; [done|].
    cbn [flat_map]. rewrite !List.filter_app, Horders.
    by rewrite filter_order_roundTripMetrics, filter_order_batchOrder.
  - intros [= <- <-]. exists [], (b :: batches). split; [done|]. split; [done|].
    by rewrite filter_order_roundTripMetrics.
Qed.

End SubmitFacts.

(** Two runs of [submitOp] on the same event that differ in the random
    draws and in the clock readings, and that both run to their end, have
    the same effects. *)
Lemma submitOp_draws (env env' : submit_env) (clientId : string)
    (batches : list messageBatch) (st : socket_state)
    (effs effs' : list effect) :
  submitOpThrottler env = submitOpThrottler env' →
  submitOp env clientId batches st = (effs, Ok tt) →
  submitOp env' clientId batches st = (effs', Ok tt) →
  effs = effs'.
Proof.
  unfold submitOp. intros <-.
  destruct (connectionsMap st !! clientId) as [connection|]; [|congruence].
  destruct (checkThrottle _ _); [congruence|].
  intros H H'. apply orderBatches_complete in H as ->.
  by apply orderBatches_complete in H' as ->.
Qed.

Section SubmitClaims.

Variable env : submit_env.

(** The effects of [submitOp] other than nacks come from the batch
    loop, which runs only for a client with an orderer connection that
    the limiter lets through. *)
Lemma submitOp_loop_effects (clientId : string)
    (batches : list messageBatch) (st : socket_state)
    (effs : list effect) (r : result unit) (x : effect) :
  submitOp env clientId batches st = (effs, r) →
  x ∈ effs → is_emit x = false →
  (∃ connection,
      connectionsMap st !! clientId = Some connection
      ∧ checkThrottle (submitOpThrottler env)
          (getSubmitOpThrottleId clientId (conn_tenantId connection)) = None)
  ∧ ∃ b, b ∈ batches
         ∧ (x ∈ roundTripMetrics (batch_messages b)
            ∨ x ∈ batchOrder clientId b).
Proof.
  unfold submitOp. intros H Hx Hemit.
  destruct (connectionsMap st !! clientId) as [connection|] eqn:Hc.
  - destruct (checkThrottle _ _) eqn:Ht.
    + simplify_eq. apply list_elem_of_singleton in Hx as ->. done.
    + split; [eauto|]. by eapply orderBatches_effects.
  - simplify_eq. apply list_elem_of_singleton in Hx as ->. done.
Qed.

(** C7.  Every message handed to [connection.order] by [submitOp] is
    the projection of an inbound message of the event that is not a
    round-trip probe: its properties are exactly the six whitelisted
    ones, each with the value the inbound message has for it
    ([undefined] when the inbound message lacks it), and no other
    property of the inbound message is present. *)
Theorem forwarded_fields (clientId : string) (batches : list messageBatch)
    (st : socket_state) (effs : list effect) (r : result unit)
    (c : string) (forwarded : list jsobj) (s : jsobj) :
  submitOp env clientId batches st = (effs, r) →
  ConnectionOrder c forwarded ∈ effs →
  s ∈ forwarded →
  ∃ b message,
    b ∈ batches ∧ message ∈ batch_messages b
    ∧ s = sanitizedMessage message
    ∧ dom s = list_to_set whitelist
    ∧ (∀ k, k ∈ whitelist → s !! k = Some (js_get message k))
    ∧ (∀ k, k ∉ whitelist → s !! k = None).
Proof.
  intros H Hx Hs.
  destruct (submitOp_loop_effects _ _ _ _ _ _ H Hx eq_refl)
    as (_ & b & Hb & [Hm|Ho]).
  { apply elem_of_roundTripMetrics in Hm as (? & _ & _ & _ & ?). done. }
  apply elem_of_batchOrder in Ho as [[= -> ->] _].
  apply list_elem_of_fmap in Hs as (message & -> & Hm).
  apply elem_of_keptMessages in Hm as [Hm _].
  exists b, message. split_and!; [done|done|done| | |].
  - apply set_eq. intros k. rewrite elem_of_dom, elem_of_list_to_set.
    rewrite sanitizedMessage_lookup. case_bool_decide; [|split; [|done]].
    + split; [done|eauto].
    + by intros [? ?].
  - intros k Hk. by rewrite sanitizedMessage_lookup, bool_decide_eq_true_2.
  - intros k Hk. by rewrite sanitizedMessage_lookup, bool_decide_eq_false_2.
Qed.

(** C8, as the code has it.  In every [submitOp] event, no message
    handed to [connection.order] is a round-trip probe, and every call to
    the metric sink is a latency sample carrying the traces of a
    round-trip probe of the event whose traces are truthy: a probe without
    traces gives rise to no call.  When the event passes the gates of the
    handler (the client has an orderer connection and the limiter lets
    the event through), the calls to the metric sink are, in order,
    exactly one per round-trip probe with traces in the batches the loop
    reaches, which are all batches unless the sanitizer throws.  When the
    event is answered with a nack (no orderer connection, or the limiter
    refuses), there is no call to the metric sink. *)
Theorem roundtrip_never_ordered (clientId : string)
    (batches : list messageBatch) (st : socket_state)
    (effs : list effect) (r : result unit) :
  submitOp env clientId batches st = (effs, r) →
  (∀ c forwarded s,
      ConnectionOrder c forwarded ∈ effs → s ∈ forwarded →
      isRoundTrip s = false)
  ∧ (∀ name traces,
       WriteLatencyMetric name traces ∈ effs →
       name = "latency"
       ∧ ∃ b message,
           b ∈ batches ∧ message ∈ batch_messages b
           ∧ isRoundTrip message = true
           ∧ truthy (js_get message "traces") = true
           ∧ traces = js_get message "traces")
  ∧ (∀ connection,
       connectionsMap st !! clientId = Some connection →
       checkThrottle (submitOpThrottler env)
         (getSubmitOpThrottleId clientId (conn_tenantId connection)) = None →
       ∃ reached rest,
         batches = (reached ++ rest)%list
         ∧ (r = Ok tt → rest = [])
         ∧ List.filter is_metric effs
           = flat_map (fun b => roundTripMetrics (batch_messages b)) reached)
  ∧ (connectionsMap st !! clientId = None
     ∨ (∃ connection throttleError,
          connectionsMap st !! clientId = Some connection
          ∧ checkThrottle (submitOpThrottler env)
              (getSubmitOpThrottleId clientId (conn_tenantId connection))
            = Some throttleError) →
     List.filter is_metric effs = []).
Proof.
  intros H. split_and!.
  - intros c forwarded s Hx Hs.
    destruct (submitOp_loop_effects _ _ _ _ _ _ H Hx eq_refl)
      as (_ & b & Hb & [Hm|Ho]).
    { apply elem_of_roundTripMetrics in Hm as (? & _ & _ & _ & ?). done. }
    apply elem_of_batchOrder in Ho as [[= -> ->] _].
    apply list_elem_of_fmap in Hs as (message & -> & Hm).
    apply elem_of_keptMessages in Hm as [_ Hm].
    by rewrite sanitizedMessage_type.
  - intros name traces Hx.
    destruct (submitOp_loop_effects _ _ _ _ _ _ H Hx eq_refl)
      as (_ & b & Hb & [Hm|Ho]).
    + apply elem_of_roundTripMetrics in Hm
        as (message & ? & ? & ? & [= -> ->]).
      split; [done|]. by exists b, message.
    + by apply elem_of_batchOrder in Ho as [? _].
  - intros connection Hc Ht. unfold submitOp in H. rewrite Hc, Ht in H.
    by eapply orderBatches_metrics.
  - unfold submitOp in H.
    intros [Hc|(connection & throttleError & Hc & Ht)].
    + rewrite Hc in H. by injection H as <- <-.
    + rewrite Hc, Ht in H. by injection H as <- <-.
Qed.

(** C5, as the code has it.  A batch is handed to [connection.order]
    only if the clientId is in [connectionsMap] at dispatch time and the
    submit-op limiter does not refuse the event; then the batches the loop
    completes (all of them unless the sanitizer throws) are forwarded in
    arrival order, each batch that has a message other than a round-trip
    probe giving one call.  When the limiter refuses, one nack with its
    [ThrottlingError] is emitted and nothing else happens.  When the
    clientId is not in [connectionsMap], exactly one nack is emitted and
    nothing else happens; on a socket whose [roomMap] and [scopeMap] have
    the same keys the nack is the one of the decision table. *)
Theorem submitOp_gating (clientId : string) (batches : list messageBatch)
    (st : socket_state) (effs : list effect) (r : result unit) :
  maps_aligned st →
  submitOp env clientId batches st = (effs, r) →
  (∀ c forwarded,
      ConnectionOrder c forwarded ∈ effs →
      c = clientId
      ∧ ∃ connection,
          connectionsMap st !! clientId = Some connection
          ∧ checkThrottle (submitOpThrottler env)
              (getSubmitOpThrottleId clientId (conn_tenantId connection))
            = None)
  ∧ (connectionsMap st !! clientId = None →
     r = Ok tt
     ∧ effs = [SocketEmit "nack"
                 (PNack EmptyString [nack_decision_table st clientId])])
  ∧ (∀ connection throttleError,
       connectionsMap st !! clientId = Some connection →
       checkThrottle (submitOpThrottler env)
         (getSubmitOpThrottleId clientId (conn_tenantId connection))
       = Some throttleError →
       r = Ok tt
       ∧ effs = [SocketEmit "nack"
                   (PNack EmptyString
                      [createNackMessage (throttle_code throttleError)
                         ThrottlingErrorType (throttle_message throttleError)
                         (Some (throttle_retryAfter throttleError))])])
  ∧ (∀ connection,
       connectionsMap st !! clientId = Some connection →
       checkThrottle (submitOpThrottler env)
         (getSubmitOpThrottleId clientId (conn_tenantId connection)) = None →
       Forall (fun x => is_emit x = false) effs
       ∧ ∃ completed rest,
           batches = (completed ++ rest)%list
           ∧ (r = Ok tt → rest = [])
           ∧ List.filter is_order effs
             = flat_map (batchOrder clientId) completed).
Proof.
  intros Hal H. split_and!.
  - intros c forwarded Hx.
    destruct (submitOp_loop_effects _ _ _ _ _ _ H Hx eq_refl)
      as (Hconn & b & Hb & [Hm|Ho]).
    { apply elem_of_roundTripMetrics in Hm as (? & _ & _ & _ & ?). done. }
    apply elem_of_batchOrder in Ho as [[= -> ->] _]. done.
  - intros Hc. unfold submitOp in H. rewrite Hc in H.
    injection H as <- <-. split; [done|]. do 3 f_equal.
    unfold nack_decision_table.
    destruct (roomMap st !! clientId) as [room|] eqn:Hroom.
    + rewrite bool_decide_eq_true_2 by eauto.
      by destruct (scopeMap st !! clientId) as [scopes|];
        [destruct (hasWriteAccess scopes)|].
    + assert (scopeMap st !! clientId = None) as ->.
      { apply not_elem_of_dom. unfold maps_aligned in Hal. rewrite <- Hal.
        by apply not_elem_of_dom. }
      rewrite bool_decide_eq_false_2; [done|]. by intros [? ?].
  - intros connection throttleError Hc Ht. unfold submitOp in H.
    rewrite Hc, Ht in H. by injection H as <- <-.
  - intros connection Hc Ht. unfold submitOp in H. rewrite Hc, Ht in H.
    split; [|by eapply orderBatches_orders].
    apply Forall_forall. intros x Hx.
    destruct (orderBatches_effects _ _ _ _ _ _ _ H Hx) as (b & _ & [Hm|Ho]).
    + by apply elem_of_roundTripMetrics in Hm as (? & _ & _ & _ & ->).
    + by apply elem_of_batchOrder in Ho as [-> _].
Qed.

End SubmitClaims.

(** ** The statements on concrete events *)

(** C1, counterexample: the registry refuses the client (an internal
    fault).  The socket gets the 500 error, and the in-flight clientId
    [c1], which was in neither map before, is in [roomMap] and in
    [scopeMap] afterwards. *)
Lemma registry_fault_keeps_room_and_scope :
  let env := sample_env "c1" (sample_claims [ScopeType_DocWrite] 0 1000) [] 5 false in
  let message := sample_connect (Some sample_client) (Some ["^0.4.0"]) "write" in
  let out := on_connect_document caret_intersects (sample_cfg 10 false) env
               message initial_state in
  last (snd out)
  = Some (SocketEmit "connect_document_error"
            (PConnectError
               (RejectWith 500 "Failed to connect client to document." None)))
  ∧ roomMap initial_state !! "c1" = None
  ∧ scopeMap initial_state !! "c1" = None
  ∧ roomMap (fst out) !! "c1"
    = Some {| room_tenantId := "t"; room_documentId := "d" |}
  ∧ scopeMap (fst out) !! "c1" = Some [ScopeType_DocWrite].
Proof. vm_compute. repeat split; reflexivity. Qed.

(** C3, witness: an accepted request without [versions]. *)
Lemma absent_versions_default_witness :
  let env := sample_env "c1" (sample_claims [ScopeType_DocWrite] 0 1000) [] 5 true in
  ∃ st' effs m,
    connectDocument caret_intersects (sample_cfg 10 false) env
      (sample_connect (Some sample_client) None "write") initial_state
    = (st', effs, inr m)
    ∧ connected_version (connection m) = "^0.1.0".
Proof.
  intros env. eexists _, _, _. split; [reflexivity|].
  destruct (absent_versions_default (sample_cfg 10 false) env "t" "d"
              (Some "jwt") (Some sample_client) "write" initial_state)
    as (_ & _ & _ & Hversion & _).
  eapply Hversion. reflexivity.
Defined.

(** C3, counterexample: the same request with [versions: []] is rejected
    with the 400 error, while with [versions: ["^0.1.0"]] it is accepted
    with version [^0.1.0]. *)
Lemma empty_versions_rejected :
  let env := sample_env "c1" (sample_claims [ScopeType_DocWrite] 0 1000) [] 5 true in
  snd (on_connect_document caret_intersects (sample_cfg 10 false) env
         (sample_connect (Some sample_client) (Some []) "write") initial_state)
  = [SocketJoin "t/d"; SocketJoin "client#c1";
     SocketEmit "connect_document_error"
       (PConnectError
          (RejectWith 400
             "Unsupported client protocol. Server: ^0.4.0,^0.3.0,^0.2.0,^0.1.0. Client: []"
             None))]
  ∧ ∃ st' effs m,
      connectDocument caret_intersects (sample_cfg 10 false) env
        (sample_connect (Some sample_client) (Some ["^0.1.0"]) "write")
        initial_state
      = (st', effs, inr m)
      ∧ connected_version (connection m) = "^0.1.0".
Proof.
  intros env. split; [vm_compute; reflexivity|].
  eexists _, _, _. split; reflexivity.
Qed.

(** C4, witness: a limit of two and a registry that reports three. *)
Lemma quota_rejects_above_limit_witness :
  let clients := [sample_signal_client "a"; sample_signal_client "b";
                  sample_signal_client "c"] in
  let env := sample_env "c4" (sample_claims [ScopeType_DocWrite] 0 1000)
               clients 5 true in
  snd (on_connect_document caret_intersects (sample_cfg 2 false) env
         (sample_connect (Some sample_client) (Some ["^0.4.0"]) "write")
         initial_state)
  = [SocketJoin "t/d"; SocketJoin "client#c4";
     SocketEmit "connect_document_error"
       (PConnectError
          (RejectWith 429 "Too Many Clients Connected to Document" (Some 300)))].
Proof.
  intros clients env.
  destruct (quota_rejects_above_limit caret_intersects (sample_cfg 2 false) env
              (sample_connect (Some sample_client) (Some ["^0.4.0"]) "write")
              initial_state "jwt" (sample_claims [ScopeType_DocWrite] 0 1000)
              "^0.4.0" clients
              ltac:(reflexivity) ltac:(reflexivity) ltac:(discriminate)
              ltac:(reflexivity) ltac:(reflexivity) ltac:(reflexivity)
              ltac:(reflexivity) ltac:(vm_compute; reflexivity)
              ltac:(reflexivity)) as [Habove _].
  apply Habove. vm_compute. reflexivity.
Defined.

(** C4, counterexample: a limit of two and a registry that reports exactly
    two clients.  The request is accepted: the socket gets
    [connect_document_success] and no error. *)
Lemma quota_passes_at_limit :
  let clients := [sample_signal_client "a"; sample_signal_client "b"] in
  let env := sample_env "c3" (sample_claims [ScopeType_DocWrite] 0 1000)
               clients 5 true in
  let out := on_connect_document caret_intersects (sample_cfg 2 false) env
               (sample_connect (Some sample_client) (Some ["^0.4.0"]) "write")
               initial_state in
  List.length clients = 2%nat
  ∧ maxNumberOfClientsPerDocument (sample_cfg 2 false) = 2
  ∧ (∃ c client,
       List.filter is_emit (snd out)
       = [SocketEmit "connect_document_success" (PConnected c);
          SocketEmitToRoom "t/d" "signal" (PRoomJoin "c3" client)]
       ∧ connected_initialClients c = clients)
  ∧ is_Some (connectionsMap (fst out) !! "c3").
Proof.
  intros clients env out. split; [reflexivity|]. split; [reflexivity|].
  split.
  - eexists _, _. split; vm_compute; reflexivity.
  - vm_compute. eauto.
Qed.

(** C6, witness: a token with [DocWrite] and [SummaryWrite] presented by a
    client of type [container]. *)
Lemma summary_write_stripped_witness :
  let env := sample_env "c1"
               (sample_claims [ScopeType_DocWrite; ScopeType_SummaryWrite] 0 1000)
               [] 5 true in
  ∃ st' effs m,
    connectDocument caret_intersects (sample_cfg 10 false) env
      (sample_connect (Some sample_client) (Some ["^0.4.0"]) "write")
      initial_state
    = (st', effs, inr m)
    ∧ scopeMap st' !! "c1" = Some [ScopeType_DocWrite]
    ∧ details m !! "scopes" = Some (JArr [JStr ScopeType_DocWrite]).
Proof.
  intros env. eexists _, _, _. split; [reflexivity|].
  destruct (summary_write_stripped caret_intersects (sample_cfg 10 false) env
              (sample_connect (Some sample_client) (Some ["^0.4.0"]) "write")
              initial_state _ _ _ eq_refl)
    as (scopes & Hmap & _ & Hscopes & _ & Hdetails).
  { vm_compute. discriminate. }
  assert (scopes = [ScopeType_DocWrite]) as -> by (rewrite Hscopes; reflexivity).
  split; [exact Hmap | exact Hdetails].
Defined.

(** C5, witness: the reader [r] of the sample socket submits an op. *)
Lemma submitOp_gating_witness :
  let env := sample_submit_env false 1 in
  submitOp env "r" [Single (sample_op "op")] sample_state
  = ([SocketEmit "nack"
        (PNack EmptyString
           [createNackMessage 403 InvalidScopeError "Invalid scope" None])],
     Ok tt).
Proof.
  intros env.
  assert (Hal : maps_aligned sample_state) by (vm_compute; reflexivity).
  destruct (submitOp env "r" [Single (sample_op "op")] sample_state)
    as [effs r] eqn:Hrun.
  destruct (submitOp_gating env "r" [Single (sample_op "op")] sample_state
              effs r Hal Hrun) as (_ & Hnack & _).
  destruct Hnack as [-> ->]; [vm_compute; reflexivity|].
  vm_compute. reflexivity.
Defined.

(** C5, counterexample: the writer [w] of the sample socket is in
    [connectionsMap], the limiter refuses the event: nothing is handed to
    [connection.order], and a nack is emitted. *)
Lemma throttled_writer_not_forwarded :
  let out := submitOp (sample_submit_env true 1) "w"
               [Single (sample_op "op")] sample_state in
  is_Some (connectionsMap sample_state !! "w")
  ∧ out = ([SocketEmit "nack"
              (PNack EmptyString
                 [createNackMessage 429 ThrottlingErrorType
                    "Too many requests" (Some 10)])],
           Ok tt)
  ∧ List.filter is_order (fst out) = [].
Proof.
  split; [vm_compute; eauto|]. split; vm_compute; reflexivity.
Qed.

(** C7, witness: the writer [w] submits an op with a property [secret];
    what reaches the orderer has no such property. *)
Lemma forwarded_fields_witness :
  let env := sample_submit_env false 1 in
  submitOp env "w" [Single (sample_op "op")] sample_state
  = ([ConnectionOrder "w" [sanitizedMessage (sample_op "op")]], Ok tt)
  ∧ sample_op "op" !! "secret" = Some (JStr "y")
  ∧ sanitizedMessage (sample_op "op") !! "secret" = None
  ∧ dom (sanitizedMessage (sample_op "op")) = list_to_set whitelist.
Proof.
  intros env.
  assert (Hrun : submitOp env "w" [Single (sample_op "op")] sample_state
                 = ([ConnectionOrder "w" [sanitizedMessage (sample_op "op")]],
                    Ok tt)) by (vm_compute; reflexivity).
  destruct (forwarded_fields env "w" [Single (sample_op "op")] sample_state
              _ _ "w" [sanitizedMessage (sample_op "op")]
              (sanitizedMessage (sample_op "op")) Hrun)
    as (b & message & _ & _ & _ & Hdom & _ & Hnone).
  { apply list_elem_of_singleton. reflexivity. }
  { apply list_elem_of_singleton. reflexivity. }
  split; [exact Hrun|]. split; [vm_compute; reflexivity|].
  split; [|exact Hdom].
  apply Hnone. unfold whitelist. intros Hin.
  repeat (apply elem_of_cons in Hin as [Hin|Hin]; [discriminate Hin|]).
  by apply elem_of_nil in Hin.
Defined.

(** C8, witness: the writer [w] submits an op, a round-trip probe without
    traces and a round-trip probe with traces. *)
Lemma roundtrip_never_ordered_witness :
  let env := sample_submit_env false 1 in
  let probe := <["traces" := JArr [JStr "span"]]> (sample_op MessageType_RoundTrip) in
  let batches := [Single (sample_op "op");
                  Several [sample_op MessageType_RoundTrip; probe]] in
  List.filter is_metric (fst (submitOp env "w" batches sample_state))
  = [WriteLatencyMetric "latency" (JArr [JStr "span"])]
  ∧ List.filter is_order (fst (submitOp env "w" batches sample_state))
    = [ConnectionOrder "w" [sanitizedMessage (sample_op "op")]].
Proof.
  intros env probe batches.
  destruct (submitOp env "w" batches sample_state) as [effs r] eqn:Hrun.
  destruct (roundtrip_never_ordered env "w" batches sample_state effs r Hrun)
    as (_ & _ & Hmetrics & _).
  assert (Hr : r = Ok tt).
  { change r with (snd (effs, r)). rewrite <- Hrun. vm_compute. reflexivity. }
  destruct (Hmetrics sample_connection eq_refl eq_refl)
    as (reached & rest & Hbatches & Hrest & Hcalls).
  rewrite (Hrest Hr), app_nil_r in Hbatches. subst reached.
  split.
  - cbn [fst]. rewrite Hcalls. reflexivity.
  - change effs with (fst (effs, r)). rewrite <- Hrun. vm_compute. reflexivity.
Defined.

(** C8, counterexample: the reader [r] of the sample socket, which has no
    orderer connection, submits a round-trip probe that carries traces.
    The event is answered with a nack and the traces are not submitted to
    the metric sink. *)
Lemma reader_probe_not_measured :
  let probe := <["traces" := JArr [JStr "span"]]> (sample_op MessageType_RoundTrip) in
  let out := submitOp (sample_submit_env false 1) "r" [Single probe] sample_state in
  isRoundTrip probe = true
  ∧ js_get probe "traces" = JArr [JStr "span"]
  ∧ out = ([SocketEmit "nack"
              (PNack EmptyString
                 [createNackMessage 403 InvalidScopeError "Invalid scope" None])],
           Ok tt)
  ∧ List.filter is_metric (fst out) = [].
Proof. split_and!; reflexivity. Qed.

(** The sample socket is a socket after two accepted requests: a writer
    [w], then a reader [r]. *)
Example sample_state_reachable :
  reachable caret_intersects (sample_cfg 10 false) sample_state.
Proof.
  pose (ev_w := OnConnectDocument
                  (sample_env "w"
                     (sample_claims [ScopeType_DocRead; ScopeType_DocWrite] 0 1000)
                     [] 5 true)
                  (sample_connect (Some sample_client) (Some ["^0.4.0"]) "write")).
  pose (ev_r := OnConnectDocument
                  (sample_env "r" (sample_claims [ScopeType_DocRead] 0 1000)
                     [sample_signal_client "w"] 6 true)
                  (sample_connect (Some sample_client) (Some ["^0.4.0"]) "write")).
  assert (H : sample_state
              = fst (dispatch caret_intersects (sample_cfg 10 false) ev_r
                       (fst (dispatch caret_intersects (sample_cfg 10 false) ev_w
                               initial_state))))
    by (vm_compute; reflexivity).
  rewrite H. do 2 apply reachable_dispatch. apply reachable_initial.
Qed.

(** * Further properties of the handlers *)

(** ** Negotiator: the loops, whatever [semver.intersects] answers *)

Section NegotiatorLoops.

Variable intersects : string -> string -> result bool.

Lemma firstIntersecting_some (servers : list string) (c p : string) :
  firstIntersecting intersects servers c = Ok (Some p)
  ↔ ∃ spre spost,
      servers = (spre ++ p :: spost)%list
      ∧ (∀ q, q ∈ spre → intersects q c = Ok false)
      ∧ intersects p c = Ok true.
Proof.
  induction servers as [|s servers IH]; simpl.
  { split; [done|]. intros (spre & ? & ? & _). by destruct spre. }
  split.
  - destruct (intersects s c) as [[|]|] eqn:Hs; [| |done].
    + intros [= <-]. exists [], servers. split; [done|]. split; [|done].
      intros q Hq. by apply elem_of_nil in Hq.
    + intros H. apply IH in H as (spre & spost & -> & Hpre & Hp).
      exists (s :: spre), spost. split; [done|]. split; [|done].
      intros q Hq. apply elem_of_cons in Hq as [->|Hq]; [done|by apply Hpre].
  - intros (spre & spost & Heq & Hpre & Hp).
    destruct spre as [|s' spre]; simplify_eq/=.
    + by rewrite Hp.
    + rewrite (Hpre s') by (apply elem_of_cons; by left).
      apply IH. exists spre, spost. split; [done|]. split; [|done].
      intros q Hq. apply Hpre. apply elem_of_cons; by right.
Qed.

Lemma firstIntersecting_none (servers : list string) (c : string) :
  firstIntersecting intersects servers c = Ok None
  ↔ ∀ q, q ∈ servers → intersects q c = Ok false.
Proof.
  induction servers as [|s servers IH]; simpl.
  { split; [|done]. intros _ q Hq. by apply elem_of_nil in Hq. }
  split.
  - destruct (intersects s c) as [[|]|] eqn:Hs; [done| |done].
    intros H q Hq. apply elem_of_cons in Hq as [->|Hq]; [done|].
    by apply IH.
  - intros H. rewrite (H s) by (apply elem_of_cons; by left).
    apply IH. intros q Hq. apply H. apply elem_of_cons; by right.
Qed.

(** X1.  [selectProtocolVersion] returns the range [p] exactly when the
    offered list has a first range [c] that some server range intersects,
    [p] is the first range of [protocolVersions] that intersects [c], and
    every call to [semver.intersects] made before that one returned
    [false] (none threw). *)
Theorem selectProtocolVersion_some_iff (clients : list string) (p : string) :
  selectProtocolVersion intersects clients = Ok (Some p)
  ↔ ∃ pre c post spre spost,
      clients = (pre ++ c :: post)%list
      ∧ protocolVersions = (spre ++ p :: spost)%list
      ∧ (∀ c' q, c' ∈ pre → q ∈ protocolVersions →
                 intersects q c' = Ok false)
      ∧ (∀ q, q ∈ spre → intersects q c = Ok false)
      ∧ intersects p c = Ok true.
Proof.
  induction clients as [|c0 clients IH]; cbn [selectProtocolVersion].
  { split; [done|]. intros (pre & ? & ? & ? & ? & ? & _). by destruct pre. }
  split.
  - destruct (firstIntersecting intersects protocolVersions c0)
      as [[q|]|] eqn:Hfirst; [| |done].
    + intros [= ->]. apply firstIntersecting_some in Hfirst
        as (spre & spost & Hs & Hpre & Hp).
      exists [], c0, clients, spre, spost. split_and!; try done.
      intros c' q Hc'. by apply elem_of_nil in Hc'.
    + intros H. apply IH in H
        as (pre & c & post & spre & spost & -> & Hs & Hpre & Hspre & Hp).
      exists (c0 :: pre), c, post, spre, spost. split_and!; try done.
      intros c' q Hc' Hq. apply elem_of_cons in Hc' as [->|Hc'].
      * by eapply firstIntersecting_none.
      * by apply Hpre.
  - intros (pre & c & post & spre & spost & Hc & Hs & Hpre & Hspre & Hp).
    destruct pre as [|c1 pre]; simpl in Hc; injection Hc as -> ->.
    + assert (firstIntersecting intersects protocolVersions c = Ok (Some p))
        as ->; [|done].
      apply firstIntersecting_some. by exists spre, spost.
    + assert (firstIntersecting intersects protocolVersions c1 = Ok None) as ->.
      { apply firstIntersecting_none. intros q Hq. apply Hpre; [|done].
        apply elem_of_cons; by left. }
      apply IH. exists pre, c, post, spre, spost. split_and!; try done.
      intros c' q Hc' Hq. apply Hpre; [|done]. apply elem_of_cons; by right.
Qed.

(** X2.  [selectProtocolVersion] returns [undefined] exactly when every
    call [semver.intersects(protocolVersion, connectVersion)], for every
    offered range and every server range, returns [false]; in particular
    on the empty list. *)
Theorem selectProtocolVersion_none_iff (clients : list string) :
  selectProtocolVersion intersects clients = Ok None
  ↔ ∀ c q, c ∈ clients → q ∈ protocolVersions → intersects q c = Ok false.
Proof.
  induction clients as [|c0 clients IH]; cbn [selectProtocolVersion].
  { split; [|done]. intros _ c q Hc. by apply elem_of_nil in Hc. }
  split.
  - destruct (firstIntersecting intersects protocolVersions c0)
      as [[q|]|] eqn:Hfirst; [done| |done].
    intros H c q Hc Hq. apply elem_of_cons in Hc as [->|Hc].
    + by eapply firstIntersecting_none.
    + by apply IH.
  - intros H.
    assert (firstIntersecting intersects protocolVersions c0 = Ok None) as ->.
    { apply firstIntersecting_none. intros q Hq. apply H; [|done].
      apply elem_of_cons; by left. }
    apply IH. intros c q Hc Hq. apply H; [|done]. apply elem_of_cons; by right.
Qed.

(** X3.  Ranges offered after the deciding one are not looked at: the
    outcome on [clients ++ more] is the outcome on [clients] when that is
    a version or an exception, and the outcome on [more] when [clients]
    has no intersection. *)
Theorem selectProtocolVersion_app (clients more : list string) :
  selectProtocolVersion intersects (clients ++ more)%list
  = match selectProtocolVersion intersects clients with
    | Ok None => selectProtocolVersion intersects more
    | outcome => outcome
    end.
Proof.
  induction clients as [|c clients IH]; [done|].
  cbn [selectProtocolVersion app].
  by destruct (firstIntersecting intersects protocolVersions c) as [[q|]|].
Qed.

End NegotiatorLoops.

(** X1, on the offer [^1.0.0, ^0.2.3, ^0.4.0]: the first range meets no
    server range, the second decides. *)
Lemma selectProtocolVersion_some_iff_witness :
  selectProtocolVersion caret_intersects ["^1.0.0"; "^0.2.3"; "^0.4.0"]
  = Ok (Some "^0.2.0").
Proof.
  apply (selectProtocolVersion_some_iff caret_intersects).
  exists ["^1.0.0"], "^0.2.3", ["^0.4.0"], ["^0.4.0"; "^0.3.0"], ["^0.1.0"].
  split; [reflexivity|]. split; [reflexivity|]. split; [|split].
  - intros c' q Hc'. apply list_elem_of_singleton in Hc' as ->.
    revert q. apply Forall_forall. unfold protocolVersions.
    repeat first [apply Forall_nil_2 | apply Forall_cons_2; [reflexivity|]].
  - apply Forall_forall.
    repeat first [apply Forall_nil_2 | apply Forall_cons_2; [reflexivity|]].
  - reflexivity.
Defined.

(** ** Room identifiers *)

Lemma slash_free_split (a b c d : string) :
  slash_free a = true → slash_free c = true →
  a ++ "/" ++ b = c ++ "/" ++ d → a = c ∧ b = d.
Proof.
  revert c. induction a as [|x a IH]; intros [|y c] Ha Hc H;
    cbv [String.append] in H; fold String.append in H.
  - by injection H as ->.
  - injection H as <- _. discriminate Hc.
  - injection H as -> _. discriminate Ha.
  - cbn in Ha, Hc.
    apply andb_true_iff in Ha as [_ Ha]. apply andb_true_iff in Hc as [_ Hc].
    injection H as -> H. by destruct (IH c Ha Hc H) as [-> ->].
Qed.

(** X4.  Two rooms whose tenant ids contain no [/] have the same room id
    only when they are the same room.  (With a [/] in a tenant id the
    rooms of different documents can share an id, see
    [getRoomId_collision].) *)
Theorem getRoomId_inj (room1 room2 : IRoom) :
  slash_free (room_tenantId room1) = true →
  slash_free (room_tenantId room2) = true →
  getRoomId room1 = getRoomId room2 → room1 = room2.
Proof.
  destruct room1 as [t1 d1], room2 as [t2 d2]. unfold getRoomId. simpl.
  intros H1 H2 H. by destruct (slash_free_split _ _ _ _ H1 H2 H) as [-> ->].
Qed.

Example getRoomId_collision :
  getRoomId {| room_tenantId := "a/b"; room_documentId := "c" |}
  = getRoomId {| room_tenantId := "a"; room_documentId := "b/c" |}.
Proof. reflexivity. Qed.

(** ** Sanitizer on its own output *)

Lemma js_get_sanitizedMessage (message : jsobj) (k : string) :
  k ∈ whitelist → js_get (sanitizedMessage message) k = js_get message k.
Proof.
  intros Hk. unfold js_get at 1.
  by rewrite sanitizedMessage_lookup, bool_decide_eq_true_2.
Qed.

(** X5.  A sanitized message has no [operation] property, so trace
    sampling never fires on it, and sanitizing it again, whatever the
    draw, returns it unchanged: [sanitizeMessage] is idempotent. *)
Theorem sanitizeMessage_idempotent (rnd now : Z) (message : jsobj) :
  sanitizeMessage rnd now (sanitizedMessage message)
  = Ok (sanitizedMessage message, sanitizedMessage message).
Proof.
  assert (Hproj : sanitizedMessage (sanitizedMessage message)
                  = sanitizedMessage message).
  { unfold sanitizedMessage at 1.
    rewrite !js_get_sanitizedMessage by (unfold whitelist; set_solver).
    done. }
  unfold sanitizeMessage, traceSampling.
  assert (js_get (sanitizedMessage message) "operation" = JUndefined) as ->.
  { unfold js_get. rewrite sanitizedMessage_lookup, bool_decide_eq_false_2; [done|].
    unfold whitelist. set_solver. }
  simpl. by rewrite Hproj.
Qed.

(** ** Connect pipeline: where a request is rejected, and what it has done
    by then *)

Ltac string_tests :=
  repeat match goal with
         | H : String.eqb _ _ = true |- _ => apply String.eqb_eq in H; subst
         | H : String.eqb _ _ = false |- _ => apply String.eqb_neq in H
         | H : (_ <? _) = true |- _ => apply Z.ltb_lt in H
         | H : (_ <? _) = false |- _ => apply Z.ltb_ge in H
         end.

Ltac close_fact :=
  first [ reflexivity | eassumption | done
        | left; reflexivity | right; reflexivity
        | left; split; reflexivity
        | right; eexists; split; reflexivity ].

(** Closes the goal of a rejection branch once the step is known. *)
Ltac reject_at_facts :=
  string_tests; cbn beta iota zeta delta [before_token_verified];
  repeat match goal with
         | |- _ ∧ _ => split
         | |- ∃ _, _ => eexists
         end;
  close_fact.

Section ConnectRuns.

Variable intersects : string -> string -> result bool.
Variable cfg : config.
Variable env : connect_env.

(** A rejected pipeline, step by step: the rejection, the calls made so
    far and the state left behind. *)
Lemma connectDocument_reject_at (message : IConnect) (st st' : socket_state)
    (effs : list effect) (stage : connect_stage) (e : rejection) :
  connectDocument intersects cfg env message st = (st', effs, inl (stage, e)) →
  if before_token_verified stage then
    effs = [] ∧ st' = st
    ∧ match stage with
      | AtThrottle =>
          ∃ t, checkThrottle (connectThrottler env)
                 (getSocketConnectThrottleId (connect_tenantId message)) = Some t
               ∧ e = reject_throttled t
      | AtTokenPresence =>
          e = RejectWith 403 "Must provide an authorization token" None
          ∧ (connect_token message = None
             ∨ connect_token message = Some EmptyString)
      | AtTokenValidation =>
          ∃ token, connect_token message = Some token
                   ∧ validateTokenClaims env token (connect_id message)
                       (connect_tenantId message) = inl e
      | _ =>
          ∃ token claims err,
            connect_token message = Some token
            ∧ validateTokenClaims env token (connect_id message)
                (connect_tenantId message) = inr claims
            ∧ verifyToken env (claims_tenantId claims) token = Some err
            ∧ e = RejectWith (default 401 (response_status err))
                             (default "Invalid token" (response_data err)) None
      end
  else
    ∃ token claims,
      connect_token message = Some token ∧ token ≠ EmptyString
      ∧ validateTokenClaims env token (connect_id message)
          (connect_tenantId message) = inr claims
      ∧ verifyToken env (claims_tenantId claims) token = None
      ∧ let clientId := generateClientId env in
        let scopes := clientScopes claims (requestClient message) in
        let committed :=
          set_roomMap clientId (claimsRoom claims)
            (set_scopeMap clientId scopes st) in
        let full :=
          writerCalls claims clientId
            (stampClient claims (Date_now env) (requestClient message)) in
        let fault :=
          RejectWith 500 "Failed to connect client to document." None in
        match stage with
        | AtRoomJoin => effs = take 2 full ∧ st' = st ∧ e = fault
        | AtProtocolNegotiation =>
            effs = take 2 full ∧ st' = committed
            ∧ ((selectProtocolVersion intersects (requestVersions message)
                = Ok None
                ∧ e = RejectWith 400
                        ("Unsupported client protocol. " ++
                         "Server: " ++ String.concat "," protocolVersions
                         ++ ". " ++
                         "Client: " ++ JSON_stringify (requestVersions message))
                        None)
               ∨ ∃ x, selectProtocolVersion intersects (requestVersions message)
                      = Throw x
                      ∧ e = RejectThrown x)
        | AtClientList => effs = take 2 full ∧ st' = committed ∧ e = fault
        | AtQuota =>
            effs = take 2 full ∧ st' = committed
            ∧ e = RejectWith 429 "Too Many Clients Connected to Document"
                             (Some 300)
        | AtRegistryAdd => effs = take 3 full ∧ st' = committed ∧ e = fault
        | AtExpiration =>
            effs = take 3 full ∧ st' = committed
            ∧ isTokenExpiryEnabled cfg = true
            ∧ validateTokenClaimsExpiration env claims
                (maxTokenLifetimeSec cfg) (expiry_now env) = inl e
        | _ =>
            (effs = take 3 full ∨ effs = take 4 full) ∧ e = fault
            ∧ isWriter scopes (connect_mode message) = true
            ∧ (if isTokenExpiryEnabled cfg
               then ∃ lifeTimeMSec,
                   validateTokenClaimsExpiration env claims
                     (maxTokenLifetimeSec cfg) (expiry_now env)
                   = inr lifeTimeMSec
                   ∧ st' = setExpirationTimer (expiry_now env) lifeTimeMSec
                             committed
               else st' = committed)
        end.
Proof.
  intros H. unfold connectDocument in H. cbv zeta in H.
  do 15 (connect_step H reject_at_facts).
  all: apply bind_inv in H as [(? & Hw & ?) | (? & ? & ? & ? & Hw & H & ?)];
    simplify_eq.
  all: destruct (isWriter _ _) eqn:Hwriter; [|connect_done Hw].
  all: do 5 (connect_step Hw reject_at_facts).
  all: connect_done Hw.
Qed.

(** An accepted pipeline: the answers it has met, the state it leaves and
    the response it returns. *)
Lemma connectDocument_accept_at (message : IConnect) (st st' : socket_state)
    (effs : list effect) (m : IConnectedClient) :
  connectDocument intersects cfg env message st = (st', effs, inr m) →
  ∃ token claims version clients,
    connect_token message = Some token ∧ token ≠ EmptyString
    ∧ validateTokenClaims env token (connect_id message)
        (connect_tenantId message) = inr claims
    ∧ verifyToken env (claims_tenantId claims) token = None
    ∧ selectProtocolVersion intersects (requestVersions message)
      = Ok (Some version)
    ∧ getClients env (claims_tenantId claims) (claims_documentId claims)
      = Some clients
    ∧ let clientId := generateClientId env in
      let scopes := clientScopes claims (requestClient message) in
      let messageClient :=
        stampClient claims (Date_now env) (requestClient message) in
      let committed :=
        set_roomMap clientId (claimsRoom claims)
          (set_scopeMap clientId scopes st) in
      let full := writerCalls claims clientId messageClient in
      details m = messageClient
      ∧ connectVersions m = requestVersions message
      ∧ ∃ timed,
          (if isTokenExpiryEnabled cfg
           then ∃ lifeTimeMSec,
               validateTokenClaimsExpiration env claims
                 (maxTokenLifetimeSec cfg) (expiry_now env) = inr lifeTimeMSec
               ∧ timed = setExpirationTimer (expiry_now env) lifeTimeMSec
                           committed
           else timed = committed)
          ∧ if isWriter scopes (connect_mode message)
            then ∃ orderer c,
                getOrderer env (claims_tenantId claims)
                  (claims_documentId claims) = Some orderer
                ∧ orderer_connect orderer clientId messageClient = Some c
                ∧ st' = set_connectionsMap clientId c timed
                ∧ effs = full
                ∧ connection m
                  = {| connected_claims := claims;
                       connected_clientId := clientId;
                       connected_existing := true;
                       connected_maxMessageSize := conn_maxMessageSize c;
                       connected_mode := "write";
                       connected_serviceConfiguration :=
                         {| blockSize :=
                              blockSize (conn_serviceConfiguration c);
                            maxMessageSize :=
                              maxMessageSize (conn_serviceConfiguration c);
                            summary :=
                              summary (conn_serviceConfiguration c) |};
                       connected_initialClients := clients;
                       connected_initialMessages := [];
                       connected_initialSignals := [];
                       connected_supportedVersions := protocolVersions;
                       connected_version := version;
                       connected_timestamp := Date_now env |}
            else st' = timed ∧ effs = take 3 full
                 ∧ connection m
                   = {| connected_claims := claims;
                        connected_clientId := clientId;
                        connected_existing := true;
                        connected_maxMessageSize := 1024;
                        connected_mode := "read";
                        connected_serviceConfiguration :=
                          {| blockSize :=
                               blockSize (DefaultServiceConfiguration cfg);
                             maxMessageSize :=
                               maxMessageSize (DefaultServiceConfiguration cfg);
                             summary :=
                               summary (DefaultServiceConfiguration cfg) |};
                        connected_initialClients := clients;
                        connected_initialMessages := [];
                        connected_initialSignals := [];
                        connected_supportedVersions := protocolVersions;
                        connected_version := version;
                        connected_timestamp := Date_now env |}.
Proof.
  intros H. unfold connectDocument in H. cbv zeta in H.
  do 15 (connect_step H idtac).
  all: apply bind_inv in H as [(? & Hw & ?) | (? & ? & ? & ? & Hw & H & ?)];
    simplify_eq.
  all: connect_done H.
  all: destruct (isWriter _ _) eqn:Hwriter;
    [ do 5 (connect_step Hw idtac) | ]; connect_done Hw.
  all: string_tests.
  all: repeat (cbn beta iota zeta;
               match goal with
               | |- _ ∧ _ => split
               | |- ∃ _, _ => eexists
               | |- if isWriter _ _ then _ else _ => rewrite Hwriter
               end).
  all: close_fact.
Qed.

End ConnectRuns.

Lemma selectProtocolVersion_elem (intersects : string -> string -> result bool)
    (clients : list string) (p : string) :
  selectProtocolVersion intersects clients = Ok (Some p) →
  p ∈ protocolVersions.
Proof.
  induction clients as [|c clients IH]; [done|]. cbn [selectProtocolVersion].
  destruct (firstIntersecting intersects protocolVersions c)
    as [[q|]|] eqn:Hfirst; [| done |done].
  intros [= ->]. apply firstIntersecting_some in Hfirst as (spre & spost & -> & _).
  apply elem_of_app. right. apply elem_of_cons. by left.
Qed.

Section VerifiedToken.

Variable intersects : string -> string -> result bool.
Variable cfg : config.
Variable env : connect_env.

(** The first four steps of the pipeline, run forward. *)
Lemma connectDocument_throttled (message : IConnect) (st : socket_state)
    (t : ThrottlingError) :
  checkThrottle (connectThrottler env)
    (getSocketConnectThrottleId (connect_tenantId message)) = Some t →
  connectDocument intersects cfg env message st
  = (st, [], inl (AtThrottle, reject_throttled t)).
Proof.
  intros Ht. unfold connectDocument.
  unfold mbind, connectM_bind, mret, connectM_ret, reject. by rewrite Ht.
Qed.

Lemma connectDocument_no_token (message : IConnect) (st : socket_state) :
  checkThrottle (connectThrottler env)
    (getSocketConnectThrottleId (connect_tenantId message)) = None →
  connect_token message = None ∨ connect_token message = Some EmptyString →
  connectDocument intersects cfg env message st
  = (st, [], inl (AtTokenPresence,
                  RejectWith 403 "Must provide an authorization token" None)).
Proof.
  intros Ht Htoken. unfold connectDocument.
  unfold mbind, connectM_bind, mret, connectM_ret, reject. rewrite Ht.
  by destruct Htoken as [-> | ->].
Qed.

Lemma connectDocument_invalid_token (message : IConnect) (st : socket_state)
    (token : string) (e : rejection) :
  checkThrottle (connectThrottler env)
    (getSocketConnectThrottleId (connect_tenantId message)) = None →
  connect_token message = Some token → token ≠ EmptyString →
  validateTokenClaims env token (connect_id message)
    (connect_tenantId message) = inl e →
  connectDocument intersects cfg env message st
  = (st, [], inl (AtTokenValidation, e)).
Proof.
  intros Ht Htoken Hne%String.eqb_neq Hclaims. unfold connectDocument.
  unfold mbind, connectM_bind, mret, connectM_ret, reject.
  by rewrite Ht, Htoken, Hne, Hclaims.
Qed.

Lemma connectDocument_unverified_token (message : IConnect)
    (st : socket_state) (token : string) (claims : ITokenClaims)
    (err : verify_failure) :
  checkThrottle (connectThrottler env)
    (getSocketConnectThrottleId (connect_tenantId message)) = None →
  connect_token message = Some token → token ≠ EmptyString →
  validateTokenClaims env token (connect_id message)
    (connect_tenantId message) = inr claims →
  verifyToken env (claims_tenantId claims) token = Some err →
  connectDocument intersects cfg env message st
  = (st, [], inl (AtTenantVerification,
                  RejectWith (default 401 (response_status err))
                    (default "Invalid token" (response_data err)) None)).
Proof.
  intros Ht Htoken Hne%String.eqb_neq Hclaims Hverify. unfold connectDocument.
  unfold mbind, connectM_bind, mret, connectM_ret, reject.
  by rewrite Ht, Htoken, Hne, Hclaims, Hverify.
Qed.

(** X6.  Nothing happens before the token is verified.  A request that
    the limiter refuses, a request without token or with an empty one, a
    request whose token [validateTokenClaims] refuses, and a request
    whose token the tenant manager refuses are each rejected, with the
    error of that step, without any call on the socket, the registry or
    the orderer and with the socket state as it was, whatever the later
    steps would have answered.  Conversely a run that makes a call, that
    changes the state or that is accepted has passed the limiter and
    carries a non-empty token that [validateTokenClaims] accepted for the
    request's document and tenant and that the tenant manager verified
    for the tenant of the claims. *)
Theorem connect_needs_verified_token (message : IConnect)
    (st : socket_state) :
  let run := connectDocument intersects cfg env message st in
  let limiter :=
    checkThrottle (connectThrottler env)
      (getSocketConnectThrottleId (connect_tenantId message)) in
  (∀ t, limiter = Some t →
        run = (st, [],
               inl (AtThrottle,
                    RejectWith (throttle_code t) (throttle_message t)
                               (Some (throttle_retryAfter t)))))
  ∧ (limiter = None →
     connect_token message = None ∨ connect_token message = Some EmptyString →
     run = (st, [],
            inl (AtTokenPresence,
                 RejectWith 403 "Must provide an authorization token" None)))
  ∧ (∀ token e,
       limiter = None →
       connect_token message = Some token → token ≠ EmptyString →
       validateTokenClaims env token (connect_id message)
         (connect_tenantId message) = inl e →
       run = (st, [], inl (AtTokenValidation, e)))
  ∧ (∀ token claims err,
       limiter = None →
       connect_token message = Some token → token ≠ EmptyString →
       validateTokenClaims env token (connect_id message)
         (connect_tenantId message) = inr claims →
       verifyToken env (claims_tenantId claims) token = Some err →
       run = (st, [],
              inl (AtTenantVerification,
                   RejectWith (default 401 (response_status err))
                     (default "Invalid token" (response_data err)) None)))
  ∧ (∀ st' effs r,
       run = (st', effs, r) →
       effs ≠ [] ∨ st' ≠ st ∨ (∃ m, r = inr m) →
       ∃ token claims,
         limiter = None
         ∧ connect_token message = Some token ∧ token ≠ EmptyString
         ∧ validateTokenClaims env token (connect_id message)
             (connect_tenantId message) = inr claims
         ∧ verifyToken env (claims_tenantId claims) token = None).
Proof.
  cbv zeta. split_and!.
  - intros t Ht. by apply connectDocument_throttled.
  - by apply connectDocument_no_token.
  - intros token e. by apply connectDocument_invalid_token.
  - intros token claims err. by apply connectDocument_unverified_token.
  - intros st' effs r H Hdone.
    assert (Hlimiter : checkThrottle (connectThrottler env)
                         (getSocketConnectThrottleId (connect_tenantId message))
                       = None).
    { destruct (checkThrottle _ _) as [t|] eqn:Ht; [|done].
      rewrite (connectDocument_throttled _ _ _ Ht) in H.
      injection H as <- <- <-. by destruct Hdone as [?|[?|[? ?]]]. }
    destruct r as [[stage e]|m].
    + apply connectDocument_reject_at in H.
      destruct (before_token_verified stage) eqn:Hstage.
      * destruct H as (-> & -> & _). by destruct Hdone as [?|[?|[? ?]]].
      * destruct H as (token & claims & ? & ? & ? & ? & _). eauto 10.
    + apply connectDocument_accept_at in H
        as (token & claims & ? & ? & ? & ? & ? & ? & _). eauto 10.
Qed.

End VerifiedToken.

Section ConnectProperties.

Variable intersects : string -> string -> result bool.
Variable cfg : config.
Variable env : connect_env.


(** X8.  What a rejected [connect_document] is answered with, step by
    step.  The limiter's error, the rejection of [validateTokenClaims] and
    that of [validateTokenClaimsExpiration] are passed on as they are; a
    missing or empty token gets 403; an error of the tenant manager is
    answered with its [response.status] and [response.data], 401 and
    [Invalid token] when it carries none; no intersection gets 400, and
    an exception of [semver] is passed on; a fault of the socket join, of
    the client registry or of the orderer is never passed on: the answer
    is the fixed 500 error. *)
Theorem connect_rejection_catalogue (message : IConnect)
    (st st' : socket_state) (effs : list effect)
    (stage : connect_stage) (e : rejection) :
  connectDocument intersects cfg env message st = (st', effs, inl (stage, e)) →
  match stage with
  | AtThrottle =>
      ∃ t, checkThrottle (connectThrottler env)
             (getSocketConnectThrottleId (connect_tenantId message)) = Some t
           ∧ e = RejectWith (throttle_code t) (throttle_message t)
                            (Some (throttle_retryAfter t))
  | AtTokenPresence =>
      e = RejectWith 403 "Must provide an authorization token" None
      ∧ (connect_token message = None
         ∨ connect_token message = Some EmptyString)
  | AtTokenValidation =>
      ∃ token, connect_token message = Some token
               ∧ validateTokenClaims env token (connect_id message)
                   (connect_tenantId message) = inl e
  | AtTenantVerification =>
      ∃ token claims err,
        validateTokenClaims env token (connect_id message)
          (connect_tenantId message) = inr claims
        ∧ verifyToken env (claims_tenantId claims) token = Some err
        ∧ e = RejectWith (default 401 (response_status err))
                         (default "Invalid token" (response_data err)) None
  | AtProtocolNegotiation =>
      (selectProtocolVersion intersects (requestVersions message) = Ok None
       ∧ e = RejectWith 400
               ("Unsupported client protocol. Server: ^0.4.0,^0.3.0,^0.2.0,^0.1.0. Client: "
                ++ JSON_stringify (requestVersions message)) None)
      ∨ ∃ x, selectProtocolVersion intersects (requestVersions message)
             = Throw x
             ∧ e = RejectThrown x
  | AtQuota =>
      e = RejectWith 429 "Too Many Clients Connected to Document" (Some 300)
  | AtExpiration =>
      ∃ claims, validateTokenClaimsExpiration env claims
                  (maxTokenLifetimeSec cfg) (expiry_now env) = inl e
  | AtRoomJoin | AtClientList | AtRegistryAdd | AtOrdererAttach =>
      e = RejectWith 500 "Failed to connect client to document." None
  end.
Proof.
  intros H. apply connectDocument_reject_at in H.
  destruct stage; cbn in H.
  - by destruct H as (_ & _ & H).
  - by destruct H as (_ & _ & H).
  - by destruct H as (_ & _ & H).
  - destruct H as (_ & _ & token & claims & err & _ & H). eauto.
  - by destruct H as (? & ? & _ & _ & _ & _ & _ & _ & ->).
  - by destruct H as (? & ? & _ & _ & _ & _ & _ & _ & H).
  - by destruct H as (? & ? & _ & _ & _ & _ & _ & _ & ->).
  - by destruct H as (? & ? & _ & _ & _ & _ & _ & _ & ->).
  - by destruct H as (? & ? & _ & _ & _ & _ & _ & _ & ->).
  - destruct H as (? & claims & _ & _ & _ & _ & _ & _ & _ & H). eauto.
  - by destruct H as (? & ? & _ & _ & _ & _ & _ & -> & _).
Qed.

End ConnectProperties.

(** ** Accepted connections *)

Lemma elem_of_clientScopes (claims : ITokenClaims) (messageClient : jsobj)
    (scope : string) :
  scope ∈ clientScopes claims messageClient
  ↔ scope ∈ claims_scopes claims
    ∧ (isSummarizer messageClient = true ∨ scope ≠ ScopeType_SummaryWrite).
Proof.
  unfold clientScopes. destruct (isSummarizer messageClient).
  - naive_solver.
  - rewrite list_elem_of_filter. naive_solver.
Qed.

Lemma isWriter_clientScopes (claims : ITokenClaims) (messageClient : jsobj)
    (mode : string) :
  isWriter (clientScopes claims messageClient) mode = true
  ↔ mode = "write"
    ∧ (ScopeType_DocWrite ∈ claims_scopes claims
       ∨ (isSummarizer messageClient = true
          ∧ ScopeType_SummaryWrite ∈ claims_scopes claims)).
Proof.
  unfold isWriter, hasWriteAccess, canWrite, canSummarize.
  assert (Hne : ScopeType_DocWrite ≠ ScopeType_SummaryWrite) by done.
  split.
  - destruct (_ || _) eqn:Haccess; [|done].
    intros Hmode. apply String.eqb_eq in Hmode. split; [done|].
    apply orb_true_iff in Haccess as [H|H];
      apply bool_decide_eq_true in H; apply elem_of_clientScopes in H.
    + left. by destruct H.
    + right. destruct H as [? [?|?]]; done.
  - intros [-> H].
    assert (bool_decide (ScopeType_DocWrite
                           ∈ clientScopes claims messageClient)
            || bool_decide (ScopeType_SummaryWrite
                              ∈ clientScopes claims messageClient) = true) as ->;
      [|done].
    apply orb_true_iff. destruct H as [H|[Hs H]].
    + left. apply bool_decide_eq_true, elem_of_clientScopes. eauto.
    + right. apply bool_decide_eq_true, elem_of_clientScopes. eauto.
Qed.

Section AcceptedConnections.

Variable intersects : string -> string -> result bool.
Variable cfg : config.
Variable env : connect_env.

(** X9.  An accepted [connect_document] is answered on the socket with
    [connect_document_success], and then announced once, by a room-join
    signal that carries the new clientId and the client descriptor, to the
    room of the tenant and document of the token's claims: the lookup in
    [roomMap] made by the handler always finds the room written by the
    pipeline, and it is the room the socket was subscribed to.  The
    pipeline itself emits nothing, so these two are all the emissions of
    the event. *)
Theorem connect_accepted_announcement (message : IConnect)
    (st st' : socket_state) (effs : list effect) (m : IConnectedClient) :
  connectDocument intersects cfg env message st = (st', effs, inr m) →
  let clientId := connected_clientId (connection m) in
  let room := claimsRoom (connected_claims (connection m)) in
  on_connect_document intersects cfg env message st
  = (st',
     (effs ++ [SocketEmit "connect_document_success"
                 (PConnected (connection m));
               SocketEmitToRoom (getRoomId room) "signal"
                 (PRoomJoin clientId (details m))])%list)
  ∧ roomMap st' !! clientId = Some room
  ∧ SocketJoin (getRoomId room) ∈ effs
  ∧ Forall (fun x => is_emit x = false) effs.
Proof.
  intros H. unfold on_connect_document. rewrite H.
  apply connectDocument_accept_at in H
    as (token & claims & version & clients & _ & _ & _ & _ & _ & _ & H).
  cbv zeta in H. destruct H as (_ & _ & timed & Htimed & H).
  assert (Hroom : roomMap timed !! generateClientId env
                  = Some (claimsRoom claims)).
  { destruct (isTokenExpiryEnabled cfg).
    - destruct Htimed as (? & _ & ->). autorewrite with timer_frame.
      apply lookup_insert_eq.
    - rewrite Htimed. apply lookup_insert_eq. }
  destruct (isWriter _ _).
  - destruct H as (orderer & c & _ & _ & -> & -> & ->). cbn.
    rewrite Hroom. split; [done|]. split; [done|].
    split; [set_solver|by repeat constructor].
  - destruct H as (-> & -> & ->). cbn.
    rewrite Hroom. split; [done|]. split; [done|].
    split; [set_solver|by repeat constructor].
Qed.

(** X10.  The response of an accepted [connect_document], by role.  A
    writer is answered with mode [write] and with the message size limit
    and the service configuration of the orderer connection that is stored
    for it in [connectionsMap]; a reader is answered with mode [read], a
    limit of 1024 and the default service configuration, and
    [connectionsMap] is left as it was.  Either way the response carries
    the server's version list, a version taken from it, the registry's
    client list, no initial messages or signals, and the timestamp that
    is also written into the client descriptor. *)
Theorem connected_response_by_role (message : IConnect)
    (st st' : socket_state) (effs : list effect) (m : IConnectedClient) :
  connectDocument intersects cfg env message st = (st', effs, inr m) →
  let c := connection m in
  connected_existing c = true
  ∧ connected_initialMessages c = [] ∧ connected_initialSignals c = []
  ∧ connected_supportedVersions c = protocolVersions
  ∧ connected_version c ∈ connected_supportedVersions c
  ∧ getClients env (claims_tenantId (connected_claims c))
      (claims_documentId (connected_claims c))
    = Some (connected_initialClients c)
  ∧ connected_timestamp c = Date_now env
  ∧ details m !! "timestamp" = Some (JNum (connected_timestamp c))
  ∧ ((connected_mode c = "write"
      ∧ ∃ conn,
          connectionsMap st' !! connected_clientId c = Some conn
          ∧ connected_maxMessageSize c = conn_maxMessageSize conn
          ∧ connected_serviceConfiguration c = conn_serviceConfiguration conn)
     ∨ (connected_mode c = "read"
        ∧ connectionsMap st' = connectionsMap st
        ∧ connected_maxMessageSize c = 1024
        ∧ connected_serviceConfiguration c = DefaultServiceConfiguration cfg)).
Proof.
  intros H.
  apply connectDocument_accept_at in H
    as (token & claims & version & clients & _ & _ & _ & _ & Hversion
        & Hclients & H).
  apply selectProtocolVersion_elem in Hversion.
  cbv zeta in H. destruct H as (Hdetails & _ & timed & Htimed & H).
  assert (Hconns : connectionsMap timed = connectionsMap st).
  { destruct (isTokenExpiryEnabled cfg).
    - destruct Htimed as (? & _ & ->). by autorewrite with timer_frame.
    - by rewrite Htimed. }
  assert (Hstamp : details m !! "timestamp" = Some (JNum (Date_now env))).
  { rewrite Hdetails. apply lookup_insert_eq. }
  destruct (isWriter _ _).
  - destruct H as (orderer & conn & _ & _ & -> & _ & Hc). cbv zeta.
    rewrite Hc. cbn. split_and!; try done.
    left. split; [done|]. exists conn. split; [apply lookup_insert_eq|].
    split; [done|]. by destruct (conn_serviceConfiguration conn).
  - destruct H as (-> & _ & Hc). cbv zeta. rewrite Hc. cbn.
    split_and!; try done.
    right. split_and!; try done. by destruct (DefaultServiceConfiguration cfg).
Qed.

(** X11.  The identity in the client descriptor comes from the token,
    not from the request: in the descriptor of an accepted connection,
    which is the one registered and announced, [user] is the user of the
    claims, [scopes] are the scopes cached in [scopeMap], each of which is
    a scope of the claims, and [timestamp] is the server's clock reading,
    whatever the request's descriptor carried there; every other
    property is the request's. *)
Theorem descriptor_identity_from_claims (message : IConnect)
    (st st' : socket_state) (effs : list effect) (m : IConnectedClient) :
  connectDocument intersects cfg env message st = (st', effs, inr m) →
  let claims := connected_claims (connection m) in
  details m !! "user" = Some (claims_user claims)
  ∧ (∃ scopes,
       scopeMap st' !! connected_clientId (connection m) = Some scopes
       ∧ details m !! "scopes" = Some (JArr (JStr <$> scopes))
       ∧ ∀ scope, scope ∈ scopes → scope ∈ claims_scopes claims)
  ∧ details m !! "timestamp" = Some (JNum (Date_now env))
  ∧ ∀ k, k ≠ "user" → k ≠ "scopes" → k ≠ "timestamp" →
         details m !! k = requestClient message !! k.
Proof.
  intros H.
  apply connectDocument_accept_at in H
    as (token & claims & version & clients & _ & _ & _ & _ & _ & _ & H).
  cbv zeta in H. destruct H as (Hdetails & _ & timed & Htimed & H).
  assert (Hscopes : scopeMap timed !! generateClientId env
                    = Some (clientScopes claims (requestClient message))).
  { destruct (isTokenExpiryEnabled cfg).
    - destruct Htimed as (? & _ & ->). autorewrite with timer_frame.
      apply lookup_insert_eq.
    - rewrite Htimed. apply lookup_insert_eq. }
  assert (Hm : connected_claims (connection m) = claims
               ∧ connected_clientId (connection m) = generateClientId env
               ∧ scopeMap st' = scopeMap timed).
  { destruct (isWriter _ _).
    - by destruct H as (? & ? & _ & _ & -> & _ & ->).
    - by destruct H as (-> & _ & ->). }
  destruct Hm as (Hclaims & Hid & Hmap). cbv zeta.
  rewrite Hclaims, Hid, Hmap, Hdetails. unfold stampClient. split_and!.
  - rewrite lookup_insert_ne by done. rewrite lookup_insert_ne by done.
    apply lookup_insert_eq.
  - eexists. split; [done|]. split.
    + rewrite lookup_insert_ne by done. apply lookup_insert_eq.
    + intros scope Hs. by apply elem_of_clientScopes in Hs as [? _].
  - apply lookup_insert_eq.
  - intros k ? ? ?. by rewrite !lookup_insert_ne.
Qed.

(** X12.  Who is connected as a writer.  An accepted connection is in
    mode [write] exactly when the request asks for mode [write] and the
    claims carry [DocWrite], or carry [SummaryWrite] while the request's
    descriptor declares the type [summarizer]; otherwise it is in mode
    [read].  A token with [SummaryWrite] but without [DocWrite] makes a
    writer of a declared summarizer only. *)
Theorem connected_mode_by_scopes (message : IConnect)
    (st st' : socket_state) (effs : list effect) (m : IConnectedClient) :
  connectDocument intersects cfg env message st = (st', effs, inr m) →
  let claims := connected_claims (connection m) in
  (connected_mode (connection m) = "write"
   ∨ connected_mode (connection m) = "read")
  ∧ (connected_mode (connection m) = "write"
     ↔ connect_mode message = "write"
       ∧ (ScopeType_DocWrite ∈ claims_scopes claims
          ∨ (isSummarizer (requestClient message) = true
             ∧ ScopeType_SummaryWrite ∈ claims_scopes claims))).
Proof.
  intros H.
  apply connectDocument_accept_at in H
    as (token & claims & version & clients & _ & _ & _ & _ & _ & _ & H).
  cbv zeta in H. destruct H as (_ & _ & timed & _ & H). cbv zeta.
  rewrite <- isWriter_clientScopes.
  destruct (isWriter _ _) eqn:Hw.
  - destruct H as (? & ? & _ & _ & _ & _ & ->). cbn.
    rewrite Hw. split; [by left|done].
  - destruct H as (_ & _ & ->). cbn. rewrite Hw. split; [by right|done].
Qed.

(** X13.  The expiration timer after a rejected [connect_document].  A
    request rejected while attaching to the orderer, with token expiry
    enabled, has already re-armed the socket's timer for its own token,
    although the request failed: the timer that the variable held is
    disarmed, and the variable holds a new timer, due after the lifetime
    that [validateTokenClaimsExpiration] returned, or after 1 ms when
    that lifetime is not between 1 and 2^31 - 1 ms, which is what
    [setTimeout] makes of such a delay.  A request rejected at any other
    step, or with token expiry disabled, leaves the variable and the
    timers as they were. *)
Theorem rejected_connect_timer (message : IConnect)
    (st st' : socket_state) (effs : list effect)
    (stage : connect_stage) (e : rejection) :
  connectDocument intersects cfg env message st = (st', effs, inl (stage, e)) →
  if rearms_timer cfg stage
  then ∃ token claims lifeTimeMSec,
      validateTokenClaims env token (connect_id message)
        (connect_tenantId message) = inr claims
      ∧ validateTokenClaimsExpiration env claims
          (maxTokenLifetimeSec cfg) (expiry_now env) = inr lifeTimeMSec
      ∧ expirationTimer st' = Some (timersCreated st)
      ∧ timers st'
        = <[timersCreated st
            := expiry_now env
               + (if (1 <=? lifeTimeMSec) && (lifeTimeMSec <=? 2147483647)
                  then lifeTimeMSec else 1)]>
            match expirationTimer st with
            | Some handle => delete handle (timers st)
            | None => timers st
            end
  else expirationTimer st' = expirationTimer st ∧ timers st' = timers st.
Proof.
  intros H. apply connectDocument_reject_at in H.
  destruct stage; cbn in H; cbn [rearms_timer];
    try (by destruct H as (_ & -> & _));
    destruct H as (token & claims & _ & _ & Hclaims & _ & H).
  1-6: by destruct H as (_ & -> & _).
  destruct H as (_ & _ & _ & H).
  destruct (isTokenExpiryEnabled cfg).
  - destruct H as (life & Hlife & ->). exists token, claims, life.
    autorewrite with timer_frame. by cbn.
  - by rewrite H.
Qed.

(** X14.  The connect limiter fails open.  When there is a limiter and
    its [incrementCount] returns, or throws anything but a
    [ThrottlingError], the request is handled exactly as on a server
    without connect limiter; only a [ThrottlingError] rejects the request,
    and it does so before the token is looked at. *)
Theorem connect_limiter_fails_open (message : IConnect) (st : socket_state)
    (limiter : IThrottler) :
  connectThrottler env = Some limiter →
  match limiter (getSocketConnectThrottleId (connect_tenantId message)) with
  | IncrThrottled t =>
      on_connect_document intersects cfg env message st
      = (st, [SocketEmit "connect_document_error"
                (PConnectError
                   (RejectWith (throttle_code t) (throttle_message t)
                               (Some (throttle_retryAfter t))))])
  | IncrOk | IncrFault _ =>
      on_connect_document intersects cfg env message st
      = on_connect_document intersects cfg (without_connectThrottler env)
          message st
  end.
Proof.
  intros Hlimiter.
  destruct (limiter _) as [|t|err] eqn:Hkey.
  - unfold on_connect_document, connectDocument, checkThrottle.
    rewrite Hlimiter, Hkey. reflexivity.
  - unfold on_connect_document, connectDocument, checkThrottle.
    rewrite Hlimiter, Hkey. reflexivity.
  - unfold on_connect_document, connectDocument, checkThrottle.
    rewrite Hlimiter, Hkey. reflexivity.
Qed.

End AcceptedConnections.

(** ** The state of the socket over its life *)

Section ConnectState.

Variable intersects : string -> string -> result bool.
Variable cfg : config.
Variable env : connect_env.

(** The writes of one run of the pipeline, whatever its outcome. *)
Lemma connectDocument_writes (message : IConnect) (st st' : socket_state)
    (effs : list effect) (r : connect_stage * rejection + IConnectedClient) :
  connectDocument intersects cfg env message st = (st', effs, r) →
  let clientId := generateClientId env in
  ((roomMap st' = roomMap st ∧ scopeMap st' = scopeMap st
    ∧ connectionsMap st' = connectionsMap st)
   ∨ ∃ room scopes,
       roomMap st' = <[clientId := room]> (roomMap st)
       ∧ scopeMap st' = <[clientId := scopes]> (scopeMap st)
       ∧ (connectionsMap st' = connectionsMap st
          ∨ ∃ c, connectionsMap st' = <[clientId := c]> (connectionsMap st)))
  ∧ (expirationTimer st' = expirationTimer st
     ∨ (isTokenExpiryEnabled cfg = true ∧ ∃ t, expirationTimer st' = Some t)).
Proof.
  intros H. cbv zeta. destruct r as [[stage e]|m].
  - apply connectDocument_reject_at in H.
    destruct stage; cbn in H;
      try (destruct H as (_ & -> & _); split; by left);
      destruct H as (token & claims & _ & _ & _ & _ & H).
    + destruct H as (_ & -> & _). split; by left.
    + destruct H as (_ & -> & _). split; [right|left]; eauto 10.
    + destruct H as (_ & -> & _). split; [right|left]; eauto 10.
    + destruct H as (_ & -> & _). split; [right|left]; eauto 10.
    + destruct H as (_ & -> & _). split; [right|left]; eauto 10.
    + destruct H as (_ & -> & _). split; [right|left]; eauto 10.
    + destruct H as (_ & _ & _ & H).
      destruct (isTokenExpiryEnabled cfg).
      * destruct H as (life & _ & ->). autorewrite with timer_frame.
        split; right; eauto 10.
      * rewrite H. split; [right|left]; eauto 10.
  - apply connectDocument_accept_at in H
      as (token & claims & version & clients & _ & _ & _ & _ & _ & _ & H).
    cbv zeta in H. destruct H as (_ & _ & timed & Htimed & H).
    assert (Ht : roomMap timed
                 = <[generateClientId env := claimsRoom claims]> (roomMap st)
                 ∧ scopeMap timed
                   = <[generateClientId env
                       := clientScopes claims (requestClient message)]>
                     (scopeMap st)
                 ∧ connectionsMap timed = connectionsMap st
                 ∧ (expirationTimer timed = expirationTimer st
                    ∨ (isTokenExpiryEnabled cfg = true
                       ∧ ∃ t, expirationTimer timed = Some t))).
    { destruct (isTokenExpiryEnabled cfg).
      - destruct Htimed as (life & _ & ->). autorewrite with timer_frame.
        split_and!; try done.
        right. split; [done|]. by eexists.
      - rewrite Htimed. split_and!; try done. by left. }
    destruct Ht as (Hroom & Hscope & Hconn & Htimer).
    destruct (isWriter _ _).
    + destruct H as (orderer & c & _ & _ & -> & _). cbn.
      rewrite Hroom, Hscope, Hconn. split; [right|done]. eauto 10.
    + destruct H as (-> & _). rewrite Hroom, Hscope, Hconn.
      split; [right|done]. eauto 10.
Qed.

End ConnectState.

Lemma after_event_writes (intersects : string -> string -> result bool)
    (cfg : config) (ev : lifetime_event) (st : socket_state) :
  let st' := after_event intersects cfg ev st in
  ((roomMap st' = roomMap st ∧ scopeMap st' = scopeMap st
    ∧ connectionsMap st' = connectionsMap st)
   ∨ ∃ env message room scopes,
       ev = EvConnectDocument env message
       ∧ roomMap st' = <[generateClientId env := room]> (roomMap st)
       ∧ scopeMap st' = <[generateClientId env := scopes]> (scopeMap st)
       ∧ (connectionsMap st' = connectionsMap st
          ∨ ∃ c, connectionsMap st'
                 = <[generateClientId env := c]> (connectionsMap st)))
  ∧ (expirationTimer st' = expirationTimer st
     ∨ expirationTimer st' = None
     ∨ (isTokenExpiryEnabled cfg = true ∧ ∃ t, expirationTimer st' = Some t)).
Proof.
  destruct ev as [env message| | | | | |handle]; cbn;
    try (split; [left; by split_and!|by left]).
  - unfold on_connect_document.
    destruct (connectDocument intersects cfg env message st)
      as [[st' effs] r] eqn:H.
    apply connectDocument_writes in H as [Hmaps Htimer].
    assert (fst (match r with
                 | inl (_, error) =>
                     (st', (effs ++ [SocketEmit "connect_document_error"
                                       (PConnectError error)])%list)
                 | inr m =>
                     (st', (effs
                        ++ [SocketEmit "connect_document_success"
                              (PConnected (connection m))]
                        ++ match roomMap st' !! connected_clientId (connection m)
                           with
                           | Some room =>
                               [SocketEmitToRoom (getRoomId room) "signal"
                                  (PRoomJoin (connected_clientId (connection m))
                                             (details m))]
                           | None => []
                           end)%list)
                 end) = st') as ->.
    { by destruct r as [[? ?]|?]. }
    split.
    + destruct Hmaps as [?|(room & scopes & ? & ? & ?)]; [by left|].
      right. by exists env, message, room, scopes.
    + destruct Htimer as [?|?]; [by left|]. right. by right.
  - autorewrite with timer_frame. split; [left; by split_and!|]. right. by left.
  - unfold on_expiration. destruct (timers st !! handle); cbn;
      (split; [left; by split_and!|by left]).
Qed.


(** X16.  No event before [disconnect] removes or changes the entry of
    a client in the maps of the socket, unless it is a [connect_document]
    that mints the same clientId again: neither a rejected connect, nor an
    error of the orderer connection, nor the expiration of the token. *)
Theorem entries_persist (intersects : string -> string -> result bool)
    (cfg : config) (evs : list lifetime_event) (st : socket_state)
    (clientId : string) :
  Forall (mints_other clientId) evs →
  let st' := after_events intersects cfg evs st in
  connectionsMap st' !! clientId = connectionsMap st !! clientId
  ∧ roomMap st' !! clientId = roomMap st !! clientId
  ∧ scopeMap st' !! clientId = scopeMap st !! clientId.
Proof.
  cbv zeta. revert st. induction evs as [|ev evs IH]; intros st Hevs; [done|].
  apply Forall_cons in Hevs as [Hev Hevs]. cbn [after_events].
  destruct (IH (after_event intersects cfg ev st) Hevs) as (-> & -> & ->).
  destruct (after_event_writes intersects cfg ev st) as [Hmaps _].
  destruct Hmaps as [(-> & -> & ->)|(env & message & room & scopes & ->
                                      & -> & -> & Hc)]; [done|].
  cbn in Hev. rewrite !lookup_insert_ne by done.
  destruct Hc as [->|[c ->]]; [done|]. by rewrite lookup_insert_ne.
Qed.

(** ** Disconnect *)

Lemma enumerates_elem {V : Type} (entries : list (string * V))
    (m : gmap string V) (k : string) (v : V) :
  enumerates entries m → (k, v) ∈ entries ↔ m !! k = Some v.
Proof.
  unfold enumerates. intros H. rewrite H. apply elem_of_map_to_list.
Qed.

Lemma enumerates_NoDup {V : Type} (entries : list (string * V))
    (m : gmap string V) :
  enumerates entries m → NoDup entries.*1.
Proof.
  unfold enumerates. intros H. rewrite H. apply NoDup_fst_map_to_list.
Qed.

Lemma elem_of_disconnectConnections (x : effect)
    (connections : list (string * IOrdererConnection)) :
  x ∈ disconnectConnections connections
  ↔ ∃ clientId, clientId ∈ connections.*1 ∧ x = ConnectionDisconnect clientId.
Proof.
  induction connections as [|[k c] rest IH]; cbn.
  - split; [by intros ?%elem_of_nil|]. by intros (? & ?%elem_of_nil & _).
  - rewrite elem_of_cons, IH. split.
    + intros [->|(k' & ? & ->)]; [exists k|exists k']; set_solver.
    + intros (k' & [->|?]%elem_of_cons & ->); [by left|right; eauto].
Qed.

Lemma elem_of_leaveRooms (x : effect) (rooms : list (string * IRoom)) :
  x ∈ leaveRooms rooms
  ↔ ∃ clientId room,
      (clientId, room) ∈ rooms
      ∧ (x = RemoveClient (room_tenantId room) (room_documentId room) clientId
         ∨ x = SocketEmitToRoom (getRoomId room) "signal"
                 (PRoomLeave clientId)).
Proof.
  induction rooms as [|[k room] rest IH]; cbn -[getRoomId].
  - split; [by intros ?%elem_of_nil|]. by intros (? & ? & ?%elem_of_nil & _).
  - rewrite !elem_of_cons, IH. split.
    + intros [->|[->|(k' & room' & ? & Hx)]].
      * exists k, room. split; [apply elem_of_cons; by left|by left].
      * exists k, room. split; [apply elem_of_cons; by left|by right].
      * exists k', room'. split; [apply elem_of_cons; by right|done].
    + intros (k' & room' & [[= -> ->]|?]%elem_of_cons & Hx).
      * destruct Hx as [->| ->]; [by left|right; by left].
      * right. right. eauto.
Qed.

Lemma NoDup_disconnectConnections
    (connections : list (string * IOrdererConnection)) :
  NoDup connections.*1 → NoDup (disconnectConnections connections).
Proof.
  induction connections as [|[k c] rest IH]; cbn; [constructor|].
  intros [Hk Hrest]%NoDup_cons. apply NoDup_cons. split; [|by apply IH].
  rewrite elem_of_disconnectConnections. intros (k' & ? & [= <-]). done.
Qed.

Lemma NoDup_leaveRooms (rooms : list (string * IRoom)) :
  NoDup rooms.*1 → NoDup (leaveRooms rooms).
Proof.
  induction rooms as [|[k room] rest IH]; cbn -[getRoomId]; [constructor|].
  intros [Hk Hrest]%NoDup_cons.
  assert (Hfresh : ∀ room', (k, room') ∉ rest).
  { intros room' Hin. apply Hk. apply list_elem_of_fmap. by exists (k, room'). }
  apply NoDup_cons. split; [|apply NoDup_cons; split; [|by apply IH]].
  - rewrite elem_of_cons, elem_of_leaveRooms.
    intros [?|(k' & room' & Hin & [[= _ _ <-]|?])]; [done| |done].
    by apply (Hfresh room').
  - rewrite elem_of_leaveRooms.
    intros (k' & room' & Hin & [?|[= _ <-]]); [done|].
    by apply (Hfresh room').
Qed.

(** X17.  What the [disconnect] handler does, in whichever order the
    two maps are iterated.  Its calls are exactly these, each made once:
    [connection.disconnect()] for every clientId in [connectionsMap], and,
    for every clientId in [roomMap], [clientManager.removeClient] for the
    tenant and document of its room and a room-leave signal to that room.
    The expiration timer is cleared, and no map is emptied. *)
Theorem on_disconnect_calls
    (connections : list (string * IOrdererConnection))
    (rooms : list (string * IRoom)) (st : socket_state) :
  enumerates connections (connectionsMap st) →
  enumerates rooms (roomMap st) →
  let out := on_disconnect connections rooms st in
  (∀ x, x ∈ snd out
        ↔ (∃ clientId, clientId ∈ dom (connectionsMap st)
                       ∧ x = ConnectionDisconnect clientId)
          ∨ (∃ clientId room,
               roomMap st !! clientId = Some room
               ∧ (x = RemoveClient (room_tenantId room) (room_documentId room)
                        clientId
                  ∨ x = SocketEmitToRoom (getRoomId room) "signal"
                          (PRoomLeave clientId))))
  ∧ NoDup (snd out)
  ∧ List.length (snd out)
    = (size (connectionsMap st) + 2 * size (roomMap st))%nat
  ∧ fst out = clearExpirationTimer st.
Proof.
  intros Hc Hr. cbv zeta. unfold on_disconnect. cbn [fst snd].
  split; [|split; [|split; [|done]]].
  - intros x. rewrite elem_of_app, elem_of_disconnectConnections,
      elem_of_leaveRooms.
    apply Morphisms_Prop.or_iff_morphism.
    + split; intros (k & Hk & ->); exists k; (split; [|done]).
      * apply list_elem_of_fmap in Hk as ([k' c] & -> & Hin).
        apply (enumerates_elem _ _ _ _ Hc) in Hin. by apply elem_of_dom_2 in Hin.
      * apply elem_of_dom in Hk as [c Hk].
        apply (enumerates_elem _ _ _ _ Hc) in Hk.
        apply list_elem_of_fmap. by exists (k, c).
    + split; intros (k & room & Hk & Hx); exists k, room; (split; [|done]);
        by apply (enumerates_elem _ _ _ _ Hr).
  - apply NoDup_app. split; [|split].
    + apply NoDup_disconnectConnections. by eapply enumerates_NoDup.
    + intros x Hx1 Hx2. apply elem_of_disconnectConnections in Hx1 as (? & _ & ->).
      apply elem_of_leaveRooms in Hx2 as (? & ? & _ & [?|?]); done.
    + apply NoDup_leaveRooms. by eapply enumerates_NoDup.
  - rewrite length_app. unfold enumerates in Hc, Hr.
    assert (Hl1 : ∀ l, List.length (disconnectConnections l) = List.length l).
    { induction l as [|[? ?] ? IH]; cbn; [done|]. by rewrite IH. }
    assert (Hl2 : ∀ l, List.length (leaveRooms l) = (2 * List.length l)%nat).
    { induction l as [|[? ?] ? IH]; cbn -[getRoomId]; [done|].
      rewrite IH. lia. }
    rewrite Hl1, Hl2, Hc, Hr, !length_map_to_list. done.
Qed.

(** ** From connect to disconnect *)

Section ConnectThenDisconnect.

Variable intersects : string -> string -> result bool.
Variable cfg : config.
Variable env : connect_env.

(** A run that got past the writes to [scopeMap] and [roomMap]. *)
Lemma connectDocument_committed (message : IConnect) (st st' : socket_state)
    (effs : list effect) (r : connect_stage * rejection + IConnectedClient) :
  connectDocument intersects cfg env message st = (st', effs, r) →
  match r with
  | inl (stage, _) => before_room_commit stage = false
  | inr _ => True
  end →
  ∃ token claims n,
    validateTokenClaims env token (connect_id message)
      (connect_tenantId message) = inr claims
    ∧ roomMap st' !! generateClientId env = Some (claimsRoom claims)
    ∧ scopeMap st' !! generateClientId env
      = Some (clientScopes claims (requestClient message))
    ∧ effs = take n (writerCalls claims (generateClientId env)
                       (stampClient claims (Date_now env)
                          (requestClient message)))
    ∧ match r with
      | inl (stage, _) => member_not_registered stage = true → n = 2%nat
      | inr _ => True
      end.
Proof.
  intros H Hr. destruct r as [[stage e]|m].
  - apply connectDocument_reject_at in H.
    destruct stage; try done; cbn in H;
      destruct H as (token & claims & _ & _ & Hclaims & _ & H);
      exists token, claims.
    1-3: destruct H as (-> & -> & _); exists 2%nat; split_and!; try done;
      apply lookup_insert_eq.
    1-2: destruct H as (-> & -> & _); exists 3%nat; split_and!; try done;
      apply lookup_insert_eq.
    destruct H as (Heffs & _ & _ & H).
    assert (roomMap st' !! generateClientId env = Some (claimsRoom claims)
            ∧ scopeMap st' !! generateClientId env
              = Some (clientScopes claims (requestClient message)))
      as [? ?].
    { destruct (isTokenExpiryEnabled cfg).
      - destruct H as (? & _ & ->). autorewrite with timer_frame.
        split; apply lookup_insert_eq.
      - rewrite H. split; apply lookup_insert_eq. }
    destruct Heffs as [-> | ->]; [exists 3%nat|exists 4%nat]; split_and!; done.
  - apply connectDocument_accept_at in H
      as (token & claims & version & clients & _ & _ & Hclaims & _ & _ & _ & H).
    cbv zeta in H. destruct H as (_ & _ & timed & Htimed & H).
    exists token, claims.
    assert (roomMap timed !! generateClientId env = Some (claimsRoom claims)
            ∧ scopeMap timed !! generateClientId env
              = Some (clientScopes claims (requestClient message)))
      as [? ?].
    { destruct (isTokenExpiryEnabled cfg).
      - destruct Htimed as (? & _ & ->). autorewrite with timer_frame.
        split; apply lookup_insert_eq.
      - rewrite Htimed. split; apply lookup_insert_eq. }
    destruct (isWriter _ _).
    + destruct H as (? & ? & _ & _ & -> & -> & _). by exists 5%nat.
    + destruct H as (-> & -> & _). by exists 3%nat.
Qed.

(** A call to the registry is made past the writes only. *)
Lemma connectDocument_registered (message : IConnect) (st st' : socket_state)
    (effs : list effect) (r : connect_stage * rejection + IConnectedClient)
    (t d clientId : string) (client : jsobj) :
  connectDocument intersects cfg env message st = (st', effs, r) →
  AddClient t d clientId client ∈ effs →
  clientId = generateClientId env
  ∧ roomMap st' !! clientId
    = Some {| room_tenantId := t; room_documentId := d |}.
Proof.
  intros H Hadd.
  assert (Hr : match r with
               | inl (stage, _) => before_room_commit stage = false
               | inr _ => True
               end).
  { destruct r as [[stage e]|m]; [|done].
    pose proof H as Hat. apply connectDocument_reject_at in Hat.
    destruct stage; try done; cbn in Hat.
    1-4: destruct Hat as (-> & _); by apply elem_of_nil in Hadd.
    destruct Hat as (? & ? & _ & _ & _ & _ & -> & _).
    cbn in Hadd. set_solver. }
  destruct (connectDocument_committed _ _ _ _ _ H Hr)
    as (token & claims & n & _ & Hroom & _ & -> & _).
  apply subseteq_take in Hadd. unfold writerCalls in Hadd.
  repeat (apply elem_of_cons in Hadd as [Hadd|Hadd]); try done.
  - by injection Hadd as -> -> -> _.
  - by apply elem_of_nil in Hadd.
Qed.

(** X18.  A client that was registered is removed.  Whenever a run of
    [connectDocument], accepted or not, has called
    [clientManager.addClient] for a clientId, the [disconnect] handler
    calls [clientManager.removeClient] with the same tenant, document and
    clientId, and sends the room-leave signal of that clientId to the room
    of that tenant and document, provided the [roomMap] entry of the
    clientId is still the one written by that run (see
    [entries_persist]). *)
Theorem registered_client_removed_at_disconnect (message : IConnect)
    (st st1 st2 : socket_state) (effs : list effect)
    (r : connect_stage * rejection + IConnectedClient)
    (t d clientId : string) (client : jsobj)
    (connections : list (string * IOrdererConnection))
    (rooms : list (string * IRoom)) :
  connectDocument intersects cfg env message st = (st1, effs, r) →
  AddClient t d clientId client ∈ effs →
  roomMap st2 !! clientId = roomMap st1 !! clientId →
  enumerates rooms (roomMap st2) →
  RemoveClient t d clientId ∈ snd (on_disconnect connections rooms st2)
  ∧ SocketEmitToRoom (t ++ "/" ++ d) "signal" (PRoomLeave clientId)
    ∈ snd (on_disconnect connections rooms st2).
Proof.
  intros H Hadd Hsame Hrooms.
  destruct (connectDocument_registered _ _ _ _ _ _ _ _ _ H Hadd) as [_ Hroom].
  rewrite <- Hsame in Hroom. apply (enumerates_elem _ _ _ _ Hrooms) in Hroom.
  unfold on_disconnect. cbn [snd].
  split; apply elem_of_app; right; apply elem_of_leaveRooms;
    eexists _, _; (split; [exact Hroom|]); [by left|by right].
Qed.

(** X19.  A client that was never registered is removed all the same.
    A [connect_document] rejected at the protocol negotiation, at the
    client list or at the quota has not called [clientManager.addClient]
    and has announced no join, but has already entered the minted
    clientId in [roomMap]: at [disconnect] the handler calls
    [clientManager.removeClient] for that clientId and sends its
    room-leave signal to the room of the claims. *)
Theorem unregistered_member_leaves_at_disconnect (message : IConnect)
    (st st1 st2 : socket_state) (effs : list effect)
    (stage : connect_stage) (e : rejection)
    (connections : list (string * IOrdererConnection))
    (rooms : list (string * IRoom)) :
  connectDocument intersects cfg env message st
  = (st1, effs, inl (stage, e)) →
  member_not_registered stage = true →
  roomMap st2 !! generateClientId env = roomMap st1 !! generateClientId env →
  enumerates rooms (roomMap st2) →
  (∀ t d clientId client, AddClient t d clientId client ∉ effs)
  ∧ Forall (fun x => is_emit x = false) effs
  ∧ ∃ token claims,
      validateTokenClaims env token (connect_id message)
        (connect_tenantId message) = inr claims
      ∧ RemoveClient (claims_tenantId claims) (claims_documentId claims)
          (generateClientId env)
        ∈ snd (on_disconnect connections rooms st2)
      ∧ SocketEmitToRoom (getRoomId (claimsRoom claims)) "signal"
          (PRoomLeave (generateClientId env))
        ∈ snd (on_disconnect connections rooms st2).
Proof.
  intros H Hstage Hsame Hrooms.
  assert (Hr : before_room_commit stage = false) by (by destruct stage).
  destruct (connectDocument_committed _ _ _ _ _ H Hr)
    as (token & claims & n & Hclaims & Hroom & _ & -> & Hn).
  rewrite (Hn Hstage). split; [|split].
  - intros t d clientId client Hadd. cbn in Hadd. set_solver.
  - cbn. by repeat constructor.
  - exists token, claims. split; [done|].
    rewrite <- Hsame in Hroom. apply (enumerates_elem _ _ _ _ Hrooms) in Hroom.
    unfold on_disconnect. cbn [snd].
    split; apply elem_of_app; right; apply elem_of_leaveRooms;
      eexists _, _; (split; [exact Hroom|]); [by left|by right].
Qed.

End ConnectThenDisconnect.

(** ** Signals and presence *)

Lemma signalContents_fmap (clientId : string) (room : IRoom)
    (contents : list jsval) :
  signalContents clientId room contents
  = (fun content => EmitToRoom (getRoomId room) "signal"
                      (BSignal clientId content)) <$> contents.
Proof.
  induction contents as [|content rest IH]; [done|].
  cbn -[getRoomId]. by rewrite IH.
Qed.

Lemma signalBatches_fmap (clientId : string) (room : IRoom)
    (contentBatches : list jsval) :
  signalBatches clientId room contentBatches
  = (fun content => EmitToRoom (getRoomId room) "signal"
                      (BSignal clientId content))
    <$> flat_map batch_contents contentBatches.
Proof.
  induction contentBatches as [|b rest IH]; [done|].
  cbn [signalBatches flat_map].
  by rewrite fmap_app, signalContents_fmap, IH.
Qed.

(** X20.  [submitSignal] asks for room membership only: for a clientId
    in [roomMap] it broadcasts to the member's room one signal per
    content, in the order of arrival, an array in the batch list being
    taken as a list of contents and anything else as one content (so an
    empty array sends nothing, and a content that is itself an array is
    sent element by element); the sender recorded in each signal is the
    clientId of the event.  For any other clientId it sends the nack
    [Nonexistent client] and nothing else. *)
Theorem submitSignal_broadcasts (clientId : string)
    (contentBatches : list jsval) (st : socket_state) :
  submitSignal clientId contentBatches st
  = match roomMap st !! clientId with
    | None => [nonexistentClient]
    | Some room =>
        (fun content => EmitToRoom (getRoomId room) "signal"
                          (BSignal clientId content))
        <$> flat_map batch_contents contentBatches
    end.
Proof.
  unfold submitSignal. destruct (roomMap st !! clientId) as [room|]; [|done].
  apply signalBatches_fmap.
Qed.

(** The effects of the batch loop of [submitOp] are calls to the metric
    sink and to the orderer connection. *)
Lemma orderBatches_no_emit (env : submit_env) (clientId : string) (i : nat)
    (batches : list messageBatch) (effs : list effect) (r : result unit) :
  orderBatches env clientId i batches = (effs, r) →
  Forall (fun x => is_emit x = false) effs.
Proof.
  intros H. apply Forall_forall. intros x Hx.
  destruct (orderBatches_effects _ _ _ _ _ _ _ H Hx) as (b & _ & [Hb|Hb]).
  - by apply elem_of_roundTripMetrics in Hb as (? & _ & _ & _ & ->).
  - by apply elem_of_batchOrder in Hb as [-> _].
Qed.

Section HandlersAfterConnect.

Variable intersects : string -> string -> result bool.
Variable cfg : config.
Variable env : connect_env.

(** X21.  Room membership is granted to readers and writers alike: after
    an accepted [connect_document], in either mode, the new clientId may
    signal, ping and list the clients, and each of these is broadcast to
    the room of the tenant and document of the token's claims.  A failure
    of the client registry makes [get_clients] send nothing, not even an
    error. *)
Theorem member_handlers_after_connect (message : IConnect)
    (st st' : socket_state) (effs : list effect) (m : IConnectedClient)
    (contentBatches : list jsval)
    (registry : string -> string -> option (list jsval)) :
  connectDocument intersects cfg env message st = (st', effs, inr m) →
  let clientId := connected_clientId (connection m) in
  let claims := connected_claims (connection m) in
  let room := getRoomId (claimsRoom claims) in
  submitSignal clientId contentBatches st'
  = (fun content => EmitToRoom room "signal" (BSignal clientId content))
    <$> flat_map batch_contents contentBatches
  ∧ ping clientId st' = [EmitToRoom room "pong" (BPong clientId)]
  ∧ get_clients registry clientId st'
    = match registry (claims_tenantId claims) (claims_documentId claims) with
      | Some clients =>
          [EmitToRoom room "connected_clients" (BConnectedClients clients)]
      | None => []
      end.
Proof.
  intros H. cbv zeta.
  apply connectDocument_accept in H
    as (token & claims & version & clients & _ & _ & _ & _ & -> & -> & _ & _
        & _ & _ & Hroom & _).
  assert (Hmember : roomMap st' !! generateClientId env
                    = Some (claimsRoom claims)).
  { rewrite Hroom. apply lookup_insert_eq. }
  unfold submitSignal, ping, get_clients. rewrite Hmember.
  split; [apply signalBatches_fmap|]. done.
Qed.

(** X22.  A client connected in mode [read] cannot submit ops.  After a
    [connect_document] accepted in mode [read] for a clientId that had no
    orderer connection on the socket, every [submitOp] of that clientId
    is answered with one nack and forwards nothing: [Readonly client]
    (400) when the scopes cached for the client grant write access,
    [Invalid scope] (403) when they do not; it is never taken for a
    nonexistent client, and the limiter is not consulted. *)
Theorem reader_submitOp_nacked (message : IConnect)
    (st st' : socket_state) (effs : list effect) (m : IConnectedClient)
    (senv : submit_env) (batches : list messageBatch) :
  connectDocument intersects cfg env message st = (st', effs, inr m) →
  connected_mode (connection m) = "read" →
  connectionsMap st !! connected_clientId (connection m) = None →
  ∃ scopes,
    scopeMap st' !! connected_clientId (connection m) = Some scopes
    ∧ submitOp senv (connected_clientId (connection m)) batches st'
      = ([SocketEmit "nack"
            (PNack EmptyString
               [if hasWriteAccess scopes
                then createNackMessage 400 BadRequestError "Readonly client"
                       None
                else createNackMessage 403 InvalidScopeError "Invalid scope"
                       None])],
         Ok tt).
Proof.
  intros H Hmode Hfresh.
  apply connectDocument_accept in H
    as (token & claims & version & clients & _ & _ & _ & _ & _ & Hid & _ & _
        & _ & Hscope & Hroom & Hw & _).
  rewrite Hid in *.
  exists (clientScopes claims (requestClient message)).
  assert (Hs : scopeMap st' !! generateClientId env
               = Some (clientScopes claims (requestClient message))).
  { rewrite Hscope. apply lookup_insert_eq. }
  split; [done|].
  assert (Hc : connectionsMap st' !! generateClientId env = None).
  { destruct (isWriter _ _).
    - destruct Hw as (? & _ & Hwrite & _). congruence.
    - destruct Hw as (-> & _). done. }
  unfold submitOp. rewrite Hc, Hs.
  destruct (hasWriteAccess _); [done|].
  rewrite bool_decide_eq_true_2; [done|].
  rewrite Hroom, lookup_insert_eq. by eexists.
Qed.

(** X23.  A client connected in mode [write] is never nacked for its
    role.  After a [connect_document] accepted in mode [write], a
    [submitOp] of the new clientId that the limiter lets through emits
    nothing on the socket: its calls are calls to the metric sink and to
    the orderer connection stored at connect, and when the batch loop
    runs to its end they are, batch after batch, the metric calls of the
    batch followed by its order call.  The limiter is asked with the key
    made of the clientId and of the tenant id of the orderer connection. *)
Theorem writer_submitOp_forwarded (message : IConnect)
    (st st' : socket_state) (effs : list effect) (m : IConnectedClient)
    (senv : submit_env) (batches : list messageBatch) :
  connectDocument intersects cfg env message st = (st', effs, inr m) →
  connected_mode (connection m) = "write" →
  let clientId := connected_clientId (connection m) in
  ∃ conn,
    connectionsMap st' !! clientId = Some conn
    ∧ (checkThrottle (submitOpThrottler senv)
         (clientId ++ "_" ++ conn_tenantId conn ++ "_SubmitOp") = None →
       Forall (fun x => is_emit x = false)
              (fst (submitOp senv clientId batches st'))
       ∧ (snd (submitOp senv clientId batches st') = Ok tt →
          fst (submitOp senv clientId batches st')
          = flat_map (fun b => (roundTripMetrics (batch_messages b)
                                ++ batchOrder clientId b)%list) batches)).
Proof.
  intros H Hmode. cbv zeta.
  apply connectDocument_accept in H
    as (token & claims & version & clients & _ & _ & _ & _ & _ & Hid & _ & _
        & _ & _ & _ & Hw & _).
  rewrite Hid in *.
  destruct (isWriter _ _); [|destruct Hw as (_ & ? & _); congruence].
  destruct Hw as (conn & Hconn & _). exists conn.
  assert (Hc : connectionsMap st' !! generateClientId env = Some conn).
  { rewrite Hconn. apply lookup_insert_eq. }
  split; [done|]. intros Hpass.
  unfold submitOp. rewrite Hc. unfold getSubmitOpThrottleId. rewrite Hpass.
  destruct (orderBatches senv (generateClientId env) 0 batches)
    as [effs' r'] eqn:Hloop.
  split.
  - by eapply orderBatches_no_emit.
  - cbn. intros ->. by eapply orderBatches_complete.
Qed.

End HandlersAfterConnect.

(** X24.  The handlers agree on who is a nonexistent client.  On a
    socket that satisfies the socket invariant, so in every state of its
    life, [submitOp], [submitSignal], [ping] and [get_clients] answer a
    clientId with the nack [Nonexistent client] exactly when it is not in
    [roomMap]. *)
Theorem nonexistent_client_agreement (cfg : config) (st : socket_state)
    (senv : submit_env) (clientId : string) (batches : list messageBatch)
    (contentBatches : list jsval)
    (registry : string -> string -> option (list jsval)) :
  socket_invariant cfg st →
  (fst (submitOp senv clientId batches st) = [nonexistentClientNack]
   ↔ roomMap st !! clientId = None)
  ∧ (submitSignal clientId contentBatches st = [nonexistentClient]
     ↔ roomMap st !! clientId = None)
  ∧ (ping clientId st = [nonexistentClient] ↔ roomMap st !! clientId = None)
  ∧ (get_clients registry clientId st = [nonexistentClient]
     ↔ roomMap st !! clientId = None).
Proof.
  intros (Hconn & Haligned & _). split; [|split; [|split]].
  - unfold submitOp.
    destruct (connectionsMap st !! clientId) as [conn|] eqn:Hc.
    + assert (Hmember : is_Some (roomMap st !! clientId)).
      { apply elem_of_dom, Hconn. by apply elem_of_dom_2 in Hc. }
      destruct Hmember as [room Hroom]. rewrite Hroom.
      split; [|done]. intros Heffs. exfalso.
      destruct (checkThrottle _ _); [by injection Heffs|].
      destruct (orderBatches senv clientId 0 batches) as [effs r] eqn:Hloop.
      apply orderBatches_no_emit in Hloop. cbn in Heffs. subst effs.
      by apply Forall_cons in Hloop as [? _].
    + cbn [fst].
      destruct (roomMap st !! clientId) as [room|] eqn:Hroom.
      * split; [|done]. intros Heffs. exfalso.
        rewrite bool_decide_eq_true_2 in Heffs by done.
        by destruct (match scopeMap st !! clientId with
                     | Some clientScope => hasWriteAccess clientScope
                     | None => false
                     end); injection Heffs.
      * split; [done|]. intros _.
        assert (scopeMap st !! clientId = None) as ->.
        { apply not_elem_of_dom. rewrite <- Haligned.
          by apply not_elem_of_dom. }
        by rewrite bool_decide_eq_false_2 by (by intros [? ?]).
  - unfold submitSignal. destruct (roomMap st !! clientId) as [room|]; [|done].
    split; [|done]. rewrite signalBatches_fmap.
    by destruct (flat_map batch_contents contentBatches).
  - unfold ping. by destruct (roomMap st !! clientId).
  - unfold get_clients. destruct (roomMap st !! clientId); [|done].
    by destruct (registry _ _).
Qed.

(** X25.  The submit-op limiter fails open.  When there is a limiter
    and its [incrementCount] returns, or throws anything but a
    [ThrottlingError], [submitOp] behaves exactly as on a server without
    submit-op limiter. *)
Theorem submitOp_limiter_fails_open (senv : submit_env)
    (limiter : IThrottler) (clientId : string)
    (batches : list messageBatch) (st : socket_state) :
  submitOpThrottler senv = Some limiter →
  (∀ conn t,
     connectionsMap st !! clientId = Some conn →
     limiter (getSubmitOpThrottleId clientId (conn_tenantId conn))
     ≠ IncrThrottled t) →
  submitOp senv clientId batches st
  = submitOp (without_submitOpThrottler senv) clientId batches st.
Proof.
  intros Hlimiter Hpass. unfold submitOp, checkThrottle.
  destruct (connectionsMap st !! clientId) as [conn|] eqn:Hconn; [|done].
  rewrite Hlimiter. cbn [submitOpThrottler without_submitOpThrottler].
  destruct (limiter _) as [|t|err] eqn:Hkey; [done| |done].
  by destruct (Hpass conn t eq_refl).
Qed.

(** ** The further properties on concrete events *)

(** X4, on the room of document [a/b] of tenant [t]. *)
Lemma getRoomId_inj_witness :
  slash_free "t" = true
  ∧ ∀ d, getRoomId {| room_tenantId := "t"; room_documentId := d |} = "t/a/b" →
         d = "a/b".
Proof.
  split; [reflexivity|]. intros d Hd.
  assert (H : {| room_tenantId := "t"; room_documentId := d |}
              = {| room_tenantId := "t"; room_documentId := "a/b" |}).
  { apply getRoomId_inj; [reflexivity|reflexivity|exact Hd]. }
  by injection H.
Defined.

(** X6, on a request with a token that would verify, refused by the
    limiter: nothing is called, nothing is written. *)
Lemma connect_needs_verified_token_witness :
  let t := {| throttle_code := 429; throttle_message := "Too many requests";
              throttle_retryAfter := 10 |} in
  let env := sample_env_limited (IncrThrottled t) "c1"
               (sample_claims [ScopeType_DocWrite] 1 1000) [] 5 in
  let message := sample_connect (Some sample_client) (Some ["^0.4.0"]) "write" in
  connectDocument caret_intersects (sample_cfg 10 false) env message
    sample_state
  = (sample_state, [],
     inl (AtThrottle, RejectWith 429 "Too many requests" (Some 10))).
Proof.
  intros t env message.
  destruct (connect_needs_verified_token caret_intersects (sample_cfg 10 false)
              env message sample_state) as (Hlimiter & _).
  exact (Hlimiter t eq_refl).
Defined.


(** X8, on a request that the client registry refuses: the fixed 500
    error. *)
Lemma connect_rejection_catalogue_witness :
  let env := sample_env "c1" (sample_claims [ScopeType_DocWrite] 0 1000) [] 5 false in
  let message := sample_connect (Some sample_client) (Some ["^0.4.0"]) "write" in
  ∃ st' effs e,
    connectDocument caret_intersects (sample_cfg 10 false) env message
      initial_state = (st', effs, inl (AtRegistryAdd, e))
    ∧ e = RejectWith 500 "Failed to connect client to document." None.
Proof.
  intros env message. eexists _, _, _. split; [reflexivity|].
  apply (connect_rejection_catalogue caret_intersects (sample_cfg 10 false) env
           message initial_state _ _ AtRegistryAdd _ eq_refl).
Defined.

(** X9, on an accepted reader of document [t/d]. *)
Lemma connect_accepted_announcement_witness :
  let env := sample_env "c1" (sample_claims [ScopeType_DocRead] 0 1000) [] 5 true in
  let message := sample_connect (Some sample_client) (Some ["^0.4.0"]) "read" in
  ∃ st' effs m,
    connectDocument caret_intersects (sample_cfg 10 false) env message
      initial_state = (st', effs, inr m)
    ∧ on_connect_document caret_intersects (sample_cfg 10 false) env message
        initial_state
      = (st',
         (effs ++ [SocketEmit "connect_document_success"
                     (PConnected (connection m));
                   SocketEmitToRoom "t/d" "signal"
                     (PRoomJoin "c1" (details m))])%list)
    ∧ roomMap st' !! "c1"
      = Some {| room_tenantId := "t"; room_documentId := "d" |}
    ∧ SocketJoin "t/d" ∈ effs
    ∧ Forall (fun x => is_emit x = false) effs.
Proof.
  intros env message. eexists _, _, _. split; [reflexivity|].
  exact (connect_accepted_announcement caret_intersects (sample_cfg 10 false)
           env message initial_state _ _ _ eq_refl).
Defined.

(** X10, on an accepted reader: the limit of 1024 and the default
    configuration. *)
Lemma connected_response_by_role_witness :
  let env := sample_env "c1" (sample_claims [ScopeType_DocRead] 0 1000)
               [sample_signal_client "c0"] 5 true in
  let message := sample_connect (Some sample_client) (Some ["^0.4.0"]) "read" in
  ∃ st' effs m,
    connectDocument caret_intersects (sample_cfg 10 false) env message
      initial_state = (st', effs, inr m)
    ∧ connected_mode (connection m) = "read"
    ∧ connected_maxMessageSize (connection m) = 1024
    ∧ connected_serviceConfiguration (connection m)
      = sample_serviceConfiguration
    ∧ connected_version (connection m)
      ∈ connected_supportedVersions (connection m).
Proof.
  intros env message. eexists _, _, _. split; [reflexivity|].
  destruct (connected_response_by_role caret_intersects (sample_cfg 10 false)
              env message initial_state _ _ _ eq_refl)
    as (_ & _ & _ & _ & Hversion & _ & _ & _ & [(Hmode & _)|Hread]).
  - discriminate Hmode.
  - destruct Hread as (Hmode & _ & Hsize & Hconfig).
    split; [exact Hmode|]. split; [exact Hsize|].
    split; [exact Hconfig|exact Hversion].
Defined.

(** X11, on a request whose descriptor claims a user and scopes of its
    own. *)
Lemma descriptor_identity_from_claims_witness :
  let env := sample_env "c1" (sample_claims [ScopeType_DocRead] 0 1000) [] 5 true in
  let client : jsobj :=
    {[ "user" := JStr "root";
       "scopes" := JArr [JStr ScopeType_DocWrite];
       "mode" := JStr "write" ]} in
  let message := sample_connect (Some client) (Some ["^0.4.0"]) "write" in
  ∃ st' effs m,
    connectDocument caret_intersects (sample_cfg 10 false) env message
      initial_state = (st', effs, inr m)
    ∧ details m !! "user" = Some (JObj {[ "id" := JStr "u" ]})
    ∧ details m !! "timestamp" = Some (JNum 5)
    ∧ details m !! "mode" = Some (JStr "write").
Proof.
  intros env client message. eexists _, _, _. split; [reflexivity|].
  destruct (descriptor_identity_from_claims caret_intersects
              (sample_cfg 10 false) env message initial_state _ _ _ eq_refl)
    as (Huser & _ & Hstamp & Hrest).
  split; [exact Huser|]. split; [exact Hstamp|].
  rewrite (Hrest "mode") by discriminate. reflexivity.
Defined.

(** X12, on a token with [SummaryWrite] only and a client that does not
    declare itself a summarizer: mode [read], although [write] was asked
    for. *)
Lemma connected_mode_by_scopes_witness :
  let env := sample_env "c1" (sample_claims [ScopeType_SummaryWrite] 0 1000)
               [] 5 true in
  let message := sample_connect (Some sample_client) (Some ["^0.4.0"]) "write" in
  ∃ st' effs m,
    connectDocument caret_intersects (sample_cfg 10 false) env message
      initial_state = (st', effs, inr m)
    ∧ connected_mode (connection m) = "read".
Proof.
  intros env message. eexists _, _, _. split; [reflexivity|].
  destruct (connected_mode_by_scopes caret_intersects (sample_cfg 10 false)
              env message initial_state _ _ _ eq_refl)
    as [[Hmode|Hmode] _]; [discriminate Hmode|exact Hmode].
Defined.

(** X13, on a socket whose timer is armed for 1000000 ms: a request
    with a token issued at 1 s that expires at 2000 s, rejected at 10 ms
    because the orderer manager is down, leaves the first timer disarmed
    and a second one armed for 2000000 ms. *)
Lemma rejected_connect_timer_witness :
  let env := sample_env_orderer_down "c2"
               (sample_claims [ScopeType_DocWrite] 1 2000) [] 10 in
  let message := sample_connect (Some sample_client) (Some ["^0.4.0"]) "write" in
  let st := setExpirationTimer 0 1000000 initial_state in
  ∃ st' effs e,
    connectDocument caret_intersects (sample_cfg 10 true) env message st
    = (st', effs, inl (AtOrdererAttach, e))
    ∧ expirationTimer st = Some 0%nat
    ∧ timers st !! 0%nat = Some 1000000
    ∧ expirationTimer st' = Some 1%nat
    ∧ timers st' !! 0%nat = None
    ∧ timers st' !! 1%nat = Some 2000000.
Proof.
  intros env message st. eexists _, _, _. split; [reflexivity|].
  split; [reflexivity|]. split; [reflexivity|].
  destruct (rejected_connect_timer caret_intersects (sample_cfg 10 true) env
              message st _ _ AtOrdererAttach _ eq_refl)
    as (token & claims & life & _ & _ & Hvar & Htimers).
  split; [exact Hvar|]. split; reflexivity.
Defined.

(** X14, on a limiter that is itself failing. *)
Lemma connect_limiter_fails_open_witness :
  let env := sample_env_limited (IncrFault (JStr "redis down")) "c1"
               (sample_claims [ScopeType_DocWrite] 0 1000) [] 5 in
  let message := sample_connect (Some sample_client) (Some ["^0.4.0"]) "write" in
  on_connect_document caret_intersects (sample_cfg 10 false) env message
    initial_state
  = on_connect_document caret_intersects (sample_cfg 10 false)
      (without_connectThrottler env) message initial_state.
Proof.
  intros env message.
  exact (connect_limiter_fails_open caret_intersects (sample_cfg 10 false) env
           message initial_state (fun _ => IncrFault (JStr "redis down"))
           eq_refl).
Defined.


(** X16, on the writer [w] of the sample socket: a rejected connect of
    another client, an orderer error and the expiration of the token
    leave its entries in place. *)
Lemma entries_persist_witness :
  let env := sample_env "c1" (sample_claims [ScopeType_DocWrite] 0 1000) [] 5 false in
  let message := sample_connect (Some sample_client) (Some ["^0.4.0"]) "write" in
  let st' := after_events caret_intersects (sample_cfg 10 false)
               [EvConnectDocument env message; EvConnectionError;
                EvExpiration 0]
               sample_state in
  connectionsMap st' !! "w" = Some sample_connection
  ∧ roomMap st' !! "w"
    = Some {| room_tenantId := "t"; room_documentId := "d" |}.
Proof.
  intros env message st'.
  destruct (entries_persist caret_intersects (sample_cfg 10 false)
              [EvConnectDocument env message; EvConnectionError;
               EvExpiration 0]
              sample_state "w") as (Hc & Hr & _).
  { repeat constructor. discriminate. }
  split; [exact Hc|exact Hr].
Defined.

Lemma sample_state_connections :
  enumerates [("w", sample_connection)] (connectionsMap sample_state).
Proof. unfold enumerates. cbn. by rewrite map_to_list_singleton. Qed.

Lemma sample_state_rooms :
  enumerates [("w", {| room_tenantId := "t"; room_documentId := "d" |});
              ("r", {| room_tenantId := "t"; room_documentId := "d" |})]
             (roomMap sample_state).
Proof.
  unfold enumerates. cbn.
  rewrite map_to_list_insert by done. by rewrite map_to_list_singleton.
Qed.

(** X17, on the sample socket: one [disconnect] of the connection of
    [w], and a removal and a leave for [w] and for [r]. *)
Lemma on_disconnect_calls_witness :
  let room := {| room_tenantId := "t"; room_documentId := "d" |} in
  let out := on_disconnect [("w", sample_connection)]
               [("w", room); ("r", room)] sample_state in
  ConnectionDisconnect "w" ∈ snd out
  ∧ RemoveClient "t" "d" "r" ∈ snd out
  ∧ (ConnectionDisconnect "r" ∉ snd out)
  ∧ List.length (snd out) = 5%nat.
Proof.
  intros room out.
  destruct (on_disconnect_calls [("w", sample_connection)]
              [("w", room); ("r", room)] sample_state
              sample_state_connections sample_state_rooms)
    as (Hcalls & _ & Hlen & _).
  split; [|split; [|split]].
  - apply Hcalls. left. exists "w". split; [|done].
    apply elem_of_dom. by eexists.
  - apply Hcalls. right. exists "r", room. split; [done|]. by left.
  - intros [(k & Hk & [= <-])|(k & room' & _ & [?|?])]%Hcalls; [|done|done].
    apply elem_of_dom in Hk as [c Hk]. discriminate Hk.
  - exact Hlen.
Defined.

(** X18, on a writer whose connect fails at the orderer after the
    registry add: the client is removed at disconnect. *)
Lemma registered_client_removed_at_disconnect_witness :
  let env := sample_env_orderer_down "c1"
               (sample_claims [ScopeType_DocWrite] 0 1000) [] 5 in
  let message := sample_connect (Some sample_client) (Some ["^0.4.0"]) "write" in
  let room := {| room_tenantId := "t"; room_documentId := "d" |} in
  ∃ st1 effs r,
    connectDocument caret_intersects (sample_cfg 10 false) env message
      initial_state = (st1, effs, r)
    ∧ AddClient "t" "d" "c1"
        (stampClient (sample_claims [ScopeType_DocWrite] 0 1000) 5
           sample_client) ∈ effs
    ∧ RemoveClient "t" "d" "c1" ∈ snd (on_disconnect [] [("c1", room)] st1)
    ∧ SocketEmitToRoom "t/d" "signal" (PRoomLeave "c1")
      ∈ snd (on_disconnect [] [("c1", room)] st1).
Proof.
  intros env message room. eexists _, _, _. split; [reflexivity|].
  assert (Hadd : AddClient "t" "d" "c1"
                   (stampClient (sample_claims [ScopeType_DocWrite] 0 1000) 5
                      sample_client)
                 ∈ [SocketJoin "t/d"; SocketJoin "client#c1";
                    AddClient "t" "d" "c1"
                      (stampClient (sample_claims [ScopeType_DocWrite] 0 1000)
                         5 sample_client)]).
  { apply elem_of_cons. right. apply elem_of_cons. right.
    apply elem_of_cons. by left. }
  split; [exact Hadd|].
  apply (registered_client_removed_at_disconnect caret_intersects
           (sample_cfg 10 false) env message initial_state _ _ _ _
           "t" "d" "c1" _ [] [("c1", room)] eq_refl Hadd eq_refl).
  unfold enumerates. cbn. by rewrite insert_empty, map_to_list_singleton.
Defined.

(** X19, on a connect rejected for the quota: nothing was registered or
    announced, and yet the client is removed and its leave announced at
    disconnect. *)
Lemma unregistered_member_leaves_at_disconnect_witness :
  let env := sample_env "c1" (sample_claims [ScopeType_DocWrite] 0 1000)
               [sample_signal_client "a"; sample_signal_client "b"] 5 true in
  let message := sample_connect (Some sample_client) (Some ["^0.4.0"]) "write" in
  let room := {| room_tenantId := "t"; room_documentId := "d" |} in
  ∃ st1 effs e,
    connectDocument caret_intersects (sample_cfg 1 false) env message
      initial_state = (st1, effs, inl (AtQuota, e))
    ∧ (∀ t d clientId client, AddClient t d clientId client ∉ effs)
    ∧ Forall (fun x => is_emit x = false) effs
    ∧ ∃ token claims,
        validateTokenClaims env token (connect_id message)
          (connect_tenantId message) = inr claims
        ∧ RemoveClient (claims_tenantId claims) (claims_documentId claims)
            (generateClientId env)
          ∈ snd (on_disconnect [] [("c1", room)] st1)
        ∧ SocketEmitToRoom (getRoomId (claimsRoom claims)) "signal"
            (PRoomLeave (generateClientId env))
          ∈ snd (on_disconnect [] [("c1", room)] st1).
Proof.
  intros env message room. eexists _, _, _. split; [reflexivity|].
  apply (unregistered_member_leaves_at_disconnect caret_intersects
           (sample_cfg 1 false) env message initial_state _ _ _ AtQuota _
           [] [("c1", room)] eq_refl eq_refl eq_refl).
  unfold enumerates. cbn. by rewrite insert_empty, map_to_list_singleton.
Defined.

(** X21, on an accepted reader that sends two signals in one batch and
    pings. *)
Lemma member_handlers_after_connect_witness :
  let env := sample_env "c1" (sample_claims [ScopeType_DocRead] 0 1000) [] 5 true in
  let message := sample_connect (Some sample_client) (Some ["^0.4.0"]) "read" in
  ∃ st' effs m,
    connectDocument caret_intersects (sample_cfg 10 false) env message
      initial_state = (st', effs, inr m)
    ∧ submitSignal "c1" [JArr [JStr "a"; JStr "b"]] st'
      = [EmitToRoom "t/d" "signal" (BSignal "c1" (JStr "a"));
         EmitToRoom "t/d" "signal" (BSignal "c1" (JStr "b"))]
    ∧ ping "c1" st' = [EmitToRoom "t/d" "pong" (BPong "c1")]
    ∧ get_clients (fun _ _ => None) "c1" st' = [].
Proof.
  intros env message. eexists _, _, _. split; [reflexivity|].
  exact (member_handlers_after_connect caret_intersects (sample_cfg 10 false)
           env message initial_state _ _ _ [JArr [JStr "a"; JStr "b"]]
           (fun _ _ => None) eq_refl).
Defined.

(** X22, on a client with a write token that connects in mode [read]
    and then submits an op: [Readonly client]. *)
Lemma reader_submitOp_nacked_witness :
  let env := sample_env "c1" (sample_claims [ScopeType_DocWrite] 0 1000) [] 5 true in
  let message := sample_connect (Some sample_client) (Some ["^0.4.0"]) "read" in
  ∃ st' effs m,
    connectDocument caret_intersects (sample_cfg 10 false) env message
      initial_state = (st', effs, inr m)
    ∧ submitOp (sample_submit_env false 1) "c1" [Single (sample_op "op")] st'
      = ([SocketEmit "nack"
            (PNack EmptyString
               [createNackMessage 400 BadRequestError "Readonly client"
                  None])],
         Ok tt).
Proof.
  intros env message. eexists _, _, _. split; [reflexivity|].
  destruct (reader_submitOp_nacked caret_intersects (sample_cfg 10 false)
              env message initial_state _ _ _ (sample_submit_env false 1)
              [Single (sample_op "op")] eq_refl eq_refl eq_refl)
    as (scopes & Hscopes & Hnack).
  injection Hscopes as <-. exact Hnack.
Defined.

(** X23, on an accepted writer that submits a probe with traces and an
    op in one batch. *)
Lemma writer_submitOp_forwarded_witness :
  let env := sample_env "c1" (sample_claims [ScopeType_DocWrite] 0 1000) [] 5 true in
  let message := sample_connect (Some sample_client) (Some ["^0.4.0"]) "write" in
  let probe : jsobj := {[ "type" := JStr MessageType_RoundTrip;
                          "traces" := JArr [JStr "s"] ]} in
  let batches := [Several [probe; sample_op "op"]] in
  ∃ st' effs m,
    connectDocument caret_intersects (sample_cfg 10 false) env message
      initial_state = (st', effs, inr m)
    ∧ fst (submitOp (sample_submit_env false 1) "c1" batches st')
      = [WriteLatencyMetric "latency" (JArr [JStr "s"]);
         ConnectionOrder "c1" [sanitizedMessage (sample_op "op")]].
Proof.
  intros env message probe batches. eexists _, _, _. split; [reflexivity|].
  destruct (writer_submitOp_forwarded caret_intersects (sample_cfg 10 false)
              env message initial_state _ _ _ (sample_submit_env false 1)
              batches eq_refl eq_refl)
    as (conn & Hconn & Hpass).
  injection Hconn as <-.
  destruct (Hpass eq_refl) as [_ Hdone]. exact (Hdone eq_refl).
Defined.

Lemma sample_state_invariant :
  socket_invariant (sample_cfg 10 false) sample_state.
Proof.
  unfold socket_invariant, sample_state. cbn.
  rewrite !dom_insert_L, !dom_singleton_L. split_and!; [set_solver|done|done].
Qed.

(** X24, on the sample socket: the stranger [x] is nonexistent for every
    handler, the reader [r] for none. *)
Lemma nonexistent_client_agreement_witness :
  fst (submitOp (sample_submit_env false 1) "x" [] sample_state)
  = [nonexistentClientNack]
  ∧ ping "x" sample_state = [nonexistentClient]
  ∧ fst (submitOp (sample_submit_env false 1) "r" [] sample_state)
    ≠ [nonexistentClientNack].
Proof.
  destruct (nonexistent_client_agreement (sample_cfg 10 false) sample_state
              (sample_submit_env false 1) "x" [] [] (fun _ _ => None)
              sample_state_invariant) as (Hop & _ & Hping & _).
  destruct (nonexistent_client_agreement (sample_cfg 10 false) sample_state
              (sample_submit_env false 1) "r" [] [] (fun _ _ => None)
              sample_state_invariant) as (Hreader & _).
  split; [by apply Hop|]. split; [by apply Hping|].
  intros H. apply Hreader in H. discriminate H.
Defined.

(** X25, on the writer [w] of the sample socket and a limiter that is
    itself failing. *)
Lemma submitOp_limiter_fails_open_witness :
  let senv := {| submitOpThrottler := Some (fun _ => IncrFault JNull);
                 getRandomInt := fun _ _ => 1;
                 op_now := fun _ _ => 1000 |} in
  submitOp senv "w" [Single (sample_op "op")] sample_state
  = submitOp (without_submitOpThrottler senv) "w" [Single (sample_op "op")]
      sample_state.
Proof.
  intros senv.
  apply (submitOp_limiter_fails_open senv (fun _ => IncrFault JNull));
    [reflexivity|discriminate].
Defined.

(** ** When [submitOp] throws *)

Lemma sanitizeMessage_Throw (rnd now : Z) (message : jsobj) (e : exn) :
  sanitizeMessage rnd now message = Throw e →
  rnd = 0
  ∧ truthy (prop (js_get message "operation") "traces") = true
  ∧ is_array (prop (js_get message "operation") "traces") = false
  ∧ e = TypeError "message.operation.traces.push is not a function".
Proof.
  unfold sanitizeMessage, traceSampling.
  destruct (truthy (js_get message "operation")); [|done].
  destruct (truthy (prop _ _)) eqn:Ht; [|done].
  destruct (rnd =? 0) eqn:Hrnd; [|done]. apply Z.eqb_eq in Hrnd. cbn.
  destruct (prop (js_get message "operation") "traces"); cbn;
    try (by intros [= <-]).
  by destruct (js_get message "operation").
Qed.

Section SubmitThrows.

Variable env : submit_env.

Lemma sanitizeAll_Throw (i j : nat) (messages : list jsobj) (e : exn) :
  sanitizeAll env i j messages = Throw e →
  e = TypeError "message.operation.traces.push is not a function"
  ∧ ∃ message,
      message ∈ messages
      ∧ truthy (prop (js_get message "operation") "traces") = true
      ∧ is_array (prop (js_get message "operation") "traces") = false.
Proof.
  revert j. induction messages as [|message rest IH]; intros j; cbn; [done|].
  destruct (sanitizeMessage _ _ _) as [[m' s]|e'] eqn:Hs.
  - destruct (sanitizeAll env i (S j) rest) as [l|e'] eqn:Hrest; [done|].
    intros [= ->]. destruct (IH _ Hrest) as (-> & message' & ? & ? & ?).
    split; [done|]. exists message'. split; [|done].
    apply elem_of_cons. by right.
  - intros [= ->]. apply sanitizeMessage_Throw in Hs as (_ & ? & ? & ->).
    split; [done|]. exists message. split; [|done]. apply elem_of_cons. by left.
Qed.

Lemma sanitizeAll_total (i j : nat) (messages : list jsobj) :
  (∀ message, message ∈ messages →
     truthy (prop (js_get message "operation") "traces") = true →
     is_array (prop (js_get message "operation") "traces") = true) →
  ∃ sanitized, sanitizeAll env i j messages = Ok sanitized.
Proof.
  intros Harr. destruct (sanitizeAll env i j messages) as [l|e] eqn:H; [eauto|].
  apply sanitizeAll_Throw in H as (_ & message & Hin & Ht & Ha).
  rewrite (Harr message Hin Ht) in Ha. discriminate Ha.
Qed.

Lemma orderBatch_Throw (clientId : string) (i : nat) (b : messageBatch)
    (effs : list effect) (e : exn) :
  orderBatch env clientId i b = (effs, Throw e) →
  effs = roundTripMetrics (batch_messages b)
  ∧ e = TypeError "message.operation.traces.push is not a function"
  ∧ ∃ message,
      message ∈ batch_messages b ∧ isRoundTrip message = false
      ∧ truthy (prop (js_get message "operation") "traces") = true
      ∧ is_array (prop (js_get message "operation") "traces") = false.
Proof.
  unfold orderBatch. rewrite filterRoundTrip_spec.
  destruct (sanitizeAll env i 0 (keptMessages (batch_messages b)))
    as [sanitized|e'] eqn:Hs.
  - by destruct (0 <? List.length sanitized)%nat.
  - intros [= <- ->].
    apply sanitizeAll_Throw in Hs as (-> & message & Hin & ? & ?).
    apply elem_of_keptMessages in Hin as [? ?]. eauto 10.
Qed.

Lemma orderBatches_Throw (clientId : string) (i : nat)
    (batches : list messageBatch) (effs : list effect) (e : exn) :
  orderBatches env clientId i batches = (effs, Throw e) →
  ∃ completed b rest,
    batches = (completed ++ b :: rest)%list
    ∧ effs = (flat_map (fun b => (roundTripMetrics (batch_messages b)
                                  ++ batchOrder clientId b)%list) completed
              ++ roundTripMetrics (batch_messages b))%list
    ∧ e = TypeError "message.operation.traces.push is not a function"
    ∧ ∃ message,
        message ∈ batch_messages b ∧ isRoundTrip message = false
        ∧ truthy (prop (js_get message "operation") "traces") = true
        ∧ is_array (prop (js_get message "operation") "traces") = false.
Proof.
  revert i effs. induction batches as [|b batches IH]; intros i effs; cbn.
  { done. }
  destruct (orderBatch env clientId i b) as [effs1 [[]|e1]] eqn:Hb.
  - destruct (orderBatch_spec env clientId i b) as [Hok|[e' Hthrow]];
      [|congruence].
    rewrite Hok in Hb. injection Hb as <-.
    destruct (orderBatches env clientId (S i) batches) as [effs' r'] eqn:Hrest.
    intros [= <- ->].
    destruct (IH _ _ Hrest) as (completed & b' & rest & -> & -> & -> & Hm).
    exists (b :: completed), b', rest. split; [done|]. split; [|done].
    cbn [flat_map]. by rewrite <- !app_assoc.
  - intros [= <- <-]. apply orderBatch_Throw in Hb as (-> & -> & Hm).
    by exists [], b, batches.
Qed.

(** X26.  On an event whose batches hold message objects, [submitOp]
    returns, without raising an exception, whenever in every message
    [operation.traces], if it is truthy, is an array, as the wire protocol
    has it; the random draws do not matter. *)
Theorem submitOp_returns (clientId : string) (batches : list messageBatch)
    (st : socket_state) :
  (∀ b message,
     b ∈ batches → message ∈ batch_messages b →
     truthy (prop (js_get message "operation") "traces") = true →
     is_array (prop (js_get message "operation") "traces") = true) →
  snd (submitOp env clientId batches st) = Ok tt.
Proof.
  intros Harr. unfold submitOp.
  destruct (connectionsMap st !! clientId) as [conn|]; [|done].
  destruct (checkThrottle _ _); [done|].
  destruct (orderBatches env clientId 0 batches) as [effs [[]|e]] eqn:Hloop;
    [done|].
  apply orderBatches_Throw in Hloop
    as (completed & b & rest & -> & _ & _ & message & Hin & _ & Ht & Ha).
  rewrite (Harr b message) in Ha; [done| |done|done].
  apply elem_of_app. right. apply elem_of_cons. by left.
Qed.

(** X27.  What [submitOp] has done when it throws.  On an event whose
    batches hold message objects the only exception is the TypeError of
    trace sampling, raised for a client with an orderer connection on a
    message that is not a round-trip probe and whose [operation.traces]
    is truthy but not an array.  By then the batches before the one of that message have been
    handled in full; of the batch itself the latency samples have been
    written but no message forwarded, not even the well-formed ones; the
    batches after it are dropped; and no nack is sent. *)
Theorem submitOp_throw_partial (clientId : string)
    (batches : list messageBatch) (st : socket_state)
    (effs : list effect) (e : exn) :
  submitOp env clientId batches st = (effs, Throw e) →
  e = TypeError "message.operation.traces.push is not a function"
  ∧ is_Some (connectionsMap st !! clientId)
  ∧ ∃ completed b rest,
      batches = (completed ++ b :: rest)%list
      ∧ effs = (flat_map (fun b => (roundTripMetrics (batch_messages b)
                                    ++ batchOrder clientId b)%list) completed
                ++ roundTripMetrics (batch_messages b))%list
      ∧ ∃ message,
          message ∈ batch_messages b ∧ isRoundTrip message = false
          ∧ truthy (prop (js_get message "operation") "traces") = true
          ∧ is_array (prop (js_get message "operation") "traces") = false.
Proof.
  unfold submitOp.
  destruct (connectionsMap st !! clientId) as [conn|]; [|done].
  destruct (checkThrottle _ _); [done|]. intros H.
  apply orderBatches_Throw in H as (completed & b & rest & ? & ? & ? & ?).
  split; [done|]. split; [by eexists|]. by exists completed, b, rest.
Qed.

End SubmitThrows.

(** X26, on the writer [w] of the sample socket, with every draw
    sampled. *)
Lemma submitOp_returns_witness :
  let op : jsobj :=
    {[ "type" := JStr "op";
       "operation" := JObj {[ "traces" := JArr [] ]} ]} in
  snd (submitOp (sample_submit_env false 0) "w" [Single op] sample_state)
  = Ok tt.
Proof.
  intros op. apply submitOp_returns. intros b message Hb Hm.
  apply list_elem_of_singleton in Hb as ->.
  apply list_elem_of_singleton in Hm as ->. reflexivity.
Defined.

(** X27, on a batch of a well-formed op and an op whose
    [operation.traces] is a string, after a batch with one op: the first
    batch is forwarded, the second is not. *)
Lemma submitOp_throw_partial_witness :
  let bad : jsobj :=
    {[ "type" := JStr "op";
       "operation" := JObj {[ "traces" := JStr "x" ]} ]} in
  let batches := [Single (sample_op "op"); Several [sample_op "op"; bad]] in
  ∃ effs e,
    submitOp (sample_submit_env false 0) "w" batches sample_state
    = (effs, Throw e)
    ∧ e = TypeError "message.operation.traces.push is not a function"
    ∧ effs = [ConnectionOrder "w" [sanitizedMessage (sample_op "op")]].
Proof.
  intros bad batches. eexists _, _. split; [reflexivity|].
  destruct (submitOp_throw_partial (sample_submit_env false 0) "w" batches
              sample_state _ _ eq_refl) as (He & _).
  split; [exact He|reflexivity].
Defined.

(** ** The expiration timer over the life of a socket *)

Section TimerRuns.

Variable intersects : string -> string -> result bool.
Variable cfg : config.
Variable env : connect_env.

(** What one run of the pipeline does to the timers, whatever its
    outcome: nothing, or one call to [setExpirationTimer]. *)
Lemma connectDocument_timers (message : IConnect) (st st' : socket_state)
    (effs : list effect) (r : connect_stage * rejection + IConnectedClient) :
  connectDocument intersects cfg env message st = (st', effs, r) →
  (expirationTimer st' = expirationTimer st ∧ timers st' = timers st
   ∧ timersCreated st' = timersCreated st)
  ∨ (isTokenExpiryEnabled cfg = true
     ∧ ∃ lifeTimeMSec,
         expirationTimer st' = Some (timersCreated st)
         ∧ timers st'
           = <[timersCreated st
               := expiry_now env + setTimeout_delay lifeTimeMSec]>
               match expirationTimer st with
               | Some handle => delete handle (timers st)
               | None => timers st
               end
         ∧ timersCreated st' = S (timersCreated st)).
Proof.
  intros H. destruct r as [[stage e]|m].
  - apply connectDocument_reject_at in H.
    destruct stage; cbn in H;
      try (destruct H as (_ & -> & _); by left);
      destruct H as (token & claims & _ & _ & _ & _ & H).
    1-6: destruct H as (_ & -> & _); by left.
    destruct H as (_ & _ & _ & H).
    destruct (isTokenExpiryEnabled cfg).
    + destruct H as (life & _ & ->). right. split; [done|]. exists life.
      autorewrite with timer_frame. by cbn.
    + rewrite H. by left.
  - apply connectDocument_accept_at in H
      as (token & claims & version & clients & _ & _ & _ & _ & _ & _ & H).
    cbv zeta in H. destruct H as (_ & _ & timed & Htimed & H).
    assert (Hst : expirationTimer st' = expirationTimer timed
                  ∧ timers st' = timers timed
                  ∧ timersCreated st' = timersCreated timed).
    { destruct (isWriter _ _).
      - by destruct H as (? & ? & _ & _ & -> & _).
      - by destruct H as (-> & _). }
    destruct Hst as (-> & -> & ->).
    destruct (isTokenExpiryEnabled cfg).
    + destruct Htimed as (life & _ & ->). right. split; [done|]. exists life.
      autorewrite with timer_frame. by cbn.
    + rewrite Htimed. by left.
Qed.

End TimerRuns.

Lemma single_timer_cleared (st : socket_state) :
  single_timer st →
  match expirationTimer st with
  | Some handle => delete handle (timers st)
  | None => timers st
  end = ∅.
Proof.
  intros [Hheld _]. apply map_eq. intros h. rewrite lookup_empty.
  destruct (expirationTimer st) as [held|] eqn:Hvar.
  - destruct (decide (h = held)) as [->|Hne].
    + apply lookup_delete_eq.
    + rewrite lookup_delete_ne by done.
      destruct (timers st !! h) as [t|] eqn:Ht; [|done].
      apply Hheld in Ht. congruence.
  - destruct (timers st !! h) as [t|] eqn:Ht; [|done].
    apply Hheld in Ht. congruence.
Qed.

(** Over the whole life of a socket at most one timer is armed, the one
    held by [expirationTimer]: every [setTimeout] of the handlers is
    preceded by [clearExpirationTimer], and its handle is stored. *)
Lemma alive_single_timer (intersects : string -> string -> result bool)
    (cfg : config) (st : socket_state) :
  alive intersects cfg st → single_timer st.
Proof.
  induction 1 as [|ev st Hst IH].
  { split; [intros h t Ht; cbn in Ht; by rewrite lookup_empty in Ht|done]. }
  pose proof (single_timer_cleared st IH) as Hcleared.
  destruct IH as [Hheld Hcreated].
  destruct ev as [env message| | | | | |handle]; cbn; try done.
  - unfold on_connect_document.
    destruct (connectDocument intersects cfg env message st)
      as [[st' effs] r] eqn:H.
    apply connectDocument_timers in H.
    assert (Hfst : ∀ (a b : list effect),
              fst (match r with
                   | inl (_, _) => (st', a)
                   | inr _ => (st', b)
                   end) = st').
    { intros. by destruct r as [[? ?]|?]. }
    assert (single_timer st') as Hst'.
    { destruct H as [(Hv & Ht & Hc)|(_ & life & Hv & Ht & Hc)].
      - split; rewrite ?Hv, ?Ht, ?Hc; done.
      - rewrite Hcleared in Ht. split.
        + intros h t. rewrite Ht, Hv. intros Hh.
          apply lookup_insert_Some in Hh as [[-> _]|[_ Hh]]; [done|].
          by rewrite lookup_empty in Hh.
        + intros h. rewrite Hv, Hc. intros [= <-]. lia. }
    destruct r as [[? ?]|?]; exact Hst'.
  - split.
    + autorewrite with timer_frame. rewrite Hcleared.
      intros h t Ht. by rewrite lookup_empty in Ht.
    + by autorewrite with timer_frame.
  - unfold on_expiration. destruct (timers st !! handle) eqn:Harmed; cbn.
    + split; [|done]. intros h t Ht. cbn in Ht.
      apply lookup_delete_Some in Ht as [_ Ht]. by eapply Hheld.
    + by split.
Qed.

(** On a server without token expiry [expirationTimer] stays undefined. *)
Lemma alive_timer_off (intersects : string -> string -> result bool)
    (cfg : config) (st : socket_state) :
  alive intersects cfg st →
  isTokenExpiryEnabled cfg = false → expirationTimer st = None.
Proof.
  intros Halive Hoff. induction Halive as [|ev st Hst IH]; [done|].
  destruct ev as [env message| | | | | |handle]; cbn; try done.
  - unfold on_connect_document.
    destruct (connectDocument intersects cfg env message st)
      as [[st' effs] r] eqn:H.
    apply connectDocument_timers in H as [(Hv & _)|(Hon & _)]; [|congruence].
    destruct r as [[? ?]|?]; cbn; congruence.
  - by autorewrite with timer_frame.
  - unfold on_expiration. by destruct (timers st !! handle).
Qed.

Section TimerClaims.

Variable intersects : string -> string -> result bool.
Variable cfg : config.
Variable env : connect_env.

(** C9, as the code has it.  On a socket with token expiry enabled,
    after every accepted [connect_document], at whichever point of the
    socket's life, exactly one timer is armed: a timer created by that
    request, which [expirationTimer] holds.  It is due after the
    remaining lifetime that [validateTokenClaimsExpiration] returned for
    the token of the request, or after 1 ms when that lifetime is not
    between 1 and 2^31 - 1 ms, which is what [setTimeout] makes of such a
    delay; so, when the lifetime returned is the time left until the
    expiration of the token and is in that range, the timer is due at the
    expiration of that token.  The timer armed before, for whichever
    client and however soon, has been cleared.  With token expiry
    disabled no timer is armed. *)
Theorem expiration_timer_last_armed (message : IConnect)
    (st st' : socket_state) (effs : list effect) (m : IConnectedClient) :
  alive intersects cfg st →
  connectDocument intersects cfg env message st = (st', effs, inr m) →
  if isTokenExpiryEnabled cfg
  then ∃ lifeTimeMSec handle,
      validateTokenClaimsExpiration env (connected_claims (connection m))
        (maxTokenLifetimeSec cfg) (expiry_now env) = inr lifeTimeMSec
      ∧ expirationTimer st' = Some handle
      ∧ expirationTimer st ≠ Some handle
      ∧ timers st'
        = {[ handle
             := expiry_now env
                + (if (1 <=? lifeTimeMSec) && (lifeTimeMSec <=? 2147483647)
                   then lifeTimeMSec else 1) ]}
      ∧ (lifeTimeMSec
         = claims_exp (connected_claims (connection m)) * 1000
           - expiry_now env →
         1 ≤ lifeTimeMSec ≤ 2147483647 →
         timers st'
         = {[ handle := claims_exp (connected_claims (connection m)) * 1000 ]})
  else expirationTimer st' = None ∧ timers st' = ∅.
Proof.
  intros Halive H.
  pose proof (alive_single_timer _ _ _ Halive) as Hsingle.
  pose proof (single_timer_cleared _ Hsingle) as Hcleared.
  pose proof (alive_timer_off _ _ _ Halive) as Hoff.
  destruct Hsingle as [Hheld Hcreated].
  apply connectDocument_accept in H
    as (token & claims & version & clients & _ & _ & _ & _ & -> & _ & _ & _
        & _ & _ & _ & _ & Htimer).
  destruct (isTokenExpiryEnabled cfg).
  - destruct Htimer as (life & Hlife & Hvar & Htimers).
    rewrite Hcleared, insert_empty in Htimers.
    exists life, (timersCreated st). split_and!; try done.
    + intros Hsame. apply Hcreated in Hsame. lia.
    + intros -> Hrange. rewrite Htimers. unfold setTimeout_delay, TIMEOUT_MAX.
      destruct Hrange as [?%Z.leb_le ?%Z.leb_le].
      assert ((1 <=? claims_exp claims * 1000 - expiry_now env)
              && (claims_exp claims * 1000 - expiry_now env <=? 2147483647)
              = true) as -> by (apply andb_true_iff; done).
      f_equal. lia.
  - destruct Htimer as (-> & ->). split; [by apply Hoff|].
    apply map_eq. intros h. rewrite lookup_empty.
    destruct (timers st !! h) as [t|] eqn:Ht; [|done].
    apply Hheld in Ht. rewrite (Hoff eq_refl) in Ht. discriminate Ht.
Qed.

End TimerClaims.

(** C9, witness: the second of two accepted requests on one socket; the
    token of the first client expires at 1000 s, that of the second at
    2000 s. *)
Lemma expiration_timer_last_armed_witness :
  let cfg := sample_cfg 10 true in
  let message := sample_connect (Some sample_client) (Some ["^0.4.0"]) "write" in
  let env1 := sample_env "c1" (sample_claims [ScopeType_DocWrite] 1 1000) [] 0 true in
  let env2 := sample_env "c2" (sample_claims [ScopeType_DocWrite] 1 2000)
                [sample_signal_client "c1"] 10 true in
  let st1 := after_event caret_intersects cfg (EvConnectDocument env1 message)
               initial_state in
  ∃ st2 effs m,
    connectDocument caret_intersects cfg env2 message st1 = (st2, effs, inr m)
    ∧ timers st1 = {[ 0%nat := 1000000 ]}
    ∧ expirationTimer st2 = Some 1%nat
    ∧ timers st2 = {[ 1%nat := 2000000 ]}.
Proof.
  intros cfg message env1 env2 st1. eexists _, _, _. split; [reflexivity|].
  split; [reflexivity|].
  assert (Halive : alive caret_intersects cfg st1).
  { apply (alive_after _ _ (EvConnectDocument env1 message)).
    apply alive_initial. }
  destruct (expiration_timer_last_armed caret_intersects cfg env2 message
              st1 _ _ _ Halive eq_refl)
    as (life & handle & Hlife & Hvar & _ & _ & Hdeadline).
  injection Hlife as <-.
  assert (handle = 1%nat) as -> by (by injection Hvar).
  split; [reflexivity|]. apply Hdeadline; [reflexivity|]. split; discriminate.
Defined.

(** C9, counterexample: two accepted requests on one socket, with token
    expiry enabled.  The token of the first client [c1] expires at 1000 s,
    the token of the second client [c2] at 2000 s.  After the second
    request both clients are connected, and the one timer armed is due at
    2000000 ms: no timer is armed for the sooner expiration of [c1]. *)
Lemma second_connect_rearms_later_deadline :
  let cfg := sample_cfg 10 true in
  let message := sample_connect (Some sample_client) (Some ["^0.4.0"]) "write" in
  let env1 := sample_env "c1" (sample_claims [ScopeType_DocWrite] 1 1000) [] 0 true in
  let env2 := sample_env "c2" (sample_claims [ScopeType_DocWrite] 1 2000)
                [sample_signal_client "c1"] 10 true in
  let st1 := fst (on_connect_document caret_intersects cfg env1 message initial_state) in
  let st2 := fst (on_connect_document caret_intersects cfg env2 message st1) in
  timers st1 = {[ 0%nat := 1000000 ]}
  ∧ is_Some (connectionsMap st2 !! "c1")
  ∧ is_Some (connectionsMap st2 !! "c2")
  ∧ timers st2 = {[ 1%nat := 2000000 ]}
  ∧ (∀ handle, timers st2 !! handle ≠ Some (Z.min 1000000 2000000)).
Proof.
  intros cfg message env1 env2 st1 st2.
  assert (Ht2 : timers st2 = {[ 1%nat := 2000000 ]}) by reflexivity.
  split; [reflexivity|]. split; [by eexists|]. split; [by eexists|].
  split; [exact Ht2|]. intros handle. rewrite Ht2.
  intros [_ ?]%lookup_singleton_Some. discriminate.
Qed.

(** ** The state after a failed connect *)

Section FailedConnect.

Variable intersects : string -> string -> result bool.
Variable cfg : config.
Variable env : connect_env.

(** C1, as the code has it.  Every [connect_document] request that
    fails, at whichever step, gets one [connect_document_error] and no
    other emission, and leaves [connectionsMap] as it was.  When the
    failure is at the throttle, the token presence check, the token
    validation, the tenant verification or the room join, the whole
    socket state is as it was.  When it is at a later step (negotiation,
    client list, quota, registry add, expiration check, orderer attach),
    [roomMap] and [scopeMap] are the maps of before with one entry
    written, that of the in-flight clientId, which is mapped to the room
    of the claims and to the scopes of the claims ([SummaryWrite] left out
    for a client that is not a summarizer): no other entry is added,
    changed or removed.  The timers are as they were, unless the failure
    is at the orderer attach with token expiry enabled. *)
Theorem connect_failure_state (message : IConnect) (st st' : socket_state)
    (effs : list effect) (stage : connect_stage) (e : rejection) :
  connectDocument intersects cfg env message st = (st', effs, inl (stage, e)) →
  on_connect_document intersects cfg env message st
  = (st', (effs ++ [SocketEmit "connect_document_error" (PConnectError e)])%list)
  ∧ Forall (fun x => is_emit x = false) effs
  ∧ connectionsMap st' = connectionsMap st
  ∧ (if before_room_commit stage
     then st' = st
     else ∃ token claims,
         validateTokenClaims env token (connect_id message)
           (connect_tenantId message) = inr claims
         ∧ roomMap st'
           = <[generateClientId env := claimsRoom claims]> (roomMap st)
         ∧ scopeMap st'
           = <[generateClientId env
               := clientScopes claims (requestClient message)]> (scopeMap st))
  ∧ (rearms_timer cfg stage = false →
     expirationTimer st' = expirationTimer st ∧ timers st' = timers st).
Proof.
  intros H. split; [|split; [|split; [|split]]].
  - unfold on_connect_document. by rewrite H.
  - by apply connectDocument_reject in H as (_ & ? & _).
  - by apply connectDocument_reject in H as (? & _).
  - pose proof H as Hat. apply connectDocument_reject_at in Hat.
    apply connectDocument_reject in H as (_ & _ & H & _).
    destruct stage; cbn in Hat; cbn [before_room_commit] in *;
      try (by destruct Hat as (_ & -> & _));
      try (by destruct Hat as (? & ? & _ & _ & _ & _ & _ & -> & _)).
    all: destruct H as (token & claims & ? & ? & ?); eauto.
  - intros Hstage. apply connectDocument_reject_at in H.
    destruct stage; cbn in H; cbn [rearms_timer] in Hstage;
      try (by destruct H as (_ & -> & _));
      destruct H as (token & claims & _ & _ & _ & _ & H).
    1-6: by destruct H as (_ & -> & _).
    destruct H as (_ & _ & _ & H). rewrite Hstage in H. by rewrite H.
Qed.

End FailedConnect.

(** C1, witness: a request refused by the client registry, on the sample
    socket: the entries of [w] and [r] stay, those of [c1] are written. *)
Lemma connect_failure_state_witness :
  let env := sample_env "c1" (sample_claims [ScopeType_DocWrite] 1 1000) [] 5 false in
  let message := sample_connect (Some sample_client) (Some ["^0.4.0"]) "write" in
  ∃ st' effs e,
    connectDocument caret_intersects (sample_cfg 10 false) env message
      sample_state = (st', effs, inl (AtRegistryAdd, e))
    ∧ connectionsMap st' = connectionsMap sample_state
    ∧ ∃ token claims,
        validateTokenClaims env token (connect_id message)
          (connect_tenantId message) = inr claims
        ∧ roomMap st'
          = <[generateClientId env := claimsRoom claims]> (roomMap sample_state)
        ∧ scopeMap st'
          = <[generateClientId env
              := clientScopes claims (requestClient message)]>
              (scopeMap sample_state).
Proof.
  intros env message. eexists _, _, _. split; [reflexivity|].
  destruct (connect_failure_state caret_intersects (sample_cfg 10 false) env
              message sample_state _ _ AtRegistryAdd _ eq_refl)
    as (_ & _ & Hconn & Hmaps & _).
  split; [exact Hconn|exact Hmaps].
Defined.

(** ** Trace sampling and the sanitized message *)

(** C10, as the code has it.  For an inbound op whose
    [operation.traces], if truthy, is an array, every call of
    [sanitizeMessage] returns, whatever the draw and the clock, and
    returns the same sanitized message, the projection of the inbound op
    on the six properties; the sampled call changes the inbound message
    at the property [operation] only.  For an inbound op whose
    [operation.traces] is truthy and not an array the outcome depends on
    the draw: the sampled call raises a TypeError and produces no message,
    the unsampled call returns the projection. *)
Theorem sanitized_independent_of_sampling (message : jsobj) :
  ((truthy (prop (js_get message "operation") "traces") = true →
    is_array (prop (js_get message "operation") "traces") = true) →
   ∀ rnd now,
     ∃ message',
       sanitizeMessage rnd now message = Ok (message', sanitizedMessage message)
       ∧ (rnd ≠ 0 → message' = message)
       ∧ ∀ k, k ≠ "operation" → message' !! k = message !! k)
  ∧ (truthy (prop (js_get message "operation") "traces") = true →
     is_array (prop (js_get message "operation") "traces") = false →
     ∀ rnd now,
       sanitizeMessage rnd now message
       = if rnd =? 0
         then Throw (TypeError "message.operation.traces.push is not a function")
         else Ok (message, sanitizedMessage message)).
Proof.
  split.
  - intros Harr rnd now.
    destruct (sanitizeMessage rnd now message) as [[m' s]|e] eqn:H.
    + exists m'. rewrite (sanitizeMessage_Ok _ _ _ _ _ H). split; [done|].
      unfold sanitizeMessage in H.
      destruct (traceSampling rnd now message) as [m''|] eqn:Ht; [|done].
      injection H as -> _. split.
      * intros Hrnd%Z.eqb_neq. unfold traceSampling in Ht.
        rewrite Hrnd, andb_false_r in Ht. by injection Ht.
      * intros k Hk. by eapply traceSampling_frame.
    + exfalso. unfold sanitizeMessage, traceSampling in H.
      destruct (truthy (js_get message "operation")); [|done].
      destruct (truthy (prop _ _)) eqn:Ht; [|done].
      specialize (Harr eq_refl).
      destruct (rnd =? 0); [|done]. cbn in H.
      destruct (prop _ _); try done.
      by destruct (js_get message "operation").
  - intros Ht Harr rnd now. unfold sanitizeMessage, traceSampling.
    assert (truthy (js_get message "operation") = true) as ->.
    { by destruct (js_get message "operation"). }
    rewrite Ht. destruct (rnd =? 0); [|done]. cbn.
    by destruct (prop (js_get message "operation") "traces").
Qed.

(** C10, witness: an op whose [operation.traces] is an array, with the
    draws 1 (not sampled) and 0 (sampled). *)
Lemma sanitized_independent_of_sampling_witness :
  let message := <["operation" := JObj {[ "traces" := JArr [] ]}]> (sample_op "op") in
  sanitizeMessage 1 1000 message = Ok (message, sanitizedMessage message)
  ∧ sanitizeMessage 0 1001 message
    = Ok (<["operation" := JObj {[ "traces" := JArr [trace_span 1001] ]}]>
            message, sanitizedMessage message).
Proof.
  intros message.
  destruct (sanitized_independent_of_sampling message) as [Harr _].
  destruct (Harr (fun _ => eq_refl) 1 1000) as (m1 & H1 & Hsame & _).
  destruct (Harr (fun _ => eq_refl) 0 1001) as (m0 & H0 & _).
  rewrite (Hsame ltac:(discriminate)) in H1. split; [exact H1|].
  assert (Hm : sanitizeMessage 0 1001 message
               = Ok (<["operation" := JObj {[ "traces" := JArr [trace_span 1001] ]}]>
                       message, sanitizedMessage message))
    by reflexivity.
  exact Hm.
Defined.

(** C10, counterexample: an op whose [operation.traces] is the
    number 1.  With the draw 0 [sanitizeMessage] throws and the
    [submitOp] of the writer [w] forwards nothing; with the draw 1
    [sanitizeMessage] returns the projection and [submitOp] forwards
    it: what is forwarded depends on the draw. *)
Lemma sampling_non_array_traces :
  let message := <["operation" := JObj {[ "traces" := JNum 1 ]}]> (sample_op "op") in
  sanitizeMessage 0 1000 message
  = Throw (TypeError "message.operation.traces.push is not a function")
  ∧ sanitizeMessage 1 1000 message = Ok (message, sanitizedMessage message)
  ∧ submitOp (sample_submit_env false 0) "w" [Single message] sample_state
    = ([], Throw (TypeError "message.operation.traces.push is not a function"))
  ∧ submitOp (sample_submit_env false 1) "w" [Single message] sample_state
    = ([ConnectionOrder "w" [sanitizedMessage message]], Ok tt).
Proof. intros message. split_and!; reflexivity. Qed.

(** [JSON.stringify] on an offer with a line feed and a quote. *)
Example JSON_stringify_escapes :
  JSON_stringify ["^9.0.0" ++ String (ascii_of_nat 10) EmptyString;
                  "a" ++ double_quote ++ String (ascii_of_nat 1) EmptyString]
  = "[" ++ double_quote ++ "^9.0.0\n" ++ double_quote ++ ","
        ++ double_quote ++ "a\" ++ double_quote ++ "\u0001" ++ double_quote
        ++ "]".
Proof. reflexivity. Qed.
